(** * Settings migration and home-banner media catalog of sigma-file-manager

    A shallow embedding of

    - [migrateUserSettingsStep] (the user-settings schema migration, versions
      0 to 5), and
    - the [useHomeBannerMedia] composable together with the infusion
      background resolver [getInfusionMediaFromBackground],

    followed by the properties of the two that the specification states;
    and, beside them, of

    - the global shortcuts store with the conversions between shortcut keys
      and shortcut strings, and
    - the choice of the background in the settings of the visual effects,

    with properties of these and of how the parts work together.

    Conventions of the embedding.

    - Values read from and written to the persisted store are JSON values
      ([JsValue]).  JavaScript's [undefined] is the [None] of an [option].
    - JavaScript numbers are modelled by [Z]: the numbers the code inspects
      are indices, and their arithmetic is exact on integers.
    - Strings are Rocq strings of 8-bit characters; white space is the ASCII
      white space, and the letters that have an upper and a lower case are
      those of ASCII.
    - An object is the list of its own enumerable properties in enumeration
      order, each key occurring once.
    - Asynchronous functions run to completion one after the other, so an
      [async] function is a function from the state before to an outcome
      (returned or thrown) with the state after. *)

From Stdlib Require Import ZArith List String Ascii Bool Lia.
From stdpp Require Import base option list strings pretty gmap.

Set Warnings "-register-all".

Open Scope string_scope.
Open Scope Z_scope.

(* ===================================================================== *)
(** * Part I: definitions                                                 *)
(* ===================================================================== *)

(** ** JavaScript values and the primitives the code relies on *)

Module Js.

Inductive JsValue : Type :=
| JNull
| JBool (b : bool)
| JNum (n : Z)
| JStr (s : string)
| JArr (items : list JsValue)
| JObj (fields : list (string * JsValue)).

(** [typeof v === 'boolean'], ['number'], ['string']. *)
Definition is_boolean (v : option JsValue) : bool :=
  match v with Some (JBool _) => true | _ => false end.

Definition is_number (v : option JsValue) : bool :=
  match v with Some (JNum _) => true | _ => false end.

Definition is_string (v : option JsValue) : bool :=
  match v with Some (JStr _) => true | _ => false end.

(** [typeof v === 'object']: objects, arrays and [null]. *)
Definition typeof_object (v : option JsValue) : bool :=
  match v with
  | Some JNull | Some (JArr _) | Some (JObj _) => true
  | _ => false
  end.

(** [Array.isArray(v)]. *)
Definition isArray (v : option JsValue) : bool :=
  match v with Some (JArr _) => true | _ => false end.

(** Truthiness, as used by [!v], [v && ...] and [if (v)]. *)
Definition truthy (v : option JsValue) : bool :=
  match v with
  | None | Some JNull => false
  | Some (JBool b) => b
  | Some (JNum n) => negb (Z.eqb n 0)
  | Some (JStr s) => negb (String.eqb s "")
  | Some (JArr _) | Some (JObj _) => true
  end.

(** Own-property lookup in a property list: the first binding of the key. *)
Fixpoint obj_get (k : string) (fields : list (string * JsValue)) : option JsValue :=
  match fields with
  | [] => None
  | (k', v) :: rest => if String.eqb k k' then Some v else obj_get k rest
  end.

(** Defining an own property: an existing key keeps its place and takes the
    new value, a new key goes to the end.  (JavaScript enumerates keys that
    are array indices ahead of the other keys; objects the code builds are
    read by key below, so the place of a new key is of no consequence.) *)
Fixpoint obj_set (k : string) (v : JsValue) (fields : list (string * JsValue))
  : list (string * JsValue) :=
  match fields with
  | [] => [(k, v)]
  | (k', v') :: rest =>
      if String.eqb k k' then (k, v) :: rest else (k', v') :: obj_set k v rest
  end.

(** The assignment [o[k] = v] on an object created by a literal.  The key
    [__proto__] reaches the inherited accessor, which changes the prototype
    and creates no own property. *)
Definition obj_assign (k : string) (v : JsValue) (fields : list (string * JsValue))
  : list (string * JsValue) :=
  if String.eqb k "__proto__" then fields else obj_set k v fields.

(** [v.name] for one of the fixed property names the code reads ([id],
    [path], [positionX], [index], [mediaId], ...) on a value that is neither
    [null] nor [undefined]: only objects carry such a property. *)
Definition js_prop (v : JsValue) (name : string) : option JsValue :=
  match v with
  | JObj fields => obj_get name fields
  | _ => None
  end.

(** The elements of [v] when it is an array, none otherwise. *)
Definition elements (v : option JsValue) : list JsValue :=
  match v with
  | Some (JArr items) => items
  | _ => []
  end.

(** [a[i]] on an array for a number [i]: [undefined] out of range. *)
Definition arr_at {A : Type} (a : list A) (i : Z) : option A :=
  if Z.ltb i 0 then None else a !! Z.to_nat i.

Fixpoint indexed_from (i : nat) (items : list JsValue) : list (string * JsValue) :=
  match items with
  | [] => []
  | v :: rest => (pretty i, v) :: indexed_from (S i) rest
  end.

(** [Object.entries(v)] for a value with [typeof v === 'object'] that is not
    [null]: the properties of an object, the indexed elements of an array. *)
Definition entries (v : JsValue) : list (string * JsValue) :=
  match v with
  | JObj fields => fields
  | JArr items => indexed_from 0%nat items
  | _ => []
  end.

(** [String(v)], which is also how a value used as a property key is turned
    into the key.  Numbers print in decimal. *)
Fixpoint to_string (v : JsValue) : string :=
  match v with
  | JNull => "null"
  | JBool true => "true"
  | JBool false => "false"
  | JNum n => pretty n
  | JStr s => s
  | JObj _ => "[object Object]"
  | JArr items =>
      (fix join (l : list JsValue) : string :=
         match l with
         | [] => ""
         | x :: rest =>
             let sx := match x with JNull => "" | _ => to_string x end in
             match rest with
             | [] => sx
             | _ :: _ => sx +:+ "," +:+ join rest
             end
         end) items
  end.

Definition to_property_key (v : option JsValue) : string :=
  match v with
  | None => "undefined"
  | Some x => to_string x
  end.

(** *** Characters and strings *)

Definition is_digit (c : ascii) : bool :=
  let n := nat_of_ascii c in (Nat.leb 48 n && Nat.leb n 57)%bool.

Definition is_white_space (c : ascii) : bool :=
  let n := nat_of_ascii c in
  ((Nat.leb 9 n && Nat.leb n 13) || Nat.eqb n 32)%bool.

Definition digit_value (c : ascii) : Z := Z.of_nat (nat_of_ascii c) - 48.

Fixpoint all_digits (s : string) : bool :=
  match s with
  | EmptyString => true
  | String c rest => (is_digit c && all_digits rest)%bool
  end.

(** [/^\d+$/.test(key)]. *)
Definition matches_digits (key : string) : bool :=
  match key with
  | EmptyString => false
  | String _ _ => all_digits key
  end.

Fixpoint skip_white_space (s : string) : string :=
  match s with
  | String c rest => if is_white_space c then skip_white_space rest else s
  | EmptyString => EmptyString
  end.

(** The value of the longest prefix of decimal digits, continuing from the
    value [acc] of the digits already read. *)
Fixpoint read_digits (acc : Z) (s : string) : Z :=
  match s with
  | String c rest => if is_digit c then read_digits (10 * acc + digit_value c) rest else acc
  | EmptyString => acc
  end.

Definition starts_with_digit (s : string) : bool :=
  match s with
  | String c _ => is_digit c
  | EmptyString => false
  end.

(** [parseInt(s, 10)]; [None] is [NaN].  Leading white space is skipped, one
    sign is accepted, then the longest run of digits is read and whatever
    follows is ignored. *)
Definition parseInt (s : string) : option Z :=
  let t := skip_white_space s in
  let '(negative, body) :=
    match t with
    | String "-" rest => (true, rest)
    | String "+" rest => (false, rest)
    | _ => (false, t)
    end in
  if starts_with_digit body
  then Some (if negative then - read_digits 0 body else read_digits 0 body)
  else None.

Fixpoint rev_string (acc s : string) : string :=
  match s with
  | EmptyString => acc
  | String c rest => rev_string (String c acc) rest
  end.

(** [s.trim()]. *)
Definition trim (s : string) : string :=
  rev_string "" (skip_white_space (rev_string "" (skip_white_space s))).

(** [s.startsWith(p)]. *)
Definition startsWith (p s : string) : bool := String.prefix p s.

(** [s.includes(p)]. *)
Fixpoint includes (p s : string) : bool :=
  (String.prefix p s ||
   match s with
   | EmptyString => false
   | String _ rest => includes p rest
   end)%bool.

Definition to_lower (c : ascii) : ascii :=
  let n := nat_of_ascii c in
  if (Nat.leb 65 n && Nat.leb n 90)%bool then ascii_of_nat (n + 32) else c.

(** [s.toLowerCase()]. *)
Fixpoint toLowerCase (s : string) : string :=
  match s with
  | EmptyString => EmptyString
  | String c rest => String (to_lower c) (toLowerCase rest)
  end.

(** The part of [s] after the last character satisfying [sep], or all of
    [s]: with [cur] the segment being read. *)
Fixpoint last_segment (sep : ascii -> bool) (cur s : string) : string :=
  match s with
  | EmptyString => rev_string "" cur
  | String c rest =>
      if sep c then last_segment sep "" rest else last_segment sep (String c cur) rest
  end.

(** The part of [s] before the first character satisfying [sep]. *)
Fixpoint first_segment (sep : ascii -> bool) (s : string) : string :=
  match s with
  | EmptyString => EmptyString
  | String c rest => if sep c then EmptyString else String c (first_segment sep rest)
  end.

Definition is_slash (c : ascii) : bool :=
  (Ascii.eqb c "/" || Ascii.eqb c "\")%bool.

(** [s.split(/[/\\]/).pop()]. *)
Definition last_path_segment (s : string) : string := last_segment is_slash "" s.

(** [s.replace(/\\/g, '/')]. *)
Fixpoint backslashes_to_slashes (s : string) : string :=
  match s with
  | EmptyString => EmptyString
  | String c rest =>
      String (if Ascii.eqb c "\" then "/"%char else c) (backslashes_to_slashes rest)
  end.

Definition starts_with_slash (s : string) : bool :=
  match s with
  | String b _ => Ascii.eqb b "/"
  | EmptyString => false
  end.

(** [s.replace(/\/+/g, '/')]. *)
Fixpoint collapse_slashes (s : string) : string :=
  match s with
  | EmptyString => EmptyString
  | String c rest =>
      if Ascii.eqb c "/"
      then match rest with
           | String "/" _ => collapse_slashes rest
           | _ => String c (collapse_slashes rest)
           end
      else String c (collapse_slashes rest)
  end.

(** [s.replace(/-/g, '')]. *)
Fixpoint remove_dashes (s : string) : string :=
  match s with
  | EmptyString => EmptyString
  | String c rest =>
      if Ascii.eqb c "-" then remove_dashes rest else String c (remove_dashes rest)
  end.

Definition to_upper (c : ascii) : ascii :=
  let n := nat_of_ascii c in
  if (Nat.leb 97 n && Nat.leb n 122)%bool then ascii_of_nat (n - 32) else c.

(** [s.toUpperCase()], on the letters of ASCII. *)
Fixpoint toUpperCase (s : string) : string :=
  match s with
  | EmptyString => EmptyString
  | String c rest => String (to_upper c) (toUpperCase rest)
  end.

(** [s.split(sep)] for a separator of one character: the parts between the
    separators, at least one. *)
Fixpoint split (sep : ascii) (s : string) : list string :=
  match s with
  | EmptyString => [EmptyString]
  | String c rest =>
      if Ascii.eqb c sep then EmptyString :: split sep rest
      else
        match split sep rest with
        | part :: parts => String c part :: parts
        | [] => [String c EmptyString]
        end
  end.

(** [parts.join(sep)]. *)
Fixpoint join (sep : string) (parts : list string) : string :=
  match parts with
  | [] => ""
  | part :: rest =>
      match rest with
      | [] => part
      | _ :: _ => part +:+ sep +:+ join sep rest
      end
  end.

(** Whether the character [c] occurs in [s]. *)
Fixpoint has_char (c : ascii) (s : string) : bool :=
  match s with
  | EmptyString => false
  | String a rest => (Ascii.eqb a c || has_char c rest)%bool
  end.

(** [s.slice(n)] for [0 <= n]. *)
Fixpoint slice_from (n : nat) (s : string) : string :=
  match n, s with
  | O, _ => s
  | S m, String _ rest => slice_from m rest
  | S _, EmptyString => EmptyString
  end.

(** [s.replace(pattern, replacement)] for a pattern that is a string, not
    empty, and a replacement without [$]: the first occurrence is replaced. *)
Fixpoint replace (pattern replacement s : string) : string :=
  if String.prefix pattern s
  then replacement +:+ slice_from (String.length pattern) s
  else
    match s with
    | EmptyString => EmptyString
    | String c rest => String c (replace pattern replacement rest)
    end.

(** [a.findIndex(p)]: the first index whose element satisfies [p], or -1. *)
Fixpoint findIndex {A : Type} (p : A -> bool) (a : list A) : Z :=
  match a with
  | [] => -1
  | x :: rest =>
      if p x then 0
      else let r := findIndex p rest in if Z.ltb r 0 then -1 else r + 1
  end.

End Js.

(** ** The builtin media manifest *)

Module Data.

Inductive MediaType : Type := image | video.

(** An entry of the manifest [homeBannerMedia]. *)
Record BannerMedia : Type := {
  fileName : string;
  name : string;
  type : MediaType;
}.

End Data.

(** ** The settings migration *)

Module Migration.
Import Js Data.

(** The state a migration step runs in: the content of the storage adapter,
    the calls of [storage.set] made so far (oldest first) and the number of
    UUIDs the platform has handed out. *)
Record World : Type := {
  store : gmap string JsValue;
  written : list (string * JsValue);
  uuids : nat;
}.

Inductive Outcome (A : Type) : Type :=
| Returned (a : A) (w : World)
| Thrown (w : World).
Arguments Returned {A} a w.
Arguments Thrown {A} w.

Definition Async (A : Type) : Type := World -> Outcome A.

#[global] Instance Async_ret : MRet Async := fun A a w => Returned a w.

#[global] Instance Async_bind : MBind Async := fun A B f m w =>
  match m w with
  | Returned a w' => f a w'
  | Thrown w' => Thrown w'
  end.

(** [throw new TypeError(...)]. *)
Definition throwTypeError {A : Type} : Async A := fun w => Thrown w.

(** Modelled from the spec: the storage adapter ([StorageAdapter] of
    [schema-utils], which is not among the sources) is a persisted key-value
    store with [get] and [set] on dot-delimited key paths; [get] of a path
    that holds nothing is [undefined].  The paths the migration uses are
    pairwise unrelated, so each is a key of its own. *)
Definition storage_get (path : string) : Async (option JsValue) :=
  fun w => Returned (store w !! path) w.

Definition storage_set (path : string) (value : JsValue) : Async unit :=
  fun w => Returned tt {| store := <[path := value]> (store w);
                          written := (written w ++ [(path, value)])%list;
                          uuids := uuids w |}.

Fixpoint mapM {A B : Type} (f : A -> Async B) (l : list A) : Async (list B) :=
  match l with
  | [] => mret []
  | x :: rest => y ← f x; ys ← mapM f rest; mret (y :: ys)
  end.

Fixpoint forM_ {A : Type} (l : list A) (f : A -> Async unit) : Async unit :=
  match l with
  | [] => mret tt
  | x :: rest => f x;; forM_ rest f
  end.

(** What one turn of the loop over [Object.entries(positionsValue)] does to
    [migratedPositions]: nothing ([continue], or no branch taken), one
    assignment [migratedPositions[key] = value], or a [TypeError]. *)
Inductive Turn : Type :=
| Skip
| Assign (key : string) (value : JsValue)
| TypeError.

Section WithManifest.

(** The exports of [@/data/home-banner-media] and the platform's
    [crypto.randomUUID], the [n]-th call of which returns [randomUUID n]. *)
Variable homeBannerMedia : list BannerMedia.
Variable DEFAULT_HOME_BANNER_FILE_NAME : string.
Variable randomUUID : nat -> string.

Definition USER_SETTINGS_SCHEMA_VERSION : Z := 5.

Definition generateShortId : Async string :=
  fun w => Returned (substring 0 8 (remove_dashes (randomUUID (uuids w))))
                    {| store := store w; written := written w; uuids := S (uuids w) |}.

(** *** 1 to 2 *)

Definition migrate_1_to_2 : Async unit :=
  oldSystemIconsValue ← storage_get "navigator.useSystemIcons";
  let oldSystemIcons :=
    match oldSystemIconsValue with Some (JBool b) => Some b | _ => None end in
  hasDirectoriesValue ← storage_get "navigator.useSystemIconsForDirectories";
  hasFilesValue ← storage_get "navigator.useSystemIconsForFiles";
  let directoriesAlreadySet := is_boolean hasDirectoriesValue in
  let filesAlreadySet := is_boolean hasFilesValue in
  match oldSystemIcons with
  | Some b =>
      if negb directoriesAlreadySet
      then storage_set "navigator.useSystemIconsForDirectories" (JBool b)
      else mret tt
  | None => mret tt
  end;;
  match oldSystemIcons with
  | Some b =>
      if negb filesAlreadySet
      then storage_set "navigator.useSystemIconsForFiles" (JBool b)
      else mret tt
  | None => mret tt
  end.

(** *** 2 to 3 *)

(** [typeof customMediaValue[0] === 'string'] with a non-empty array. *)
Definition isLegacyFormat (customMediaValue : list JsValue) : bool :=
  match customMediaValue with
  | JStr _ :: _ => true
  | _ => false
  end.

(** [position && typeof position === 'object']. *)
Definition is_position_object (position : JsValue) : bool :=
  (truthy (Some position) && typeof_object (Some position))%bool.

Definition number_or (v : option JsValue) (default : Z) : JsValue :=
  match v with
  | Some (JNum n) => JNum n
  | _ => JNum default
  end.

Definition validPosition (position : JsValue) : JsValue :=
  JObj [("positionX", number_or (js_prop position "positionX") 50);
        ("positionY", number_or (js_prop position "positionY") 50);
        ("zoom", number_or (js_prop position "zoom") 100)].

Definition migrate_position_entry (migratedCustom : list JsValue)
    (key : string) (position : JsValue) : Turn :=
  if negb (is_position_object position) then Skip
  else
    match parseInt key with
    | None => Assign key position
    | Some index =>
        if index <? Z.of_nat (length migratedCustom) then
          match arr_at migratedCustom index with
          | None | Some JNull => TypeError
          | Some entry =>
              Assign (to_property_key (js_prop entry "id")) (validPosition position)
          end
        else
          let builtinIndex := index - Z.of_nat (length migratedCustom) in
          if (0 <=? builtinIndex) && (builtinIndex <? Z.of_nat (length homeBannerMedia)) then
            match arr_at homeBannerMedia builtinIndex with
            | Some media => Assign (fileName media) (validPosition position)
            | None => TypeError
            end
          else Skip
    end.

(** The loop, from the entries still to visit and [migratedPositions] as
    built so far; [None] when a turn throws. *)
Fixpoint migrate_positions (migratedCustom : list JsValue)
    (todo : list (string * JsValue)) (migratedPositions : list (string * JsValue))
  : option (list (string * JsValue)) :=
  match todo with
  | [] => Some migratedPositions
  | (key, position) :: rest =>
      match migrate_position_entry migratedCustom key position with
      | Skip => migrate_positions migratedCustom rest migratedPositions
      | Assign k v => migrate_positions migratedCustom rest (obj_assign k v migratedPositions)
      | TypeError => None
      end
  end.

(** [positionsValue && typeof positionsValue === 'object' &&
    Object.keys(positionsValue).some((key) => /^\d+$/.test(key))]. *)
Definition hasNumericKeys (positionsValue : option JsValue) : bool :=
  match positionsValue with
  | Some v =>
      (truthy positionsValue && typeof_object positionsValue
       && existsb (fun kv => matches_digits (fst kv)) (entries v))%bool
  | None => false
  end.

Definition migrate_custom_media : Async (list JsValue) :=
  customMediaValue ← storage_get "homeBannerCustomMedia";
  match customMediaValue with
  | Some (JArr items) =>
      if isLegacyFormat items then
        migratedCustom ← mapM (fun path =>
                                 id ← generateShortId;
                                 mret (JObj [("path", path); ("id", JStr id)])) items;
        storage_set "homeBannerCustomMedia" (JArr migratedCustom);;
        mret migratedCustom
      else mret items
  | _ => mret []
  end.

Definition migrate_2_to_3 : Async unit :=
  migratedCustom ← migrate_custom_media;
  positionsValue ← storage_get "homeBannerPositions";
  match positionsValue with
  | Some v =>
      if hasNumericKeys positionsValue then
        match migrate_positions migratedCustom (entries v) [] with
        | Some migratedPositions =>
            storage_set "homeBannerPositions" (JObj migratedPositions)
        | None => throwTypeError
        end
      else mret tt
  | None => mret tt
  end.

(** *** 3 to 4 *)

(** [!mediaIdValue || typeof mediaIdValue !== 'string' ||
    mediaIdValue.trim() === '']. *)
Definition mediaId_missing (mediaIdValue : option JsValue) : bool :=
  (negb (truthy mediaIdValue) || negb (is_string mediaIdValue)
   || match mediaIdValue with
      | Some (JStr s) => String.eqb (trim s) ""
      | _ => false
      end)%bool.

Definition resolve_legacy_index (customMediaValue indexValue : option JsValue) : JsValue :=
  let customCount :=
    match customMediaValue with
    | Some (JArr items) => Z.of_nat (length items)
    | _ => 0
    end in
  let rawIndex := match indexValue with Some (JNum n) => n | _ => 0 end in
  let totalCount := customCount + Z.of_nat (length homeBannerMedia) in
  if (0 <? totalCount) && (0 <=? rawIndex) && (rawIndex <? totalCount) then
    if rawIndex <? customCount then
      let entry :=
        match customMediaValue with
        | Some (JArr items) => arr_at items rawIndex
        | _ => None
        end in
      match entry with
      | Some e =>
          if (truthy entry && typeof_object entry && truthy (js_prop e "id"))%bool
          then match js_prop e "id" with
               | Some id => id
               | None => JStr DEFAULT_HOME_BANNER_FILE_NAME
               end
          else JStr DEFAULT_HOME_BANNER_FILE_NAME
      | None => JStr DEFAULT_HOME_BANNER_FILE_NAME
      end
    else
      let builtinIndex := rawIndex - customCount in
      match arr_at homeBannerMedia builtinIndex with
      | Some media => JStr (fileName media)
      | None => JStr DEFAULT_HOME_BANNER_FILE_NAME
      end
  else JStr DEFAULT_HOME_BANNER_FILE_NAME.

Definition migrate_3_to_4 : Async unit :=
  mediaIdValue ← storage_get "homeBannerMediaId";
  indexValue ← storage_get "homeBannerIndex";
  if mediaId_missing mediaIdValue then
    customMediaValue ← storage_get "homeBannerCustomMedia";
    storage_set "homeBannerMediaId" (resolve_legacy_index customMediaValue indexValue)
  else mret tt.

(** *** 4 to 5 *)

Definition infusionPageKeys : list string :=
  ["global"; "home"; "navigator"; "dashboard"; "settings"; "extensions"].

Definition background_key (pageKey : string) : string :=
  "infusion.pages." +:+ pageKey +:+ ".background".

(** [background && typeof background === 'object' && !background.mediaId
    && typeof background.index === 'number']. *)
Definition needs_mediaId (background : option JsValue) : bool :=
  match background with
  | Some b =>
      (truthy background && typeof_object background
       && negb (truthy (js_prop b "mediaId")) && is_number (js_prop b "index"))%bool
  | None => false
  end.

(** The descriptor to store in place of [background], if any:
    [{ ...background, mediaId: media.fileName }] when the condition holds and
    [homeBannerMedia[background.index]] is an entry. *)
Definition background_with_mediaId (background : option JsValue) : option JsValue :=
  match background with
  | Some b =>
      if needs_mediaId background then
        match js_prop b "index" with
        | Some (JNum builtinIndex) =>
            match arr_at homeBannerMedia builtinIndex with
            | Some media =>
                Some (JObj (obj_set "mediaId" (JStr (fileName media)) (entries b)))
            | None => None
            end
        | _ => None
        end
      else None
  | None => None
  end.

Definition migrate_background (pageKey : string) : Async unit :=
  let storageKey := background_key pageKey in
  background ← storage_get storageKey;
  match background_with_mediaId background with
  | Some updated => storage_set storageKey updated
  | None => mret tt
  end.

Definition migrate_4_to_5 : Async unit := forM_ infusionPageKeys migrate_background.

(** *** The step function *)

Definition migrateUserSettingsStep (fromVersion toVersion : Z) : Async unit :=
  if (fromVersion =? 0) && (toVersion =? 1) then mret tt
  else if (fromVersion =? 1) && (toVersion =? 2) then migrate_1_to_2
  else
    (if (fromVersion =? 2) && (toVersion =? 3) then migrate_2_to_3 else mret tt);;
    (if (fromVersion =? 3) && (toVersion =? 4) then migrate_3_to_4 else mret tt);;
    (if (fromVersion =? 4) && (toVersion =? 5) then migrate_4_to_5 else mret tt).

End WithManifest.

End Migration.

(** ** The home-banner media catalog *)

Module Catalog.
Import Js Data.

(** An element of the setting [homeBannerCustomMedia]. *)
Record HomeBannerCustomMediaItem : Type := {
  path : string;
  id : string;
}.

Record HomeBannerPosition : Type := {
  positionX : Z;
  positionY : Z;
  zoom : Z;
}.

(** The part of the in-memory [userSettings] the composable reads.  A
    setting that is [undefined] (for [homeBannerMediaId]: not a string) is
    [None]. *)
Record UserSettings : Type := {
  homeBannerCustomMedia : option (list HomeBannerCustomMediaItem);
  homeBannerMediaId : option string;
  homeBannerIndex : option Z;
  homeBannerPositions : option (gmap string HomeBannerPosition);
}.

(** A key of the settings together with a value for it. *)
Inductive Setting : Type :=
| SetHomeBannerCustomMedia (value : list HomeBannerCustomMediaItem)
| SetHomeBannerMediaId (value : string)
| SetHomeBannerIndex (value : Z)
| SetHomeBannerPositions (value : gmap string HomeBannerPosition).

(** The settings store as the composable sees it: the in-memory settings,
    the calls of [userSettingsStore.set] made so far (oldest first) and the
    number of UUIDs the platform has handed out. *)
Record SettingsStore : Type := {
  userSettings : UserSettings;
  saved : list Setting;
  uuids : nat;
}.

Definition put (s : Setting) (u : UserSettings) : UserSettings :=
  match s with
  | SetHomeBannerCustomMedia v =>
      {| homeBannerCustomMedia := Some v;
         homeBannerMediaId := homeBannerMediaId u;
         homeBannerIndex := homeBannerIndex u;
         homeBannerPositions := homeBannerPositions u |}
  | SetHomeBannerMediaId v =>
      {| homeBannerCustomMedia := homeBannerCustomMedia u;
         homeBannerMediaId := Some v;
         homeBannerIndex := homeBannerIndex u;
         homeBannerPositions := homeBannerPositions u |}
  | SetHomeBannerIndex v =>
      {| homeBannerCustomMedia := homeBannerCustomMedia u;
         homeBannerMediaId := homeBannerMediaId u;
         homeBannerIndex := Some v;
         homeBannerPositions := homeBannerPositions u |}
  | SetHomeBannerPositions v =>
      {| homeBannerCustomMedia := homeBannerCustomMedia u;
         homeBannerMediaId := homeBannerMediaId u;
         homeBannerIndex := homeBannerIndex u;
         homeBannerPositions := Some v |}
  end.

(** Modelled from the spec: [userSettingsStore.set] (of
    [stores/storage/user-settings], which is not among the sources) runs
    against the in-memory representation of the settings and persists the
    value: once the call has been awaited, the settings hold the value under
    the key.  The components that bind a control to a setting through [set]
    alone rely on it. *)
Definition userSettingsStore_set (s : Setting) (st : SettingsStore) : SettingsStore :=
  {| userSettings := put s (userSettings st);
     saved := (saved st ++ [s])%list;
     uuids := uuids st |}.

Inductive MediaItem : Type :=
| builtin (index : Z) (data : BannerMedia)
| custom (index : Z) (item_path item_id item_fileName : string) (item_type : MediaType).

(** The outcome of an [async] function that can throw. *)
Inductive Outcome : Type :=
| Returned (st : SettingsStore)
| Thrown (st : SettingsStore).

(** The result of the [copy_items] command. *)
Record CopyResult : Type := {
  success : bool;
  error : option string;
}.

(** The descriptor [background] of an infusion page. *)
Record Background : Type := {
  background_index : option Z;
  background_mediaId : option string;
}.

(** The part of [s] after the last character satisfying [sep], if any. *)
Fixpoint after_last (sep : ascii -> bool) (s : string) : option string :=
  match s with
  | EmptyString => None
  | String c rest =>
      match after_last sep rest with
      | Some t => Some t
      | None => if sep c then Some rest else None
      end
  end.

Definition isUrl (value : string) : bool :=
  (startsWith "http://" value || startsWith "https://" value)%bool.

Definition isVideoExtension (ext : string) : bool :=
  existsb (String.eqb ext) ["mp4"; "webm"; "ogg"; "mov"; "avi"; "mkv"].

Section WithPlatform.

(** The exports of [@/data/home-banner-media]. *)
Variable homeBannerMedia : list BannerMedia.
Variable DEFAULT_HOME_BANNER_FILE_NAME : string.
Variable DEFAULT_INFUSION_BACKGROUND_FILE_NAME : string.

(** What the platform provides: [crypto.randomUUID] (its [n]-th result),
    [new URL(s).pathname] ([None] when the constructor throws),
    [convertFileSrc], the two asset maps of [import.meta.glob], the
    configured media directory, and the results of the two commands run
    through [invoke] ([None] when the promise is rejected). *)
Variable randomUUID : nat -> string.
Variable url_pathname : string -> option string.
Variable convertFileSrc : string -> string.
Variable builtinBannerImages : list (string * string).
Variable builtinBannerVideos : list (string * string).
Variable appStorageHomeBannerMediaPath : option string.
Variable ensure_directory : string -> option unit.
Variable copy_items : list string -> string -> option CopyResult.

Definition generateShortId (st : SettingsStore) : string * SettingsStore :=
  (substring 0 8 (remove_dashes (randomUUID (uuids st))),
   {| userSettings := userSettings st; saved := saved st; uuids := S (uuids st) |}).

Definition getExtension (pathOrUrl : string) : string :=
  let cleanPath :=
    if isUrl pathOrUrl then
      match url_pathname pathOrUrl with
      | Some pathname => pathname
      | None =>
          first_segment (Ascii.eqb "#") (first_segment (Ascii.eqb "?") pathOrUrl)
      end
    else pathOrUrl in
  match after_last (Ascii.eqb ".") cleanPath with
  | Some ext => toLowerCase ext
  | None => ""
  end.

Definition customItems (u : UserSettings) : list HomeBannerCustomMediaItem :=
  match homeBannerCustomMedia u with
  | Some raw => raw
  | None => []
  end.

Definition builtinCount : Z := Z.of_nat (length homeBannerMedia).

Definition custom_item (index : nat) (entry : HomeBannerCustomMediaItem) : MediaItem :=
  let fileName := last_path_segment (path entry) in
  let ext := getExtension fileName in
  let type := if isVideoExtension ext then video else image in
  custom (Z.of_nat index) (path entry) (id entry) fileName type.

Definition builtin_item (index : nat) (data : BannerMedia) : MediaItem :=
  builtin (Z.of_nat index) data.

Definition allMediaItems (u : UserSettings) : list MediaItem :=
  (imap custom_item (customItems u) ++ imap builtin_item homeBannerMedia)%list.

Definition totalCount (u : UserSettings) : Z :=
  Z.of_nat (length (customItems u)) + builtinCount.

Definition mediaId (u : UserSettings) : string :=
  match homeBannerMediaId u with
  | Some id => if negb (String.eqb (trim id) "") then id else DEFAULT_HOME_BANNER_FILE_NAME
  | None => DEFAULT_HOME_BANNER_FILE_NAME
  end.

Definition getPositionKey (item : MediaItem) : string :=
  match item with
  | builtin _ data => fileName data
  | custom _ _ item_id _ _ => item_id
  end.

Definition is_builtin_named (file : string) (item : MediaItem) : bool :=
  match item with
  | builtin _ data => String.eqb (fileName data) file
  | custom _ _ _ _ _ => false
  end.

Definition normalizedIndex (u : UserSettings) : Z :=
  let items := allMediaItems u in
  let targetId := mediaId u in
  match items with
  | [] => 0
  | _ :: _ =>
      let foundIndex := findIndex (fun item => String.eqb (getPositionKey item) targetId) items in
      if foundIndex >=? 0 then foundIndex
      else
        let defaultIndex := findIndex (is_builtin_named DEFAULT_HOME_BANNER_FILE_NAME) items in
        if defaultIndex >=? 0 then defaultIndex else 0
  end.

(** [None] is [null]. *)
Definition currentItem (u : UserSettings) : option MediaItem :=
  arr_at (allMediaItems u) (normalizedIndex u).

Definition getBuiltinMediaUrl (item : BannerMedia) : string :=
  let mediaMap :=
    match type item with video => builtinBannerVideos | image => builtinBannerImages end in
  match List.find (fun kv => includes (fileName item) (fst kv)) mediaMap with
  | Some (key, url) => if String.eqb key "" then "" else url
  | None => ""
  end.

Definition getItemDisplayName (item : MediaItem) : string :=
  match item with
  | builtin _ data => name data
  | custom _ _ _ item_fileName _ => item_fileName
  end.

Definition getMediaUrl (item : MediaItem) : string :=
  match item with
  | builtin _ data => getBuiltinMediaUrl data
  | custom _ item_path _ _ _ =>
      if isUrl item_path then item_path else convertFileSrc item_path
  end.

Definition selectMedia (index : Z) (st : SettingsStore) : SettingsStore :=
  match arr_at (allMediaItems (userSettings st)) index with
  | Some item =>
      userSettingsStore_set (SetHomeBannerIndex index)
        (userSettingsStore_set (SetHomeBannerMediaId (getPositionKey item)) st)
  | None => st
  end.

(** The entries for the copied files, each with an id of its own, in the
    order of the source paths. *)
Fixpoint new_entries (destDir : string) (sourcePaths : list string) (st : SettingsStore)
  : list HomeBannerCustomMediaItem * SettingsStore :=
  match sourcePaths with
  | [] => ([], st)
  | src :: rest =>
      let fileName := last_path_segment src in
      let path := collapse_slashes (backslashes_to_slashes destDir +:+ "/" +:+ fileName) in
      let '(newId, st1) := generateShortId st in
      let '(more, st2) := new_entries destDir rest st1 in
      ({| path := path; id := newId |} :: more, st2)
  end.

Definition addFilesFromPaths (sourcePaths : list string) (st : SettingsStore) : Outcome :=
  match sourcePaths with
  | [] => Returned st
  | _ :: _ =>
      match appStorageHomeBannerMediaPath with
      | None => Returned st
      | Some destDir =>
          if String.eqb destDir "" then Returned st
          else
            match ensure_directory destDir with
            | None => Thrown st
            | Some _ =>
                match copy_items sourcePaths destDir with
                | None => Thrown st
                | Some result =>
                    if (negb (success result)
                        && match error result with
                           | Some e => negb (String.eqb e "")
                           | None => false
                           end)%bool
                    then Thrown st
                    else
                      let '(newEntries, st1) := new_entries destDir sourcePaths st in
                      let currentCustom := customItems (userSettings st1) in
                      let updated := (currentCustom ++ newEntries)%list in
                      let st2 := userSettingsStore_set (SetHomeBannerCustomMedia updated) st1 in
                      let firstNewIndex := Z.of_nat (length currentCustom) in
                      match updated with
                      | [] =>
                          Returned
                            (userSettingsStore_set (SetHomeBannerIndex firstNewIndex)
                               (userSettingsStore_set
                                  (SetHomeBannerMediaId DEFAULT_HOME_BANNER_FILE_NAME) st2))
                      | _ :: _ =>
                          match arr_at updated firstNewIndex with
                          | Some newItem =>
                              Returned
                                (userSettingsStore_set (SetHomeBannerIndex firstNewIndex)
                                   (userSettingsStore_set (SetHomeBannerMediaId (id newItem)) st2))
                          | None => Thrown st2
                          end
                      end
                end
            end
      end
  end.

Definition addMediaUrl (url : string) (st : SettingsStore) : SettingsStore :=
  let trimmedUrl := trim url in
  if (String.eqb trimmedUrl "" || negb (isUrl trimmedUrl))%bool then st
  else
    let currentCustom := customItems (userSettings st) in
    let exists_ := existsb (fun entry => String.eqb (path entry) trimmedUrl) currentCustom in
    if exists_ then st
    else
      let '(newId, st1) := generateShortId st in
      let newEntry := {| path := trimmedUrl; id := newId |} in
      let updated := (currentCustom ++ [newEntry])%list in
      let st2 := userSettingsStore_set (SetHomeBannerCustomMedia updated) st1 in
      let newIndex := Z.of_nat (length currentCustom) in
      let newItemId :=
        match arr_at updated newIndex with
        | Some newItem => id newItem
        | None => DEFAULT_HOME_BANNER_FILE_NAME
        end in
      userSettingsStore_set (SetHomeBannerIndex newIndex)
        (userSettingsStore_set (SetHomeBannerMediaId newItemId) st2).

Definition is_custom_at (p : string) (item : MediaItem) : bool :=
  match item with
  | custom _ item_path _ _ _ => String.eqb item_path p
  | builtin _ _ => false
  end.

(** [normalizedIndex] and [allMediaItems] are computed properties of the
    settings: reading [.value] gives their value on the settings as they are
    at that moment, which here is after the filtered list has been set. *)
Definition removeCustomMedia (p : string) (st : SettingsStore) : SettingsStore :=
  let currentCustom := customItems (userSettings st) in
  let removedEntry := List.find (fun entry => String.eqb (path entry) p) currentCustom in
  let filtered := List.filter (fun entry => negb (String.eqb (path entry) p)) currentCustom in
  let st1 := userSettingsStore_set (SetHomeBannerCustomMedia filtered) st in
  let st2 :=
    match removedEntry, homeBannerPositions (userSettings st1) with
    | Some entry, Some saved_positions =>
        match saved_positions !! id entry with
        | Some _ =>
            userSettingsStore_set
              (SetHomeBannerPositions (delete (id entry) saved_positions)) st1
        | None => st1
        end
    | _, _ => st1
    end in
  let itemsAfter := Z.of_nat (length filtered) + builtinCount in
  let currentIdx := normalizedIndex (userSettings st2) in
  let itemsBefore := allMediaItems (userSettings st2) in
  let removeIdx := findIndex (is_custom_at p) itemsBefore in
  let newIndex :=
    if (removeIdx >=? 0) && (currentIdx >=? removeIdx) && (currentIdx >? 0)
    then Z.max 0 (currentIdx - 1)
    else currentIdx in
  let newIndex := Z.min (Z.max 0 newIndex) (itemsAfter - 1) in
  let resolvedMediaId :=
    if itemsAfter >? 0 then
      if newIndex <? Z.of_nat (length filtered) then
        match arr_at filtered newIndex with
        | Some entry => id entry
        | None => DEFAULT_HOME_BANNER_FILE_NAME
        end
      else
        match arr_at homeBannerMedia (newIndex - Z.of_nat (length filtered)) with
        | Some media => fileName media
        | None => DEFAULT_HOME_BANNER_FILE_NAME
        end
    else DEFAULT_HOME_BANNER_FILE_NAME in
  userSettingsStore_set (SetHomeBannerIndex newIndex)
    (userSettingsStore_set (SetHomeBannerMediaId resolvedMediaId) st2).

(** [getInfusionMediaFromBackground], which reads the catalog of the
    composable; the result is the pair of [url] and [type]. *)
Definition media_of (item : MediaItem) : string * MediaType :=
  (getMediaUrl item,
   match item with
   | builtin _ data => type data
   | custom _ _ _ _ item_type => item_type
   end).

Definition getInfusionMediaFromBackground (u : UserSettings) (background : Background)
  : string * MediaType :=
  let mediaId :=
    match background_mediaId background with
    | Some m => if negb (String.eqb (trim m) "") then m else DEFAULT_INFUSION_BACKGROUND_FILE_NAME
    | None => DEFAULT_INFUSION_BACKGROUND_FILE_NAME
    end in
  let items := allMediaItems u in
  match List.find (fun i => String.eqb (getPositionKey i) mediaId) items with
  | Some item => media_of item
  | None =>
      let fallback :=
        match List.find (is_builtin_named DEFAULT_INFUSION_BACKGROUND_FILE_NAME) items with
        | Some i => Some i
        | None => arr_at items 0
        end in
      match fallback with
      | Some item => media_of item
      | None => ("", image)
      end
  end.

End WithPlatform.

End Catalog.

(** ** The global shortcuts store *)

Module Shortcuts.
Import Js.

(** Modelled from the spec: the types [ShortcutKeys] and [GlobalShortcutId]
    of [@/types/user-settings], which is not among the sources.  The code
    tests a modifier of [ShortcutKeys] for truthiness only, so a modifier
    that is absent is [false]; the record of handlers in [getHandler] has
    the one key [launchApp]. *)
Record ShortcutKeys : Type := {
  ctrl : bool;
  alt : bool;
  shift : bool;
  meta : bool;
  key : string;
}.

Inductive GlobalShortcutId : Type := launchApp.

#[global] Instance GlobalShortcutId_eq_dec : EqDecision GlobalShortcutId :=
  fun x y => match x, y with launchApp, launchApp => left eq_refl end.

#[global] Instance GlobalShortcutId_countable : Countable GlobalShortcutId :=
  inj_countable' (fun _ : GlobalShortcutId => tt) (fun _ : unit => launchApp)
    (fun x => match x with launchApp => eq_refl end).

Record GlobalShortcutDefinition : Type := {
  id : GlobalShortcutId;
  labelKey : string;
  defaultShortcut : string;
}.

Definition DEFAULT_GLOBAL_SHORTCUTS : list GlobalShortcutDefinition :=
  [ {| id := launchApp;
       labelKey := "shortcuts.focusAppWindow";
       defaultShortcut := "Super+Shift+E" |} ].

(** The modifiers pushed to [parts], in the order of the four tests. *)
Definition modifier_parts (keys : ShortcutKeys) : list string :=
  ((if ctrl keys then ["Control"] else []) ++
   (if alt keys then ["Alt"] else []) ++
   (if meta keys then ["Super"] else []) ++
   (if shift keys then ["Shift"] else []))%list.

Definition key_name (k : string) : string :=
  if String.eqb k " " then "Space"
  else if Nat.eqb (String.length k) 1 then toUpperCase k
  else k.

Definition shortcutKeysToTauriFormat (keys : ShortcutKeys) : string :=
  join "+" (modifier_parts keys ++ [key_name (key keys)])%list.

(** One turn of the loop over the parts. *)
Definition read_part (keys : ShortcutKeys) (part : string) : ShortcutKeys :=
  if (String.eqb part "Control" || String.eqb part "CommandOrControl")%bool then
    {| ctrl := true; alt := alt keys; shift := shift keys; meta := meta keys; key := key keys |}
  else if String.eqb part "Alt" then
    {| ctrl := ctrl keys; alt := true; shift := shift keys; meta := meta keys; key := key keys |}
  else if String.eqb part "Shift" then
    {| ctrl := ctrl keys; alt := alt keys; shift := true; meta := meta keys; key := key keys |}
  else if String.eqb part "Super" then
    {| ctrl := ctrl keys; alt := alt keys; shift := shift keys; meta := true; key := key keys |}
  else
    {| ctrl := ctrl keys; alt := alt keys; shift := shift keys; meta := meta keys;
       key := if String.eqb part "Space" then " " else part |}.

Definition tauriFormatToShortcutKeys (shortcut : string) : ShortcutKeys :=
  fold_left read_part (split "+" shortcut)
    {| ctrl := false; alt := false; shift := false; meta := false; key := "" |}.

Definition formatTauriShortcut (shortcut : string) : string :=
  replace "Control" "Ctrl"
    (replace "CommandOrControl" "Ctrl"
       (replace "Windows" "Win"
          (replace "Super" "Win" shortcut))).

Definition normalizeShortcutString (shortcut : string) : string :=
  shortcutKeysToTauriFormat (tauriFormatToShortcutKeys shortcut).

(** A part that [tauriFormatToShortcutKeys] reads as the key itself: it
    holds no [+], and is none of the words read as a modifier or as the space
    bar. *)
Definition plain_key (k : string) : Prop :=
  has_char "+" k = false /\
  k ≠ "Control" /\ k ≠ "CommandOrControl" /\ k ≠ "Alt" /\ k ≠ "Shift" /\
  k ≠ "Super" /\ k ≠ "Space".

(** The handlers of [getHandler]. *)
Inductive Handler : Type := focusAppWindow.

Inductive Source : Type := system | user.

Section WithPlatform.

(** What the platform provides.  [P] is the state of the operating system's
    shortcut registry and tray; each command of the global-shortcut plugin
    and of [invoke] gives the state after it and whether its promise was
    fulfilled ([true]) or rejected ([false]). *)
Variable P : Type.
Variable unregister : string -> P -> bool * P.
Variable register : string -> Handler -> P -> bool * P.
Variable unregisterAll : P -> bool * P.
Variable update_tray_shortcut : string -> P -> bool * P.

(** The state of the store: the setting [userSettings.globalShortcuts]
    ([None] is [undefined]), the values passed to
    [setUserSettingsStorage('globalShortcuts', _)] so far (oldest first), the
    three refs of the store, and the platform. *)
Record Store : Type := {
  globalShortcuts : option (gmap GlobalShortcutId string);
  stored : list (gmap GlobalShortcutId string);
  definitions : list GlobalShortcutDefinition;
  registeredShortcuts : gmap GlobalShortcutId string;
  isInitialized : bool;
  platform : P;
}.

Definition with_platform (p : P) (s : Store) : Store :=
  {| globalShortcuts := globalShortcuts s;
     stored := stored s;
     definitions := definitions s;
     registeredShortcuts := registeredShortcuts s;
     isInitialized := isInitialized s;
     platform := p |}.

Definition with_registered (r : gmap GlobalShortcutId string) (s : Store) : Store :=
  {| globalShortcuts := globalShortcuts s;
     stored := stored s;
     definitions := definitions s;
     registeredShortcuts := r;
     isInitialized := isInitialized s;
     platform := platform s |}.

Definition with_initialized (b : bool) (s : Store) : Store :=
  {| globalShortcuts := globalShortcuts s;
     stored := stored s;
     definitions := definitions s;
     registeredShortcuts := registeredShortcuts s;
     isInitialized := b;
     platform := platform s |}.

(** The getter of the computed [userGlobalShortcuts]. *)
Definition userGlobalShortcuts (s : Store) : gmap GlobalShortcutId string :=
  match globalShortcuts s with
  | Some value => value
  | None => ∅
  end.

(** Its setter.  Modelled from the spec: [setUserSettingsStorage] (of
    [stores/storage/user-settings], which is not among the sources) persists
    the value under the key; the store does not wait for it. *)
Definition set_userGlobalShortcuts (value : gmap GlobalShortcutId string) (s : Store)
  : Store :=
  {| globalShortcuts := Some value;
     stored := (stored s ++ [value])%list;
     definitions := definitions s;
     registeredShortcuts := registeredShortcuts s;
     isInitialized := isInitialized s;
     platform := platform s |}.

Definition getShortcutString (globalShortcutId : GlobalShortcutId) (s : Store) : string :=
  let raw :=
    match userGlobalShortcuts s !! globalShortcutId with
    | Some userShortcut => userShortcut
    | None =>
        match List.find (fun d => bool_decide (id d = globalShortcutId)) (definitions s) with
        | Some d => defaultShortcut d
        | None => ""
        end
    end in
  if String.eqb raw "" then "" else normalizeShortcutString raw.

Definition getShortcutLabel (globalShortcutId : GlobalShortcutId) (s : Store) : string :=
  formatTauriShortcut (getShortcutString globalShortcutId s).

Definition getShortcutKeys (globalShortcutId : GlobalShortcutId) (s : Store)
  : ShortcutKeys :=
  tauriFormatToShortcutKeys (getShortcutString globalShortcutId s).

Definition isCustomized (globalShortcutId : GlobalShortcutId) (s : Store) : bool :=
  match userGlobalShortcuts s !! globalShortcutId with
  | Some _ => true
  | None => false
  end.

Definition getSource (globalShortcutId : GlobalShortcutId) (s : Store) : Source :=
  if isCustomized globalShortcutId s then user else system.

(** [None] is [null]. *)
Definition getHandler (globalShortcutId : GlobalShortcutId) : option Handler :=
  match globalShortcutId with
  | launchApp => Some focusAppWindow
  end.

Definition registerShortcut (globalShortcutId : GlobalShortcutId) (s : Store) : Store :=
  let shortcutString := getShortcutString globalShortcutId s in
  if String.eqb shortcutString "" then s
  else
    match getHandler globalShortcutId with
    | None => s
    | Some handler =>
        let '(_, p1) := unregister shortcutString (platform s) in
        let '(registered, p2) := register shortcutString handler p1 in
        if registered
        then with_registered (<[globalShortcutId := shortcutString]> (registeredShortcuts s))
               (with_platform p2 s)
        else with_platform p2 s
    end.

Definition unregisterShortcut (globalShortcutId : GlobalShortcutId) (s : Store) : Store :=
  match registeredShortcuts s !! globalShortcutId with
  | None => s
  | Some existingShortcut =>
      if String.eqb existingShortcut "" then s
      else
        let '(unregistered, p1) := unregister existingShortcut (platform s) in
        if unregistered
        then with_registered (delete globalShortcutId (registeredShortcuts s))
               (with_platform p1 s)
        else with_platform p1 s
  end.

Definition syncTrayShortcutHint (s : Store) : Store :=
  let shortcutLabel := getShortcutLabel launchApp s in
  let '(_, p1) := update_tray_shortcut shortcutLabel (platform s) in
  with_platform p1 s.

Definition setShortcut (globalShortcutId : GlobalShortcutId) (keys : ShortcutKeys)
    (s : Store) : Store :=
  let s1 := unregisterShortcut globalShortcutId s in
  let tauriShortcut := shortcutKeysToTauriFormat keys in
  let newShortcuts := <[globalShortcutId := tauriShortcut]> (userGlobalShortcuts s1) in
  let s2 := set_userGlobalShortcuts newShortcuts s1 in
  let s3 := registerShortcut globalShortcutId s2 in
  syncTrayShortcutHint s3.

Definition resetShortcut (globalShortcutId : GlobalShortcutId) (s : Store) : Store :=
  let s1 := unregisterShortcut globalShortcutId s in
  let newShortcuts := delete globalShortcutId (userGlobalShortcuts s1) in
  let s2 := set_userGlobalShortcuts newShortcuts s1 in
  let s3 := registerShortcut globalShortcutId s2 in
  syncTrayShortcutHint s3.

Definition registerAllShortcuts (s : Store) : Store :=
  fold_left (fun acc definition => registerShortcut (id definition) acc) (definitions s) s.

Definition unregisterAllShortcuts (s : Store) : Store :=
  let '(unregistered, p1) := unregisterAll (platform s) in
  if unregistered
  then with_registered ∅ (with_platform p1 s)
  else with_platform p1 s.

Definition init (s : Store) : Store :=
  if isInitialized s then s
  else syncTrayShortcutHint (registerAllShortcuts (with_initialized true s)).

Definition cleanup (s : Store) : Store :=
  with_initialized false (unregisterAllShortcuts s).

End WithPlatform.

End Shortcuts.

(** ** The background of the visual effects *)

Module VisualEffects.
Import Js Data Catalog.

(** Modelled from the spec: the type [InfusionPage] of
    [@/types/user-settings], which is not among the sources: the empty
    string, which stands for all pages, and the five pages of
    [pageSpecificOptions]. *)
Inductive InfusionPage : Type :=
| all_pages
| home
| navigator
| dashboard
| settings
| extensions.

(** The string a page is. *)
Definition page_value (page : InfusionPage) : string :=
  match page with
  | all_pages => ""
  | home => "home"
  | navigator => "navigator"
  | dashboard => "dashboard"
  | settings => "settings"
  | extensions => "extensions"
  end.

(** [a === b] on pages. *)
Definition same_page (a b : InfusionPage) : bool :=
  String.eqb (page_value a) (page_value b).

(** The descriptor [background] of a page; a property that is absent is
    [None]. *)
Record PageBackground : Type := {
  type : option MediaType;
  path : option string;
  index : option Z;
  mediaId : option string;
}.

(** The part of [userSettings.infusion] the component reads and writes for
    the background, [pages[page].background] being [backgrounds page]. *)
Record InfusionSettings : Type := {
  sameSettingsForAllPages : bool;
  selectedPageToCustomize : InfusionPage;
  backgrounds : InfusionPage -> PageBackground;
}.

(** The state the component works on: the infusion settings, the settings
    the catalog is computed from, and the calls of [setUserSettingsStorage]
    made so far (oldest first). *)
Record Settings : Type := {
  infusion : InfusionSettings;
  banner : UserSettings;
  stored : list (string * PageBackground);
}.

(** An element of [backgroundMediaOptions]. *)
Record MediaOption : Type := {
  name : string;
  value : string;
  item : MediaItem;
}.

(** What the renderer reads of a descriptor. *)
Definition rendered (background : PageBackground) : Background :=
  {| background_index := index background; background_mediaId := mediaId background |}.

Section WithManifest.

Variable homeBannerMedia : list BannerMedia.
Variable DEFAULT_INFUSION_BACKGROUND_FILE_NAME : string.
Variable url_pathname : string -> option string.

Definition effectivePageToCustomize (s : Settings) : InfusionPage :=
  if sameSettingsForAllPages (infusion s) then all_pages
  else
    let selected := selectedPageToCustomize (infusion s) in
    if same_page selected all_pages then home else selected.

(** The background of [currentPageSettings]. *)
Definition currentBackground (s : Settings) : PageBackground :=
  backgrounds (infusion s) (effectivePageToCustomize s).

Definition getStorageKeyForPage (page : InfusionPage) (property : string) : string :=
  let pageKey := if same_page page all_pages then "global" else page_value page in
  "infusion.pages." +:+ pageKey +:+ "." +:+ property.

Definition backgroundMediaOptions (s : Settings) : list MediaOption :=
  (fun i => {| name := getItemDisplayName i; value := getPositionKey i; item := i |})
    <$> allMediaItems homeBannerMedia url_pathname (banner s).

Definition getInfusionBackgroundMediaId (s : Settings) : string :=
  let background := currentBackground s in
  let legacy :=
    let builtinIndex := match index background with Some n => n | None => 0 end in
    match arr_at homeBannerMedia builtinIndex with
    | Some legacyMedia => fileName legacyMedia
    | None => DEFAULT_INFUSION_BACKGROUND_FILE_NAME
    end in
  match mediaId background with
  | Some m =>
      if (negb (String.eqb m "") && negb (String.eqb (trim m) ""))%bool then m else legacy
  | None => legacy
  end.

(** The getter of [selectedBackground]; [None] is [undefined]. *)
Definition selectedBackground (s : Settings) : option MediaOption :=
  let mediaId := getInfusionBackgroundMediaId s in
  match List.find (fun option => String.eqb (value option) mediaId) (backgroundMediaOptions s) with
  | Some option => Some option
  | None => arr_at (backgroundMediaOptions s) 0
  end.

(** Its setter, for an option that is not [undefined]. *)
Definition set_selectedBackground (option : MediaOption) (s : Settings) : Settings :=
  let page := effectivePageToCustomize s in
  let mediaItem := item option in
  let type :=
    match mediaItem with
    | builtin _ data => Data.type data
    | custom _ _ _ _ item_type => item_type
    end in
  let path :=
    match mediaItem with
    | builtin _ data => fileName data
    | custom _ item_path _ _ _ => item_path
    end in
  let found :=
    findIndex (fun opt => String.eqb (value opt) (value option)) (backgroundMediaOptions s) in
  let background :=
    {| type := Some type;
       path := Some path;
       index := Some (if found >=? 0 then found else 0);
       mediaId := Some (value option) |} in
  {| infusion :=
       {| sameSettingsForAllPages := sameSettingsForAllPages (infusion s);
          selectedPageToCustomize := selectedPageToCustomize (infusion s);
          backgrounds := fun p => if same_page p page then background
                                  else backgrounds (infusion s) p |};
     banner := banner s;
     stored := (stored s ++ [(getStorageKeyForPage page "background", background)])%list |}.

Definition selectNextBackground (s : Settings) : Settings :=
  let options := backgroundMediaOptions s in
  match options with
  | [] => s
  | _ :: _ =>
      let currentMediaId := getInfusionBackgroundMediaId s in
      let currentIdx := findIndex (fun opt => String.eqb (value opt) currentMediaId) options in
      let nextIdx :=
        Z.rem (if currentIdx >=? 0 then currentIdx + 1 else 0) (Z.of_nat (length options)) in
      match arr_at options nextIdx with
      | Some option => set_selectedBackground option s
      | None => s
      end
  end.

End WithManifest.

End VisualEffects.

(** ** Notions the properties are stated with *)

Module Persisted.
Import Js Data Migration.

(** The state an asynchronous function leaves, whether it returns or
    throws. *)
Definition world_after {A : Type} (o : Outcome A) : World :=
  match o with
  | Returned _ w => w
  | Thrown w => w
  end.

(** The key paths that occur as first argument of a [storage.set] in
    [migrateUserSettingsStep]. *)
Definition written_keys : list string :=
  ["navigator.useSystemIconsForDirectories";
   "navigator.useSystemIconsForFiles";
   "homeBannerCustomMedia";
   "homeBannerPositions";
   "homeBannerMediaId"] ++ (background_key <$> infusionPageKeys).

(** An asynchronous function that writes under the keys [K] at most: every
    other key holds afterwards what it held before, no key loses its
    binding, the calls of [storage.set] it adds are for keys of [K], and the
    UUIDs handed out are not taken back. *)
Definition writes_within (K : list string) {A : Type} (m : Async A) : Prop :=
  forall w,
    let w' := world_after (m w) in
    (forall k, k ∉ K -> store w' !! k = store w !! k) /\
    (forall k, is_Some (store w !! k) -> is_Some (store w' !! k)) /\
    (exists ws, written w' = (written w ++ ws)%list /\ forall kv, kv ∈ ws -> kv.1 ∈ K) /\
    (uuids w <= uuids w')%nat.

(** The value [JSON] keeps for a list of custom entries, each an object with
    the properties [path] and [id]. *)
Definition custom_media_json (l : list Catalog.HomeBannerCustomMediaItem) : JsValue :=
  JArr ((fun entry => JObj [("path", JStr (Catalog.path entry));
                            ("id", JStr (Catalog.id entry))]) <$> l).

(** The value [JSON] keeps for a background descriptor: the properties that
    are present, in the order [type], [path], [index], [mediaId]. *)
Definition background_json (b : VisualEffects.PageBackground) : JsValue :=
  JObj (match VisualEffects.type b with
        | Some image => [("type", JStr "image")]
        | Some video => [("type", JStr "video")]
        | None => []
        end ++
        match VisualEffects.path b with
        | Some p => [("path", JStr p)]
        | None => []
        end ++
        match VisualEffects.index b with
        | Some n => [("index", JNum n)]
        | None => []
        end ++
        match VisualEffects.mediaId b with
        | Some m => [("mediaId", JStr m)]
        | None => []
        end)%list.

End Persisted.

(** ** Concrete data *)

Module Samples.
Import Js Data.

(** A manifest of two entries, the second of which is the default. *)
Definition manifest : list BannerMedia :=
  [ {| fileName := "builtin1.jpg"; name := "First"; type := image |};
    {| fileName := "default.jpg"; name := "Default"; type := image |} ].

(** The manifest of scenario A of the specification. *)
Definition manifest_A : list BannerMedia :=
  [ {| fileName := "builtin1.jpg"; name := "First"; type := image |} ].

Definition default_file : string := "default.jpg".

(** A source of UUIDs whose first value starts with eight decimal digits. *)
Definition uuid_stream (n : nat) : string :=
  match n with
  | O => "12345678-90ab-4cde-8f01-23456789abcd"
  | _ => "abcdef01-2345-4678-9abc-def012345678"
  end.

Definition position (x y z : Z) : JsValue :=
  JObj [("positionX", JNum x); ("positionY", JNum y); ("zoom", JNum z)].

Definition world (bindings : list (string * JsValue)) : Migration.World :=
  {| Migration.store := list_to_map bindings; Migration.written := []; Migration.uuids := 0 |}.

(** Version 1: the legacy icon preference is set, one of the two new keys
    already holds the user's choice. *)
Definition world_icons : Migration.World :=
  world [("navigator.useSystemIcons", JBool true);
         ("navigator.useSystemIconsForFiles", JBool false)].

(** Version 2, scenario A of the specification. *)
Definition world_A : Migration.World :=
  world [("homeBannerCustomMedia", JArr [JStr "/a.jpg"; JStr "/b.jpg"]);
         ("homeBannerPositions",
          JObj [("0", position 10 20 100); ("2", position 50 50 100)])].

(** Version 2: one legacy custom file with a saved position. *)
Definition world_legacy : Migration.World :=
  world [("homeBannerCustomMedia", JArr [JStr "/a.jpg"]);
         ("homeBannerPositions", JObj [("0", position 10 20 100)])].

(** [world_legacy] after the step from 2 to 3 has run once, with
    [uuid_stream]: the file has the id [12345678] and its position is saved
    under that id. *)
Definition world_legacy_once : Migration.World :=
  {| Migration.store :=
       list_to_map
         [("homeBannerCustomMedia",
           JArr [JObj [("path", JStr "/a.jpg"); ("id", JStr "12345678")]]);
          ("homeBannerPositions", JObj [("12345678", position 10 20 100)])];
     Migration.written :=
       [("homeBannerCustomMedia",
         JArr [JObj [("path", JStr "/a.jpg"); ("id", JStr "12345678")]]);
        ("homeBannerPositions", JObj [("12345678", position 10 20 100)])];
     Migration.uuids := 1 |}.

(** [world_legacy] after the step from 2 to 3 has run twice: the position
    map is empty. *)
Definition world_legacy_twice : Migration.World :=
  {| Migration.store :=
       list_to_map
         [("homeBannerCustomMedia",
           JArr [JObj [("path", JStr "/a.jpg"); ("id", JStr "12345678")]]);
          ("homeBannerPositions", JObj [])];
     Migration.written :=
       [("homeBannerCustomMedia",
         JArr [JObj [("path", JStr "/a.jpg"); ("id", JStr "12345678")]]);
        ("homeBannerPositions", JObj [("12345678", position 10 20 100)]);
        ("homeBannerPositions", JObj [])];
     Migration.uuids := 1 |}.

(** Version 2: a position map with a legacy index key and a key that holds
    [null]. *)
Definition world_null_value : Migration.World :=
  world [("homeBannerPositions",
          JObj [("0", position 10 20 100); ("draft", JNull)])].

(** Version 2: a position map with a legacy index key and, under the id of
    a custom entry, a value whose [positionX] is no number. *)
Definition world_verbatim : Migration.World :=
  world [("homeBannerCustomMedia",
          JArr [JObj [("path", JStr "/a.jpg"); ("id", JStr "a1b2c3d4")]]);
         ("homeBannerPositions",
          JObj [("1", position 10 20 100);
                ("a1b2c3d4", JObj [("positionX", JStr "left"); ("positionY", JNum 20)])])].

(** Version 3, scenario B of the specification. *)
Definition world_B : Migration.World :=
  world [("homeBannerCustomMedia",
          JArr [JObj [("path", JStr "/a.jpg"); ("id", JStr "0a1b2c3d")]]);
         ("homeBannerIndex", JNum 1)].

(** Version 4: the home page points at the first builtin by index. *)
Definition world_pages : Migration.World :=
  world [("infusion.pages.home.background",
          JObj [("type", JStr "image"); ("path", JStr "builtin1.jpg"); ("index", JNum 0)]);
         ("infusion.pages.settings.background",
          JObj [("type", JStr "image"); ("index", JNum 1); ("mediaId", JStr "default.jpg")])].

(** *** The catalog *)

Definition url_pathname (url : string) : option string := None.

Definition convertFileSrc (filePath : string) : string := "asset://localhost/" +:+ filePath.

Definition builtinBannerImages : list (string * string) :=
  [("/src/assets/media/home-banner/builtin1.jpg", "/assets/builtin1-3f9a.jpg");
   ("/src/assets/media/home-banner/default.jpg", "/assets/default-77c0.jpg")].

Definition builtinBannerVideos : list (string * string) := [].

Definition media_directory : option string := Some "C:\data\banner".

Definition ensure_directory (directoryPath : string) : option unit := Some tt.

Definition copy_items (sourcePaths : list string) (destinationPath : string)
  : option Catalog.CopyResult :=
  Some {| Catalog.success := true; Catalog.error := None |}.

Definition settings_store (customMedia : list Catalog.HomeBannerCustomMediaItem)
    (selected : string) (index : Z) : Catalog.SettingsStore :=
  {| Catalog.userSettings :=
       {| Catalog.homeBannerCustomMedia := Some customMedia;
          Catalog.homeBannerMediaId := Some selected;
          Catalog.homeBannerIndex := Some index;
          Catalog.homeBannerPositions :=
            Some (list_to_map
                    [("aaaa1111", {| Catalog.positionX := 10; Catalog.positionY := 20;
                                     Catalog.zoom := 100 |});
                     ("bbbb2222", {| Catalog.positionX := 50; Catalog.positionY := 50;
                                     Catalog.zoom := 120 |})]) |};
     Catalog.saved := [];
     Catalog.uuids := 0 |}.

Definition item_a : Catalog.HomeBannerCustomMediaItem :=
  {| Catalog.path := "C:/data/banner/a.jpg"; Catalog.id := "aaaa1111" |}.

Definition item_b : Catalog.HomeBannerCustomMediaItem :=
  {| Catalog.path := "C:/data/banner/b.mp4"; Catalog.id := "bbbb2222" |}.

(** The same file added a second time: the same path under another id. *)
Definition item_a_again : Catalog.HomeBannerCustomMediaItem :=
  {| Catalog.path := "C:/data/banner/a.jpg"; Catalog.id := "cccc3333" |}.

(** Two custom entries, the second selected. *)
Definition store_two : Catalog.SettingsStore := settings_store [item_a; item_b] "bbbb2222" 1.

(** Three custom entries, the third selected. *)
Definition store_three : Catalog.SettingsStore :=
  settings_store [item_a; item_b; item_a_again] "cccc3333" 2.

(** One file added twice, the default builtin entry selected. *)
Definition store_twice : Catalog.SettingsStore :=
  settings_store [item_a; item_a_again] "default.jpg" 3.

(** One custom entry; the stored key belongs to an entry that is gone. *)
Definition store_stale : Catalog.SettingsStore := settings_store [item_a] "gone0000" 5.

(** No settings yet. *)
Definition store_empty : Catalog.SettingsStore :=
  {| Catalog.userSettings :=
       {| Catalog.homeBannerCustomMedia := None;
          Catalog.homeBannerMediaId := None;
          Catalog.homeBannerIndex := None;
          Catalog.homeBannerPositions := None |};
     Catalog.saved := [];
     Catalog.uuids := 0 |}.

End Samples.

(** ** Sample shortcut stores *)

Module ShortcutSamples.
Import Js Shortcuts.

(** A platform that keeps the list of the registered shortcut strings and
    the hint of the tray; unregistering a shortcut that is not registered is
    rejected. *)
Record Desktop : Type := {
  registry : list string;
  tray : string;
}.

Definition unregister (shortcut : string) (d : Desktop) : bool * Desktop :=
  (existsb (String.eqb shortcut) (registry d),
   {| registry := List.filter (fun r => negb (String.eqb shortcut r)) (registry d);
      tray := tray d |}).

Definition register (shortcut : string) (h : Handler) (d : Desktop) : bool * Desktop :=
  (true, {| registry := shortcut :: registry d; tray := tray d |}).

Definition unregisterAll (d : Desktop) : bool * Desktop :=
  (true, {| registry := []; tray := tray d |}).

Definition update_tray_shortcut (label : string) (d : Desktop) : bool * Desktop :=
  (true, {| registry := registry d; tray := label |}).

(** The store as it is created. *)
Definition fresh_store : Store Desktop :=
  {| globalShortcuts := None;
     stored := [];
     definitions := DEFAULT_GLOBAL_SHORTCUTS;
     registeredShortcuts := ∅;
     isInitialized := false;
     platform := {| registry := []; tray := "" |} |}.

Definition ctrl_alt_k : ShortcutKeys :=
  {| ctrl := true; alt := true; shift := false; meta := false; key := "k" |}.

Definition shift_space : ShortcutKeys :=
  {| ctrl := false; alt := false; shift := true; meta := false; key := " " |}.

End ShortcutSamples.

(** ** Sample settings of the visual effects *)

Module EffectSamples.
Import Js Data VisualEffects.

Definition no_background : PageBackground :=
  {| type := None; path := None; index := None; mediaId := None |}.

(** A descriptor from before the ids: the second builtin entry by index. *)
Definition legacy_background : PageBackground :=
  {| type := Some image; path := Some "default.jpg"; index := Some 1; mediaId := None |}.

(** The settings page on the tab of the home page, whose background is the
    legacy descriptor; two custom entries in the catalog. *)
Definition home_settings : Settings :=
  {| infusion :=
       {| sameSettingsForAllPages := false;
          selectedPageToCustomize := home;
          backgrounds := fun page => if same_page page home then legacy_background
                                     else no_background |};
     banner := Catalog.userSettings Samples.store_two;
     stored := [] |}.

(** The option of the second custom entry. *)
Definition option_b : MediaOption :=
  {| name := "b.mp4";
     value := "bbbb2222";
     item := Catalog.custom 1 "C:/data/banner/b.mp4" "bbbb2222" "b.mp4" video |}.

(** Version 4: the home page points at the second builtin entry by index. *)
Definition world_home : Migration.World :=
  Samples.world [("infusion.pages.home.background", Persisted.background_json legacy_background)].

(** Version 2: a position under the key [-1] beside a legacy index key. *)
Definition world_negative : Migration.World :=
  Samples.world [("homeBannerPositions",
                  JObj [("0", Samples.position 10 20 100);
                        ("-1", Samples.position 50 50 100)])].

(** Version 3: the two custom entries of [Samples.store_two] and the legacy
    index of the second of them. *)
Definition world_two : Migration.World :=
  Samples.world [("homeBannerCustomMedia",
                  Persisted.custom_media_json [Samples.item_a; Samples.item_b]);
                 ("homeBannerIndex", JNum 1)].

(** Version 2: the same custom entries and index, with the positions of the
    two entries saved under their indices. *)
Definition world_saved : Migration.World :=
  Samples.world [("homeBannerCustomMedia",
                  Persisted.custom_media_json [Samples.item_a; Samples.item_b]);
                 ("homeBannerIndex", JNum 1);
                 ("homeBannerPositions",
                  JObj [("0", Samples.position 10 20 100);
                        ("1", Samples.position 30 40 120)])].

End EffectSamples.

(* ===================================================================== *)
(** * Part II: properties                                                 *)
(* ===================================================================== *)

(** ** Property lists *)

Section PropertyLists.
Import Js.

Lemma eqb_string_refl (k : string) : String.eqb k k = true.
Proof. apply String.eqb_refl. Qed.

Lemma eqb_string_ne (k k' : string) : k ≠ k' -> String.eqb k k' = false.
Proof. intros H. apply String.eqb_neq. exact H. Qed.

Lemma obj_get_set_eq (k : string) (v : JsValue) (fields : list (string * JsValue)) :
  obj_get k (obj_set k v fields) = Some v.
Proof.
  induction fields as [|[k' v'] rest IH]; simpl.
  - now rewrite eqb_string_refl.
  - destruct (String.eqb k k') eqn:E; simpl.
    + now rewrite eqb_string_refl.
    + now rewrite E.
Qed.

Lemma obj_get_set_ne (k k' : string) (v : JsValue) (fields : list (string * JsValue)) :
  k ≠ k' -> obj_get k' (obj_set k v fields) = obj_get k' fields.
Proof.
  intros Hne. induction fields as [|[k0 v0] rest IH]; simpl.
  - rewrite eqb_string_ne by congruence. reflexivity.
  - destruct (String.eqb k k0) eqn:E; simpl.
    + apply String.eqb_eq in E. subst k0.
      rewrite !(eqb_string_ne k' k) by congruence. reflexivity.
    + destruct (String.eqb k' k0); [reflexivity | exact IH].
Qed.

Lemma obj_set_idem (k : string) (v : JsValue) (fields : list (string * JsValue)) :
  obj_set k v (obj_set k v fields) = obj_set k v fields.
Proof.
  induction fields as [|[k' v'] rest IH]; simpl.
  - now rewrite eqb_string_refl.
  - destruct (String.eqb k k') eqn:E; simpl.
    + now rewrite eqb_string_refl.
    + rewrite E. now rewrite IH.
Qed.

Lemma obj_get_assign_eq (k : string) (v : JsValue) (fields : list (string * JsValue)) :
  k ≠ "__proto__" -> obj_get k (obj_assign k v fields) = Some v.
Proof.
  intros H. unfold obj_assign. rewrite eqb_string_ne by exact H. apply obj_get_set_eq.
Qed.

Lemma obj_get_assign_ne (k k' : string) (v : JsValue) (fields : list (string * JsValue)) :
  k ≠ k' -> obj_get k' (obj_assign k v fields) = obj_get k' fields.
Proof.
  intros H. unfold obj_assign. destruct (String.eqb k "__proto__"); [reflexivity|].
  now apply obj_get_set_ne.
Qed.

End PropertyLists.

(** ** Running asynchronous code *)

Ltac run_async :=
  unfold Migration.migrateUserSettingsStep, mbind, Migration.Async_bind, mret,
    Migration.Async_ret, Migration.storage_get, Migration.storage_set,
    Migration.throwTypeError;
  simpl.

(** ** The step from 1 to 2 *)

Section Migration_1_to_2.
Import Js Data Migration.

Variable homeBannerMedia : list BannerMedia.
Variable DEFAULT_HOME_BANNER_FILE_NAME : string.
Variable randomUUID : nat -> string.

Local Abbreviation step :=
  (migrateUserSettingsStep homeBannerMedia DEFAULT_HOME_BANNER_FILE_NAME randomUUID).

(** C8.  The step from 1 to 2 returns.  When the legacy key
    [navigator.useSystemIcons] holds a boolean, each of the two destination
    keys is written with it exactly when that key does not hold a boolean
    yet (the directories key first) and no other key changes; when the
    legacy key is absent or holds something else, the step writes no key and
    leaves everything as it is. *)
Theorem migrate_1_to_2_renames (w : World) :
  exists w', step 1 2 w = Returned tt w' /\
    match store w !! "navigator.useSystemIcons" with
    | Some (JBool b) =>
        let directoriesValue := store w !! "navigator.useSystemIconsForDirectories" in
        let filesValue := store w !! "navigator.useSystemIconsForFiles" in
        written w' =
          (written w
           ++ (if is_boolean directoriesValue then []
               else [("navigator.useSystemIconsForDirectories", JBool b)])
           ++ (if is_boolean filesValue then []
               else [("navigator.useSystemIconsForFiles", JBool b)]))%list /\
        store w' !! "navigator.useSystemIconsForDirectories" =
          (if is_boolean directoriesValue then directoriesValue else Some (JBool b)) /\
        store w' !! "navigator.useSystemIconsForFiles" =
          (if is_boolean filesValue then filesValue else Some (JBool b)) /\
        (forall k, k ≠ "navigator.useSystemIconsForDirectories" ->
                   k ≠ "navigator.useSystemIconsForFiles" ->
                   store w' !! k = store w !! k)
    | _ => w' = w
    end.
Proof.
  run_async. unfold migrate_1_to_2. run_async.
  destruct w as [s wr n]; simpl.
  destruct (s !! "navigator.useSystemIcons") as [[| b | | | |]|] eqn:Hold; simpl;
    try (eexists; split; reflexivity).
  assert (Hne : "navigator.useSystemIconsForDirectories" ≠ "navigator.useSystemIconsForFiles")
    by discriminate.
  destruct (is_boolean (s !! "navigator.useSystemIconsForDirectories")) eqn:Hd;
    destruct (is_boolean (s !! "navigator.useSystemIconsForFiles")) eqn:Hf; simpl;
    (eexists; split; [reflexivity|]; simpl).
  - rewrite app_nil_r. repeat split; reflexivity.
  - repeat split.
    + now rewrite lookup_insert_ne.
    + now rewrite lookup_insert_eq.
    + intros k _ Hk. now rewrite lookup_insert_ne.
  - repeat split.
    + now rewrite lookup_insert_eq.
    + now rewrite lookup_insert_ne.
    + intros k Hk _. now rewrite lookup_insert_ne.
  - repeat split.
    + rewrite <- app_assoc. reflexivity.
    + rewrite lookup_insert_ne by congruence. now rewrite lookup_insert_eq.
    + now rewrite lookup_insert_eq.
    + intros k Hk1 Hk2. now rewrite !lookup_insert_ne by congruence.
Qed.

(** Applying the step from 1 to 2 again changes nothing. *)
Lemma migrate_1_to_2_idempotent (w w1 : World) :
  step 1 2 w = Returned tt w1 ->
  exists w2, step 1 2 w1 = Returned tt w2 /\ store w2 = store w1.
Proof.
  run_async. unfold migrate_1_to_2. run_async.
  destruct w as [s wr n]; simpl.
  assert (Hne : "navigator.useSystemIconsForDirectories" ≠ "navigator.useSystemIconsForFiles")
    by discriminate.
  destruct (s !! "navigator.useSystemIcons") as [[| b | | | |]|] eqn:Hold; simpl;
    try (intros [= <-]; simpl; rewrite Hold; eexists; split; reflexivity).
  destruct (is_boolean (s !! "navigator.useSystemIconsForDirectories")) eqn:Hd;
    destruct (is_boolean (s !! "navigator.useSystemIconsForFiles")) eqn:Hf; simpl;
    intros [= <-]; simpl;
    rewrite ?lookup_insert_eq, ?lookup_insert_ne, ?lookup_insert_eq by discriminate;
    rewrite ?Hold, ?Hd, ?Hf; simpl;
    eexists; (split; [reflexivity|]); reflexivity.
Qed.

End Migration_1_to_2.

(** The step run on a store at version 1 in which the files key is already
    set: only the directories key is written. *)
Lemma migrate_1_to_2_renames_witness :
  exists w',
    Migration.migrateUserSettingsStep Samples.manifest Samples.default_file
      Samples.uuid_stream 1 2 Samples.world_icons = Migration.Returned tt w' /\
    Migration.written w' = [("navigator.useSystemIconsForDirectories", Js.JBool true)].
Proof.
  destruct (migrate_1_to_2_renames Samples.manifest Samples.default_file
              Samples.uuid_stream Samples.world_icons) as (w' & E & P).
  exists w'. split; [exact E|].
  destruct P as (Hw & _). exact Hw.
Defined.

(** ** The step from 3 to 4 *)

Section Migration_3_to_4.
Import Js Data Migration.

Variable homeBannerMedia : list BannerMedia.
Variable DEFAULT_HOME_BANNER_FILE_NAME : string.
Variable randomUUID : nat -> string.

Local Abbreviation step :=
  (migrateUserSettingsStep homeBannerMedia DEFAULT_HOME_BANNER_FILE_NAME randomUUID).
Local Abbreviation resolve :=
  (resolve_legacy_index homeBannerMedia DEFAULT_HOME_BANNER_FILE_NAME).

Lemma arr_at_Some {A : Type} (a : list A) (i : Z) (x : A) :
  arr_at a i = Some x -> 0 <= i < Z.of_nat (length a).
Proof.
  unfold arr_at. destruct (Z.ltb_spec i 0) as [|Hi]; [discriminate|].
  intros H. apply lookup_lt_Some in H. lia.
Qed.

Lemma arr_at_in_range {A : Type} (a : list A) (i : Z) :
  0 <= i < Z.of_nat (length a) -> exists x, arr_at a i = Some x.
Proof.
  intros [H0 H1]. unfold arr_at. destruct (Z.ltb_spec i 0) as [|_]; [lia|].
  apply lookup_lt_is_Some_2. lia.
Qed.

Lemma arr_at_out_of_range {A : Type} (a : list A) (i : Z) :
  i < 0 \/ Z.of_nat (length a) <= i -> arr_at a i = None.
Proof.
  intros H. unfold arr_at. destruct (Z.ltb_spec i 0) as [|H0]; [reflexivity|].
  apply lookup_ge_None_2. lia.
Qed.

Lemma arr_at_of_nat {A : Type} (a : list A) (i : nat) : arr_at a (Z.of_nat i) = a !! i.
Proof.
  unfold arr_at. destruct (Z.ltb_spec (Z.of_nat i) 0) as [|_]; [lia|].
  now rewrite Nat2Z.id.
Qed.

Lemma mediaId_missing_iff (v : option JsValue) :
  mediaId_missing v = true <->
  match v with
  | Some (JStr s) => trim s = ""
  | _ => True
  end.
Proof.
  unfold mediaId_missing.
  destruct v as [[| b | n | s | l | f]|]; simpl; try (split; [trivial | reflexivity]).
  - destruct b; split; trivial.
  - rewrite orb_true_r. split; trivial.
  - destruct (String.eqb_spec s "") as [->|Hs]; simpl.
    + split; [reflexivity | trivial].
    + split; intros H; [now apply String.eqb_eq | now apply String.eqb_eq].
Qed.

(** C4.  When the stored [homeBannerMediaId] is absent, not a string, or
    blank after trimming, the step from 3 to 4 returns after writing
    [homeBannerMediaId], and nothing else.  With [index] the stored
    [homeBannerIndex], or 0 when that is not a number, the value written is:
    the id of the custom entry at [index] when there is one and it carries
    an id (the default file name when it carries none); the file name of the
    builtin entry at [index - customCount] when
    [customCount <= index < customCount + builtinCount]; the default file
    name when [index] is outside [0, customCount + builtinCount), which is
    every index when the catalog is empty. *)
Theorem migrate_3_to_4_derives_mediaId (w : World) :
  match store w !! "homeBannerMediaId" with
  | Some (JStr s) => trim s = ""
  | _ => True
  end ->
  let customCount :=
    match store w !! "homeBannerCustomMedia" with
    | Some (JArr items) => Z.of_nat (length items)
    | _ => 0
    end in
  let builtinCount := Z.of_nat (length homeBannerMedia) in
  let index := match store w !! "homeBannerIndex" with Some (JNum n) => n | _ => 0 end in
  exists resolved w',
    step 3 4 w = Returned tt w' /\
    store w' = <["homeBannerMediaId" := resolved]> (store w) /\
    written w' = (written w ++ [("homeBannerMediaId", resolved)])%list /\
    (forall items entry id,
        store w !! "homeBannerCustomMedia" = Some (JArr items) ->
        arr_at items index = Some entry ->
        js_prop entry "id" = Some id -> truthy (Some id) = true ->
        resolved = id) /\
    (forall items entry,
        store w !! "homeBannerCustomMedia" = Some (JArr items) ->
        arr_at items index = Some entry ->
        truthy (js_prop entry "id") = false ->
        resolved = JStr DEFAULT_HOME_BANNER_FILE_NAME) /\
    (customCount <= index < customCount + builtinCount ->
     exists media,
       arr_at homeBannerMedia (index - customCount) = Some media /\
       resolved = JStr (fileName media)) /\
    (index < 0 \/ customCount + builtinCount <= index ->
     resolved = JStr DEFAULT_HOME_BANNER_FILE_NAME).
Proof.
  intros Hmissing customCount builtinCount index.
  apply mediaId_missing_iff in Hmissing.
  exists (resolve (store w !! "homeBannerCustomMedia") (store w !! "homeBannerIndex")).
  eexists. split; [|split; [|split]].
  - run_async. unfold migrate_3_to_4. run_async. rewrite Hmissing. reflexivity.
  - reflexivity.
  - reflexivity.
  - unfold resolve_legacy_index.
    fold customCount builtinCount index.
    assert (Hc : 0 <= customCount).
    { unfold customCount. destruct (store w !! "homeBannerCustomMedia") as [[]|]; lia. }
    assert (Hb : 0 <= builtinCount) by (unfold builtinCount; lia).
    split; [|split; [|split]].
    + intros items entry id Hitems Hentry Hid Htruthy.
      pose proof (arr_at_Some _ _ _ Hentry) as Hrange.
      assert (customCount = Z.of_nat (length items)) as Hcc
        by (unfold customCount; now rewrite Hitems).
      rewrite Hitems, Hentry.
      assert ((0 <? customCount + builtinCount) && (0 <=? index)
              && (index <? customCount + builtinCount) = true) as -> by lia.
      assert ((index <? customCount) = true) as -> by lia.
      destruct entry; simpl in Hid; try discriminate.
      simpl. rewrite Hid, Htruthy. reflexivity.
    + intros items entry Hitems Hentry Hnone.
      pose proof (arr_at_Some _ _ _ Hentry) as Hrange.
      assert (customCount = Z.of_nat (length items)) as Hcc
        by (unfold customCount; now rewrite Hitems).
      rewrite Hitems, Hentry.
      assert ((0 <? customCount + builtinCount) && (0 <=? index)
              && (index <? customCount + builtinCount) = true) as -> by lia.
      assert ((index <? customCount) = true) as -> by lia.
      rewrite Hnone, andb_false_r. reflexivity.
    + intros Hrange.
      assert ((0 <? customCount + builtinCount) && (0 <=? index)
              && (index <? customCount + builtinCount) = true) as -> by lia.
      assert ((index <? customCount) = false) as -> by lia.
      destruct (arr_at_in_range homeBannerMedia (index - customCount)) as [media Hm].
      { fold builtinCount. lia. }
      exists media. rewrite Hm. split; reflexivity.
    + intros Hout.
      assert ((0 <? customCount + builtinCount) && (0 <=? index)
              && (index <? customCount + builtinCount) = false) as -> by lia.
      reflexivity.
Qed.

(** A stored [homeBannerMediaId] that is a string with something other than
    white space in it is kept: the step writes nothing. *)
Lemma migrate_3_to_4_keeps_mediaId (w : World) (s : string) :
  store w !! "homeBannerMediaId" = Some (JStr s) -> trim s ≠ "" ->
  step 3 4 w = Returned tt w.
Proof.
  intros Hs Ht. run_async. unfold migrate_3_to_4. run_async.
  destruct (mediaId_missing (store w !! "homeBannerMediaId")) eqn:E; [|reflexivity].
  apply mediaId_missing_iff in E. rewrite Hs in E. contradiction.
Qed.

(** Applying the step from 3 to 4 again changes nothing. *)
Lemma migrate_3_to_4_idempotent (w w1 : World) :
  step 3 4 w = Returned tt w1 ->
  exists w2, step 3 4 w1 = Returned tt w2 /\ store w2 = store w1.
Proof.
  run_async. unfold migrate_3_to_4. run_async.
  destruct (mediaId_missing (store w !! "homeBannerMediaId")) eqn:E.
  - intros [= <-]. simpl.
    destruct (mediaId_missing (<["homeBannerMediaId":=_]> (store w) !! "homeBannerMediaId"));
      eexists; (split; [reflexivity|]); simpl; [|reflexivity].
    rewrite !lookup_insert_ne by discriminate.
    apply insert_insert_eq.
  - intros [= <-]. rewrite E. eexists. split; reflexivity.
Qed.

End Migration_3_to_4.

(** Scenario B of the specification: one custom entry and the legacy index
    1, which is the first builtin entry. *)
Lemma migrate_3_to_4_derives_mediaId_witness :
  exists w',
    Migration.migrateUserSettingsStep Samples.manifest Samples.default_file
      Samples.uuid_stream 3 4 Samples.world_B = Migration.Returned tt w' /\
    Migration.store w' !! "homeBannerMediaId" = Some (Js.JStr "builtin1.jpg").
Proof.
  destruct (migrate_3_to_4_derives_mediaId Samples.manifest Samples.default_file
              Samples.uuid_stream Samples.world_B I)
    as (resolved & w' & E & Hstore & _ & _ & _ & Hbuiltin & _).
  exists w'. split; [exact E|].
  destruct Hbuiltin as (media & Hmedia & ->); [vm_compute; split; [discriminate | reflexivity]|].
  rewrite Hstore, lookup_insert_eq.
  vm_compute in Hmedia. injection Hmedia as <-. reflexivity.
Defined.

(** ** The step from 4 to 5 *)

Section Migration_4_to_5.
Import Js Data Migration.

Variable homeBannerMedia : list BannerMedia.
Variable DEFAULT_HOME_BANNER_FILE_NAME : string.
Variable randomUUID : nat -> string.

Local Abbreviation step :=
  (migrateUserSettingsStep homeBannerMedia DEFAULT_HOME_BANNER_FILE_NAME randomUUID).
Local Abbreviation with_mediaId := (background_with_mediaId homeBannerMedia).

Lemma forM_cons {A : Type} (x : A) (l : list A) (f : A -> Async unit) (w : World) :
  forM_ (x :: l) f w =
    match f x w with
    | Returned _ w' => forM_ l f w'
    | Thrown w' => Thrown w'
    end.
Proof. reflexivity. Qed.

Lemma migrate_background_run (pageKey : string) (w : World) :
  migrate_background homeBannerMedia pageKey w =
    match with_mediaId (store w !! background_key pageKey) with
    | Some updated =>
        Returned tt {| store := <[background_key pageKey := updated]> (store w);
                       written := (written w ++ [(background_key pageKey, updated)])%list;
                       uuids := uuids w |}
    | None => Returned tt w
    end.
Proof.
  unfold migrate_background. run_async.
  destruct (with_mediaId (store w !! background_key pageKey)); reflexivity.
Qed.

(** The writes of the loop over the page keys [pages], read off the store
    it starts from. *)
Lemma backgrounds_loop (pages : list string) :
  NoDup (background_key <$> pages) ->
  forall w, exists w',
    forM_ pages (migrate_background homeBannerMedia) w = Returned tt w' /\
    (forall pageKey, pageKey ∈ pages ->
       store w' !! background_key pageKey =
         match with_mediaId (store w !! background_key pageKey) with
         | Some updated => Some updated
         | None => store w !! background_key pageKey
         end) /\
    (forall k, (forall pageKey, pageKey ∈ pages -> k ≠ background_key pageKey) ->
       store w' !! k = store w !! k) /\
    exists ws, written w' = (written w ++ ws)%list /\
      forall k v, (k, v) ∈ ws ->
        exists pageKey, pageKey ∈ pages /\ k = background_key pageKey /\
                        with_mediaId (store w !! k) = Some v.
Proof.
  induction pages as [|p pages IH]; intros Hnd w.
  - exists w. split; [reflexivity|]. split; [intros ? H; inversion H|].
    split; [reflexivity|]. exists []. split; [now rewrite app_nil_r|].
    intros ? ? H. inversion H.
  - rewrite fmap_cons in Hnd. apply NoDup_cons in Hnd as [Hp Hnd].
    rewrite forM_cons, migrate_background_run.
    set (k0 := background_key p) in *.
    destruct (with_mediaId (store w !! k0)) as [updated|] eqn:Hupd.
    + destruct (IH Hnd {| store := <[k0:=updated]> (store w);
                          written := (written w ++ [(k0, updated)])%list;
                          uuids := uuids w |})
        as (w' & E & Hpages & Hframe & ws & Hws & Hin).
      simpl in *. exists w'. split; [exact E|].
      assert (Hother : forall q, q ∈ pages -> background_key q ≠ k0).
      { intros q Hq Heq. apply Hp. rewrite <- Heq. now apply list_elem_of_fmap_2. }
      split; [|split].
      * intros q Hq. apply elem_of_cons in Hq as [->|Hq].
        -- fold k0. rewrite Hframe.
           ++ rewrite lookup_insert_eq, Hupd. reflexivity.
           ++ intros q Hq Heq. now apply (Hother q Hq).
        -- rewrite (Hpages q Hq).
           rewrite lookup_insert_ne by (intros Heq; now apply (Hother q Hq)).
           reflexivity.
      * intros k Hk. rewrite Hframe.
        -- rewrite lookup_insert_ne; [reflexivity|].
           intros Heq. apply (Hk p); [left | now symmetry].
        -- intros q Hq. apply Hk. now right.
      * exists ((k0, updated) :: ws). split.
        -- rewrite Hws, <- app_assoc. reflexivity.
        -- intros k v Hkv. apply elem_of_cons in Hkv as [[= -> ->]|Hkv].
           ++ exists p. split; [left|]. split; [reflexivity | exact Hupd].
           ++ destruct (Hin k v Hkv) as (q & Hq & -> & Hv).
              exists q. split; [now right|]. split; [reflexivity|].
              rewrite lookup_insert_ne in Hv by (intros Heq; now apply (Hother q Hq)).
              exact Hv.
    + destruct (IH Hnd w) as (w' & E & Hpages & Hframe & ws & Hws & Hin).
      exists w'. split; [exact E|].
      assert (Hother : forall q, q ∈ pages -> background_key q ≠ k0).
      { intros q Hq Heq. apply Hp. rewrite <- Heq. now apply list_elem_of_fmap_2. }
      split; [|split].
      * intros q Hq. apply elem_of_cons in Hq as [->|Hq].
        -- fold k0. rewrite Hframe, Hupd; [reflexivity|].
           intros q Hq Heq. now apply (Hother q Hq).
        -- exact (Hpages q Hq).
      * intros k Hk. apply Hframe. intros q Hq. apply Hk. now right.
      * exists ws. split; [exact Hws|].
        intros k v Hkv. destruct (Hin k v Hkv) as (q & Hq & -> & Hv).
        exists q. split; [now right|]. split; [reflexivity | exact Hv].
Qed.

Lemma step_4_5_loop (w : World) :
  step 4 5 w = forM_ infusionPageKeys (migrate_background homeBannerMedia) w.
Proof.
  unfold migrateUserSettingsStep. cbv [Z.eqb Pos.eqb andb].
  unfold migrate_4_to_5, mbind, Async_bind, mret, Async_ret.
  destruct (forM_ infusionPageKeys (migrate_background homeBannerMedia) w) as [[] ?|?];
    reflexivity.
Qed.

Lemma infusionPageKeys_NoDup : NoDup (background_key <$> infusionPageKeys).
Proof. apply (bool_decide_unpack _). vm_compute. reflexivity. Qed.

(** What [with_mediaId] gives, in terms of the descriptor. *)
Lemma with_mediaId_Some (background : option JsValue) (updated : JsValue) :
  with_mediaId background = Some updated <->
  exists fields n media,
    background = Some (JObj fields) /\
    truthy (obj_get "mediaId" fields) = false /\
    obj_get "index" fields = Some (JNum n) /\
    arr_at homeBannerMedia n = Some media /\
    updated = JObj (obj_set "mediaId" (JStr (fileName media)) fields).
Proof.
  unfold background_with_mediaId, needs_mediaId. split.
  - destruct background as [[| b | n | s | l | fields]|]; simpl; try discriminate.
    + destruct b; discriminate.
    + destruct (negb (n =? 0)); discriminate.
    + destruct (negb (String.eqb s "")); discriminate.
    + destruct (truthy (obj_get "mediaId" fields)) eqn:Hm; simpl; [discriminate|].
      destruct (obj_get "index" fields) as [[| | n | | |]|] eqn:Hi; simpl; try discriminate.
      destruct (arr_at homeBannerMedia n) as [media|] eqn:Ha; [|discriminate].
      intros [= <-]. exists fields, n, media. repeat split; assumption.
  - intros (fields & n & media & -> & Hm & Hi & Ha & ->). simpl.
    rewrite Hm, Hi. simpl. rewrite Ha. reflexivity.
Qed.

(** C7.  The step from 4 to 5 returns, and for each of the six page keys:
    a descriptor that is an object without a (truthy) [mediaId] and with a
    numeric [index] that is an index of the builtin manifest is stored again
    with [mediaId] set to the file name of that builtin entry and every
    other field as it was; any other descriptor, and every other key of the
    store, is left as it is, and is not written. *)
Theorem migrate_4_to_5_adds_mediaId (w : World) :
  exists w', step 4 5 w = Returned tt w' /\
    (forall pageKey, pageKey ∈ infusionPageKeys ->
       let key := background_key pageKey in
       (forall fields n media,
           store w !! key = Some (JObj fields) ->
           truthy (obj_get "mediaId" fields) = false ->
           obj_get "index" fields = Some (JNum n) ->
           arr_at homeBannerMedia n = Some media ->
           exists fields',
             store w' !! key = Some (JObj fields') /\
             forall field,
               obj_get field fields' =
                 if String.eqb field "mediaId" then Some (JStr (fileName media))
                 else obj_get field fields) /\
       (forall b,
           store w !! key = Some b ->
           truthy (js_prop b "mediaId") = true
           \/ is_number (js_prop b "index") = false
           \/ (exists n, js_prop b "index" = Some (JNum n)
                         /\ arr_at homeBannerMedia n = None) ->
           store w' !! key = Some b /\ forall v, (key, v) ∉ drop (length (written w)) (written w')) /\
       (store w !! key = None -> store w' !! key = None)) /\
    (forall k, (forall pageKey, pageKey ∈ infusionPageKeys -> k ≠ background_key pageKey) ->
       store w' !! k = store w !! k /\ forall v, (k, v) ∉ drop (length (written w)) (written w')).
Proof.
  destruct (backgrounds_loop infusionPageKeys infusionPageKeys_NoDup w)
    as (w' & E & Hpages & Hframe & ws & Hws & Hin).
  exists w'. split.
  { rewrite step_4_5_loop. exact E. }
  assert (Hdrop : drop (length (written w)) (written w') = ws).
  { rewrite Hws. now rewrite drop_app_length. }
  rewrite Hdrop. split.
  - intros pageKey Hpage key. specialize (Hpages pageKey Hpage). fold key in Hpages.
    split; [|split].
    + intros fields n media Hb Hm Hi Ha.
      assert (with_mediaId (store w !! key)
              = Some (JObj (obj_set "mediaId" (JStr (fileName media)) fields))) as Hw.
      { apply with_mediaId_Some. exists fields, n, media. now repeat split. }
      rewrite Hw in Hpages. eexists. split; [exact Hpages|].
      intros field. destruct (String.eqb_spec field "mediaId") as [->|Hne].
      * apply obj_get_set_eq.
      * apply obj_get_set_ne. congruence.
    + intros b Hb Hcase.
      assert (with_mediaId (store w !! key) = None) as Hw.
      { destruct (with_mediaId (store w !! key)) as [u|] eqn:Hu; [|reflexivity].
        apply with_mediaId_Some in Hu as (fields & n & media & Hb' & Hm & Hi & Ha & _).
        rewrite Hb in Hb'. injection Hb' as ->. simpl in Hcase.
        destruct Hcase as [H|[H|(n' & H & H')]].
        - congruence.
        - rewrite Hi in H. discriminate.
        - rewrite Hi in H. injection H as <-. congruence. }
      rewrite Hw in Hpages. split; [now rewrite Hpages|].
      intros v Hv. destruct (Hin _ _ Hv) as (q & _ & _ & Hq). congruence.
    + intros Hnone. rewrite Hpages, Hnone. reflexivity.
  - intros k Hk. split; [now apply Hframe|].
    intros v Hv. destruct (Hin _ _ Hv) as (q & Hq & Heq & _). now apply (Hk q Hq).
Qed.

(** Applying the step from 4 to 5 again changes nothing. *)
Lemma with_mediaId_again (background : option JsValue) (updated : JsValue) :
  with_mediaId background = Some updated ->
  with_mediaId (Some updated) = None \/ with_mediaId (Some updated) = Some updated.
Proof.
  intros H. apply with_mediaId_Some in H as (fields & n & media & -> & Hm & Hi & Ha & ->).
  destruct (with_mediaId (Some (JObj (obj_set "mediaId" (JStr (fileName media)) fields))))
    as [u|] eqn:Hu; [right | now left].
  apply with_mediaId_Some in Hu as (fields' & n' & media' & [= <-] & Hm' & Hi' & Ha' & ->).
  rewrite obj_get_set_ne in Hi' by discriminate.
  rewrite Hi in Hi'. injection Hi' as <-. rewrite Ha in Ha'. injection Ha' as <-.
  now rewrite obj_set_idem.
Qed.

Lemma migrate_4_to_5_idempotent (w w1 : World) :
  step 4 5 w = Returned tt w1 ->
  exists w2, step 4 5 w1 = Returned tt w2 /\ store w2 = store w1.
Proof.
  intros H1.
  rewrite step_4_5_loop in H1.
  destruct (backgrounds_loop infusionPageKeys infusionPageKeys_NoDup w)
    as (w1' & E1 & Hpages1 & Hframe1 & _).
  rewrite E1 in H1. injection H1 as <-.
  destruct (backgrounds_loop infusionPageKeys infusionPageKeys_NoDup w1')
    as (w2 & E2 & Hpages2 & Hframe2 & _).
  exists w2. split; [now rewrite step_4_5_loop|].
  apply map_eq. intros k.
  destruct (decide (k ∈ background_key <$> infusionPageKeys)) as [Hin|Hout].
  - apply list_elem_of_fmap in Hin as (q & -> & Hq).
    rewrite (Hpages2 q Hq). rewrite (Hpages1 q Hq).
    destruct (with_mediaId (store w !! background_key q)) as [u|] eqn:Hu.
    + destruct (with_mediaId_again _ _ Hu) as [-> | ->]; reflexivity.
    + rewrite Hu. reflexivity.
  - apply Hframe2. intros q Hq ->. apply Hout. now apply list_elem_of_fmap_2.
Qed.

End Migration_4_to_5.

(** The home page points at the first builtin by index and gets its
    [mediaId]; the other fields of the descriptor stay. *)
Lemma migrate_4_to_5_adds_mediaId_witness :
  exists w' fields',
    Migration.migrateUserSettingsStep Samples.manifest Samples.default_file
      Samples.uuid_stream 4 5 Samples.world_pages = Migration.Returned tt w' /\
    Migration.store w' !! "infusion.pages.home.background" = Some (Js.JObj fields') /\
    Js.obj_get "mediaId" fields' = Some (Js.JStr "builtin1.jpg") /\
    Js.obj_get "path" fields' = Some (Js.JStr "builtin1.jpg") /\
    Js.obj_get "index" fields' = Some (Js.JNum 0).
Proof.
  destruct (migrate_4_to_5_adds_mediaId Samples.manifest Samples.default_file
              Samples.uuid_stream Samples.world_pages) as (w' & E & Hpages & _).
  destruct (Hpages "home") as (Hrewrite & _).
  { apply (bool_decide_unpack _). vm_compute. reflexivity. }
  destruct (Hrewrite
              [("type", Js.JStr "image"); ("path", Js.JStr "builtin1.jpg"); ("index", Js.JNum 0)]
              0 {| Data.fileName := "builtin1.jpg"; Data.name := "First"; Data.type := Data.image |})
    as (fields' & Hstore & Hfields); try reflexivity.
  exists w', fields'. split; [exact E|]. split; [exact Hstore|].
  split; [exact (Hfields "mediaId")|]. split; [exact (Hfields "path") | exact (Hfields "index")].
Defined.

(** ** Keys of the legacy position map *)

Section IndexKeys.
Import Js.

Lemma digit_not_white_space (c : ascii) : is_digit c = true -> is_white_space c = false.
Proof.
  unfold is_digit, is_white_space. intros H.
  apply andb_true_iff in H as [H1 H2].
  apply Nat.leb_le in H1. apply Nat.leb_le in H2.
  apply orb_false_iff. split.
  - apply andb_false_iff. right. apply Nat.leb_gt. lia.
  - apply Nat.eqb_neq. lia.
Qed.

Lemma digit_not_sign (c : ascii) :
  is_digit c = true -> c ≠ "-"%char /\ c ≠ "+"%char.
Proof. intros H. split; intros ->; discriminate. Qed.

Lemma digit_value_nonneg (c : ascii) : is_digit c = true -> 0 <= digit_value c.
Proof.
  unfold is_digit, digit_value. intros H.
  apply andb_true_iff in H as [H1 _]. apply Nat.leb_le in H1. lia.
Qed.

Lemma read_digits_nonneg (s : string) (acc : Z) : 0 <= acc -> 0 <= read_digits acc s.
Proof.
  revert acc. induction s as [|c s IH]; intros acc Hacc; simpl; [exact Hacc|].
  destruct (is_digit c) eqn:Hc; [|exact Hacc].
  apply IH. pose proof (digit_value_nonneg c Hc). lia.
Qed.

(** A key made of decimal digits is read by [parseInt] in full, as a
    number that is not negative. *)
Lemma parseInt_digits (key : string) :
  matches_digits key = true -> parseInt key = Some (read_digits 0 key) /\ 0 <= read_digits 0 key.
Proof.
  destruct key as [|c rest]; [discriminate|].
  intros H. simpl in H. apply andb_true_iff in H as [Hc _].
  split; [|now apply read_digits_nonneg].
  unfold parseInt. cbn [skip_white_space].
  rewrite (digit_not_white_space c Hc).
  destruct (digit_not_sign c Hc) as [Hminus Hplus].
  assert (Hbody : match String c rest with
                  | String "-" r => (true, r)
                  | String "+" r => (false, r)
                  | _ => (false, String c rest)
                  end = (false, String c rest)).
  { destruct c as [[] [] [] [] [] [] [] []]; try reflexivity; congruence. }
  rewrite Hbody. cbn [starts_with_digit]. rewrite Hc. reflexivity.
Qed.

End IndexKeys.

(** ** The position map of the step from 2 to 3 *)

Section Positions.
Import Js Data Migration.

Variable homeBannerMedia : list BannerMedia.

Local Abbreviation turn := (migrate_position_entry homeBannerMedia).
Local Abbreviation loop := (migrate_positions homeBannerMedia).

(** *** One turn of the loop *)

Lemma turn_non_object (custom : list JsValue) (key : string) (position : JsValue) :
  is_position_object position = false -> turn custom key position = Skip.
Proof. intros H. unfold migrate_position_entry. now rewrite H. Qed.

Lemma turn_non_index (custom : list JsValue) (key : string) (position : JsValue) :
  is_position_object position = true -> parseInt key = None ->
  turn custom key position = Assign key position.
Proof. intros H Hp. unfold migrate_position_entry. now rewrite H, Hp. Qed.

Lemma turn_custom (custom : list JsValue) (key : string) (position : JsValue)
    (index : Z) (entry : JsValue) (id : string) :
  is_position_object position = true -> parseInt key = Some index ->
  arr_at custom index = Some entry -> js_prop entry "id" = Some (JStr id) ->
  turn custom key position = Assign id (validPosition position).
Proof.
  intros H Hp Ha Hid. unfold migrate_position_entry. rewrite H, Hp. simpl.
  pose proof (arr_at_Some _ _ _ Ha) as Hr.
  assert ((index <? Z.of_nat (length custom)) = true) as -> by lia.
  rewrite Ha. destruct entry; try discriminate. rewrite Hid. reflexivity.
Qed.

Lemma turn_builtin (custom : list JsValue) (key : string) (position : JsValue) (index : Z) :
  is_position_object position = true -> parseInt key = Some index ->
  Z.of_nat (length custom) <= index
    < Z.of_nat (length custom) + Z.of_nat (length homeBannerMedia) ->
  exists media,
    arr_at homeBannerMedia (index - Z.of_nat (length custom)) = Some media /\
    turn custom key position = Assign (fileName media) (validPosition position).
Proof.
  intros H Hp Hr. unfold migrate_position_entry. rewrite H, Hp. simpl.
  assert ((index <? Z.of_nat (length custom)) = false) as -> by lia.
  destruct (arr_at_in_range homeBannerMedia (index - Z.of_nat (length custom)))
    as [media Hm]; [lia|].
  exists media. split; [exact Hm|]. rewrite Hm.
  assert ((0 <=? index - Z.of_nat (length custom))
          && (index - Z.of_nat (length custom) <? Z.of_nat (length homeBannerMedia)) = true)
    as -> by lia.
  reflexivity.
Qed.

Lemma turn_out_of_range (custom : list JsValue) (key : string) (position : JsValue)
    (index : Z) :
  parseInt key = Some index ->
  Z.of_nat (length custom) + Z.of_nat (length homeBannerMedia) <= index ->
  turn custom key position = Skip.
Proof.
  intros Hp Hr. unfold migrate_position_entry.
  destruct (is_position_object position); [|reflexivity]. simpl. rewrite Hp.
  assert ((index <? Z.of_nat (length custom)) = false) as -> by lia.
  assert ((0 <=? index - Z.of_nat (length custom))
          && (index - Z.of_nat (length custom) <? Z.of_nat (length homeBannerMedia)) = false)
    as -> by lia.
  reflexivity.
Qed.

(** What a turn can assign: the entry's value under its own key when the
    key is no index, a normalized position otherwise. *)
Lemma turn_Assign (custom : list JsValue) (key : string) (position : JsValue)
    (target : string) (value : JsValue) :
  turn custom key position = Assign target value ->
  is_position_object position = true /\
  ((parseInt key = None /\ target = key /\ value = position)
   \/ ((exists index, parseInt key = Some index) /\ value = validPosition position)).
Proof.
  unfold migrate_position_entry.
  destruct (is_position_object position); [|discriminate]. simpl.
  destruct (parseInt key) as [index|].
  - intros Ht. split; [reflexivity|]. right. split; [now exists index|].
    destruct (index <? Z.of_nat (length custom)).
    + destruct (arr_at custom index) as [[]|]; try discriminate; now injection Ht.
    + destruct ((0 <=? _) && _); [|discriminate].
      destruct (arr_at homeBannerMedia _); [|discriminate]. now injection Ht.
  - intros [= <- <-]. split; [reflexivity|]. left. repeat split.
Qed.

(** *** The loop *)

Lemma loop_app (custom : list JsValue) (es1 es2 acc : list (string * JsValue)) :
  loop custom (es1 ++ es2) acc =
    match loop custom es1 acc with
    | Some acc' => loop custom es2 acc'
    | None => None
    end.
Proof.
  revert acc. induction es1 as [|[k v] es1 IH]; intros acc; simpl; [reflexivity|].
  destruct (turn custom k v); [apply IH | apply IH | reflexivity].
Qed.

(** An entry whose turn is skipped could as well not be there. *)
Lemma loop_skip (custom : list JsValue) (es1 es2 acc : list (string * JsValue))
    (key : string) (position : JsValue) :
  turn custom key position = Skip ->
  loop custom (es1 ++ (key, position) :: es2) acc = loop custom (es1 ++ es2) acc.
Proof.
  intros H. rewrite !loop_app. destruct (loop custom es1 acc); [|reflexivity].
  simpl. now rewrite H.
Qed.

(** A key that no entry still to visit assigns keeps its value. *)
Lemma loop_frame (custom : list JsValue) (es acc result : list (string * JsValue))
    (target : string) :
  loop custom es acc = Some result ->
  Forall (fun kv => forall value, turn custom (fst kv) (snd kv) ≠ Assign target value) es ->
  obj_get target result = obj_get target acc.
Proof.
  revert acc. induction es as [|[k v] es IH]; intros acc Hloop Hfree; simpl in Hloop.
  - now injection Hloop as <-.
  - apply Forall_cons in Hfree as [Hkv Hfree]. simpl in Hkv.
    destruct (turn custom k v) as [|k' v'|] eqn:Ht; [now apply IH| |discriminate].
    rewrite (IH _ Hloop Hfree).
    apply obj_get_assign_ne. intros ->. now apply (Hkv v').
Qed.

(** The last assignment to a key decides its value. *)
Lemma loop_last (custom : list JsValue) (es1 es2 acc result : list (string * JsValue))
    (key : string) (position : JsValue) (target : string) (value : JsValue) :
  loop custom (es1 ++ (key, position) :: es2) acc = Some result ->
  turn custom key position = Assign target value ->
  target ≠ "__proto__" ->
  Forall (fun kv => forall value, turn custom (fst kv) (snd kv) ≠ Assign target value) es2 ->
  obj_get target result = Some value.
Proof.
  intros Hloop Ht Hproto Hfree. rewrite loop_app in Hloop.
  destruct (loop custom es1 acc) as [acc1|]; [|discriminate].
  simpl in Hloop. rewrite Ht in Hloop.
  rewrite (loop_frame _ _ _ _ _ Hloop Hfree).
  now apply obj_get_assign_eq.
Qed.

(** Every entry of the result was in the accumulator or was assigned by
    the turn of some visited entry. *)
Lemma loop_sound (custom : list JsValue) (es acc result : list (string * JsValue))
    (target : string) (value : JsValue) :
  loop custom es acc = Some result ->
  obj_get target result = Some value ->
  obj_get target acc = Some value
  \/ exists key position, (key, position) ∈ es /\ turn custom key position = Assign target value.
Proof.
  revert acc. induction es as [|[k v] es IH]; intros acc Hloop Hget; simpl in Hloop.
  - injection Hloop as <-. now left.
  - destruct (turn custom k v) as [|k' v'|] eqn:Ht; [| |discriminate].
    + destruct (IH _ Hloop Hget) as [H|(key & position & Hin & H)]; [now left|].
      right. exists key, position. split; [now right | exact H].
    + destruct (IH _ Hloop Hget) as [H|(key & position & Hin & H)].
      * destruct (String.eqb_spec k' target) as [->|Hne].
        -- unfold obj_assign in H. destruct (String.eqb target "__proto__"); [now left|].
           rewrite obj_get_set_eq in H. injection H as ->.
           right. exists k, v. split; [left | exact Ht].
        -- rewrite obj_get_assign_ne in H by exact Hne. now left.
      * right. exists key, position. split; [now right | exact H].
Qed.

(** A turn does not throw when the key is made of digits or is no number
    for [parseInt], and no custom entry is [null]. *)
Lemma turn_no_error (custom : list JsValue) (key : string) (position : JsValue) :
  Forall (fun entry => entry ≠ JNull) custom ->
  matches_digits key = true \/ parseInt key = None ->
  turn custom key position ≠ TypeError.
Proof.
  intros Hcustom Hkey. unfold migrate_position_entry.
  destruct (is_position_object position); simpl; [|discriminate].
  destruct (parseInt key) as [index|] eqn:Hparse; [|discriminate].
  destruct Hkey as [Hdigits|?]; [|discriminate].
  destruct (parseInt_digits key Hdigits) as [Hread Hnonneg].
  rewrite Hparse in Hread. injection Hread as ->.
  destruct (Z.ltb_spec (read_digits 0 key) (Z.of_nat (length custom))) as [Hlt|Hge].
  - destruct (arr_at_in_range custom (read_digits 0 key)) as [entry Hentry]; [lia|].
    rewrite Hentry. unfold arr_at in Hentry.
    destruct (read_digits 0 key <? 0); [discriminate|].
    apply list_elem_of_lookup_2 in Hentry.
    rewrite Forall_forall in Hcustom. specialize (Hcustom entry Hentry).
    destruct entry; try discriminate. contradiction.
  - destruct ((0 <=? _) && (_ <? _)) eqn:Hrange; [|discriminate].
    destruct (arr_at_in_range homeBannerMedia
                (read_digits 0 key - Z.of_nat (length custom))) as [media Hmedia]; [lia|].
    rewrite Hmedia. discriminate.
Qed.

Lemma loop_returns (custom : list JsValue) (es acc : list (string * JsValue)) :
  Forall (fun entry => entry ≠ JNull) custom ->
  Forall (fun kv => is_position_object (snd kv) = true ->
                    matches_digits (fst kv) = true \/ parseInt (fst kv) = None) es ->
  exists result, loop custom es acc = Some result.
Proof.
  intros Hcustom Hes. revert acc.
  induction Hes as [|[k v] es Hkv _ IH]; intros acc; simpl; [now exists acc|].
  simpl in Hkv.
  destruct (is_position_object v) eqn:Hobj.
  - pose proof (turn_no_error custom k v Hcustom (Hkv eq_refl)) as Hno.
    destruct (turn custom k v); [apply IH | apply IH | contradiction].
  - rewrite (turn_non_object custom k v Hobj). apply IH.
Qed.

(** Entries whose value is no object play no part. *)
Lemma loop_filter_objects (custom : list JsValue) (es acc : list (string * JsValue)) :
  loop custom (List.filter (fun kv => is_position_object (snd kv)) es) acc = loop custom es acc.
Proof.
  revert acc. induction es as [|[k v] es IH]; intros acc; simpl; [reflexivity|].
  destruct (is_position_object v) eqn:Hv; simpl.
  - destruct (turn custom k v); [apply IH | apply IH | reflexivity].
  - rewrite (turn_non_object custom k v Hv). apply IH.
Qed.

End Positions.

(** ** The step from 2 to 3 *)

Section Migration_2_to_3.
Import Js Data Migration.

Variable homeBannerMedia : list BannerMedia.
Variable DEFAULT_HOME_BANNER_FILE_NAME : string.
Variable randomUUID : nat -> string.

Local Abbreviation step :=
  (migrateUserSettingsStep homeBannerMedia DEFAULT_HOME_BANNER_FILE_NAME randomUUID).
Local Abbreviation turn := (migrate_position_entry homeBannerMedia).
Local Abbreviation loop := (migrate_positions homeBannerMedia).
Local Abbreviation with_id :=
  (fun path : JsValue =>
     id ← generateShortId randomUUID; mret (JObj [("path", path); ("id", JStr id)])).

Lemma bind_Returned {A B : Type} (m : Async A) (f : A -> Async B) (w w1 : World) (a : A) :
  m w = Returned a w1 -> (m ≫= f) w = f a w1.
Proof. intros E. unfold mbind, Async_bind. now rewrite E. Qed.

(** Giving every path an id draws one UUID per path and touches nothing
    else; the result has one object per path, in the same order. *)
Lemma mapM_with_id (items : list JsValue) (w : World) :
  exists migrated,
    mapM with_id items w
    = Returned migrated {| store := store w; written := written w;
                           uuids := (uuids w + length items)%nat |} /\
    length migrated = length items /\
    forall i path, items !! i = Some path ->
      migrated !! i =
        Some (JObj [("path", path);
                    ("id", JStr (substring 0 8 (remove_dashes (randomUUID (uuids w + i)%nat))))]).
Proof.
  revert w. induction items as [|p items IH]; intros w.
  - exists []. simpl. rewrite Nat.add_0_r. destruct w. repeat split. intros ? ? H. inversion H.
  - destruct (IH {| store := store w; written := written w; uuids := S (uuids w) |})
      as (migrated & E & Hlen & Hnth).
    eexists (_ :: migrated). split; [|split].
    + simpl. unfold mbind, Async_bind, generateShortId, mret, Async_ret in *. simpl.
      rewrite E. simpl. rewrite Nat.add_succ_r. reflexivity.
    + simpl. now rewrite Hlen.
    + intros [|i] path Hi; simpl in *.
      * injection Hi as ->. rewrite Nat.add_0_r. reflexivity.
      * rewrite (Hnth i path Hi). simpl. now rewrite Nat.add_succ_r.
Qed.

(** The first half of the step: it returns the custom list the second half
    works with, which is the list the store holds afterwards; that list is
    not in the legacy format, and it has no [null] in it when the list
    before was in the legacy format or had none. *)
Lemma migrate_custom_media_run (w : World) :
  exists migratedCustom w1,
    migrate_custom_media randomUUID w = Returned migratedCustom w1 /\
    migratedCustom = elements (store w1 !! "homeBannerCustomMedia") /\
    isLegacyFormat migratedCustom = false /\
    (forall k, k ≠ "homeBannerCustomMedia" -> store w1 !! k = store w !! k) /\
    (isLegacyFormat (elements (store w !! "homeBannerCustomMedia")) = false -> w1 = w) /\
    (isLegacyFormat (elements (store w !! "homeBannerCustomMedia")) = true
     \/ Forall (fun entry => entry ≠ JNull) (elements (store w !! "homeBannerCustomMedia")) ->
     Forall (fun entry => entry ≠ JNull) migratedCustom).
Proof.
  unfold migrate_custom_media.
  rewrite (bind_Returned (storage_get "homeBannerCustomMedia") _ w w
             (store w !! "homeBannerCustomMedia") eq_refl).
  destruct (store w !! "homeBannerCustomMedia") as [[| | | | items |]|] eqn:Hc;
    try (exists [], w; simpl; rewrite Hc; repeat split; constructor).
  destruct (isLegacyFormat items) eqn:Hlegacy.
  - destruct (mapM_with_id items w) as (migrated & E & Hlen & Hnth).
    rewrite (bind_Returned _ _ _ _ _ E).
    eexists. eexists. split; [reflexivity|]. simpl. split; [|split; [|split; [|split]]].
    + now rewrite lookup_insert_eq.
    + destruct items as [|[] items]; try discriminate.
      specialize (Hnth 0%nat _ eq_refl). destruct migrated; [discriminate|].
      simpl in Hnth. injection Hnth as ->. reflexivity.
    + intros k Hk. now rewrite lookup_insert_ne.
    + simpl. intros H. congruence.
    + intros _. apply Forall_forall. intros entry Hentry.
      apply list_elem_of_lookup in Hentry as [i Hi].
      destruct (lookup_lt_is_Some_2 items i) as [path Hpath].
      { rewrite <- Hlen. now apply lookup_lt_Some in Hi. }
      rewrite (Hnth i path Hpath) in Hi. injection Hi as <-. discriminate.
  - exists items, w. simpl. rewrite Hc. simpl. repeat split; try reflexivity; try assumption.
    intros [?|H]; [congruence | exact H].
Qed.

(** The step as a whole, in terms of its first half. *)
Lemma migrate_2_to_3_run (w w1 : World) (migratedCustom : list JsValue) :
  migrate_custom_media randomUUID w = Returned migratedCustom w1 ->
  step 2 3 w =
    match store w1 !! "homeBannerPositions" with
    | Some v =>
        if hasNumericKeys (store w1 !! "homeBannerPositions") then
          match loop migratedCustom (entries v) [] with
          | Some migratedPositions =>
              Returned tt {| store := <["homeBannerPositions" := JObj migratedPositions]> (store w1);
                             written := (written w1
                                         ++ [("homeBannerPositions", JObj migratedPositions)])%list;
                             uuids := uuids w1 |}
          | None => Thrown w1
          end
        else Returned tt w1
    | None => Returned tt w1
    end.
Proof.
  intros E. unfold migrateUserSettingsStep. cbv [Z.eqb Pos.eqb andb].
  unfold migrate_2_to_3, mbind, Async_bind. rewrite E.
  unfold storage_get, storage_set, throwTypeError, mret, Async_ret.
  destruct (store w1 !! "homeBannerPositions") as [v|] eqn:Hv; [|reflexivity].
  destruct (hasNumericKeys (Some v)); [|reflexivity].
  destruct (loop migratedCustom (entries v) []); reflexivity.
Qed.

(** When the position map has a key of digits and the step returns, the
    map stored afterwards is what the loop made of the old map, with the
    custom list that is in the store afterwards. *)
Lemma migrate_2_to_3_positions (w w' : World) (positionsValue : JsValue) :
  store w !! "homeBannerPositions" = Some positionsValue ->
  hasNumericKeys (Some positionsValue) = true ->
  step 2 3 w = Returned tt w' ->
  exists migratedPositions,
    store w' !! "homeBannerPositions" = Some (JObj migratedPositions) /\
    loop (elements (store w' !! "homeBannerCustomMedia")) (entries positionsValue) []
    = Some migratedPositions.
Proof.
  intros Hpos Hnum Hstep.
  destruct (migrate_custom_media_run w) as (custom & w1 & E & Hcustom & _ & Hframe & _ & _).
  rewrite (migrate_2_to_3_run _ _ _ E) in Hstep.
  rewrite (Hframe "homeBannerPositions") in Hstep by discriminate.
  rewrite Hpos, Hnum in Hstep.
  destruct (loop custom (entries positionsValue) []) as [mp|] eqn:Hloop; [|discriminate].
  injection Hstep as <-. simpl. exists mp. split; [now rewrite lookup_insert_eq|].
  rewrite lookup_insert_ne by discriminate. now rewrite <- Hcustom.
Qed.

(** The step returns when no custom entry is [null] (or the custom list is
    in the legacy format) and every key of the position map that holds an
    object is made of digits or is no number for [parseInt]. *)
Lemma migrate_2_to_3_returns (w : World) :
  isLegacyFormat (elements (store w !! "homeBannerCustomMedia")) = true
  \/ Forall (fun entry => entry ≠ JNull) (elements (store w !! "homeBannerCustomMedia")) ->
  (forall positionsValue,
      store w !! "homeBannerPositions" = Some positionsValue ->
      Forall (fun kv => is_position_object (snd kv) = true ->
                        matches_digits (fst kv) = true \/ parseInt (fst kv) = None)
             (entries positionsValue)) ->
  exists w', step 2 3 w = Returned tt w'.
Proof.
  intros Hcustom Hkeys.
  destruct (migrate_custom_media_run w) as (custom & w1 & E & _ & _ & Hframe & _ & Hnonull).
  rewrite (migrate_2_to_3_run _ _ _ E).
  rewrite (Hframe "homeBannerPositions") by discriminate.
  destruct (store w !! "homeBannerPositions") as [v|] eqn:Hv; [|now eexists].
  destruct (hasNumericKeys (Some v)); [|now eexists].
  destruct (loop_returns homeBannerMedia custom (entries v) [] (Hnonull Hcustom) (Hkeys v eq_refl))
    as [mp ->].
  now eexists.
Qed.

(** C2 (amended).  Take a store whose position map has a key made of
    digits.  The step from 2 to 3 returns when no custom entry is [null] and
    every key of the map that holds an object is made of digits or is no
    number for [parseInt].  Whenever it returns, the map it stores is built
    from the entries of the old map as follows, with [custom] the custom
    list as it is after the step.  An entry whose value is not an object is
    dropped, whatever its key.  An entry with an object under a key of
    digits that reads as [index] is stored under the id of the custom entry
    at [index] when there is one; under the file name of the builtin entry
    at [index - customCount] when [customCount <= index < customCount +
    builtinCount]; and is dropped when [index] is beyond both ranges.  An
    entry with an object under a key that [parseInt] does not read as a
    number is stored under that key with its value as it was.  "Is stored"
    holds for the last entry that is rewritten to the key in question: a
    later one replaces it. *)
Theorem migrate_2_to_3_rewrites_keys (w : World) (positionsValue : JsValue) :
  store w !! "homeBannerPositions" = Some positionsValue ->
  hasNumericKeys (Some positionsValue) = true ->
  (Forall (fun entry => entry ≠ JNull) (elements (store w !! "homeBannerCustomMedia")) ->
   Forall (fun kv => is_position_object (snd kv) = true ->
                     matches_digits (fst kv) = true \/ parseInt (fst kv) = None)
          (entries positionsValue) ->
   exists w', step 2 3 w = Returned tt w') /\
  forall w',
    step 2 3 w = Returned tt w' ->
    let custom := elements (store w' !! "homeBannerCustomMedia") in
    let customCount := Z.of_nat (length custom) in
    let builtinCount := Z.of_nat (length homeBannerMedia) in
    exists migratedPositions,
      store w' !! "homeBannerPositions" = Some (JObj migratedPositions) /\
      forall before key position after,
        entries positionsValue = (before ++ (key, position) :: after)%list ->
        let last_for (target : string) :=
          Forall (fun kv => forall value, turn custom (fst kv) (snd kv) ≠ Assign target value)
                 after in
        (is_position_object position = false ->
         loop custom (before ++ after) [] = Some migratedPositions) /\
        (is_position_object position = true ->
         (forall index,
             matches_digits key = true -> parseInt key = Some index ->
             (forall entry id,
                 arr_at custom index = Some entry -> js_prop entry "id" = Some (JStr id) ->
                 id ≠ "__proto__" -> last_for id ->
                 obj_get id migratedPositions = Some (validPosition position)) /\
             (customCount <= index < customCount + builtinCount ->
              exists media,
                arr_at homeBannerMedia (index - customCount) = Some media /\
                (fileName media ≠ "__proto__" -> last_for (fileName media) ->
                 obj_get (fileName media) migratedPositions = Some (validPosition position))) /\
             (customCount + builtinCount <= index ->
              loop custom (before ++ after) [] = Some migratedPositions)) /\
         (parseInt key = None -> key ≠ "__proto__" -> last_for key ->
          obj_get key migratedPositions = Some position)).
Proof.
  intros Hpos Hnum. split.
  { intros Hcustom Hkeys. apply migrate_2_to_3_returns; [now right|].
    intros v Hv. rewrite Hpos in Hv. now injection Hv as <-. }
  intros w' Hstep custom customCount builtinCount.
  destruct (migrate_2_to_3_positions w w' positionsValue Hpos Hnum Hstep)
    as (mp & Hstore & Hloop).
  fold custom in Hloop. exists mp. split; [exact Hstore|].
  intros before key position after Hentries last_for.
  rewrite Hentries in Hloop. split.
  { intros Hobj. rewrite <- Hloop. symmetry. apply loop_skip. now apply turn_non_object. }
  intros Hobj. split.
  - intros index _ Hparse. split; [|split].
    + intros entry id Hentry Hid Hproto Hlast.
      apply (loop_last homeBannerMedia custom before after [] mp key position id); auto.
      now apply (turn_custom homeBannerMedia custom key position index entry id).
    + intros Hrange.
      destruct (turn_builtin homeBannerMedia custom key position index Hobj Hparse Hrange)
        as (media & Hmedia & Hturn).
      exists media. split; [exact Hmedia|]. intros Hproto Hlast.
      now apply (loop_last homeBannerMedia custom before after [] mp key position
                   (fileName media)).
    + intros Hbeyond. rewrite <- Hloop. symmetry. apply loop_skip.
      now apply (turn_out_of_range homeBannerMedia custom key position index).
  - intros Hparse Hproto Hlast.
    apply (loop_last homeBannerMedia custom before after [] mp key position key); auto.
    now apply turn_non_index.
Qed.

Lemma number_or_JNum (v : option JsValue) (default : Z) :
  number_or v default = JNum (match v with Some (JNum n) => n | _ => default end).
Proof. destruct v as [[]|]; reflexivity. Qed.

(** C10 (amended).  When the position map has a key made of digits and the
    step from 2 to 3 returns, every entry of the map it stores comes from an
    entry of the old map whose value is an object: either as it was, under a
    key that [parseInt] does not read as a number, or normalized, under a
    key that it does: then the value has exactly the fields [positionX],
    [positionY] and [zoom], each the old field when that is a number and 50,
    50 and 100 otherwise.  Entries whose value is not an object play no
    part, whatever their key: the stored map is the one the loop makes of
    the old map without them. *)
Theorem migrate_2_to_3_normalizes_values (w w' : World) (positionsValue : JsValue) :
  store w !! "homeBannerPositions" = Some positionsValue ->
  hasNumericKeys (Some positionsValue) = true ->
  step 2 3 w = Returned tt w' ->
  let custom := elements (store w' !! "homeBannerCustomMedia") in
  exists migratedPositions,
    store w' !! "homeBannerPositions" = Some (JObj migratedPositions) /\
    (forall target value,
        obj_get target migratedPositions = Some value ->
        exists key position,
          (key, position) ∈ entries positionsValue /\
          is_position_object position = true /\
          ((parseInt key = None /\ target = key /\ value = position)
           \/ ((exists index, parseInt key = Some index) /\
               value =
                 JObj [("positionX",
                        JNum (match js_prop position "positionX" with
                              | Some (JNum n) => n | _ => 50 end));
                       ("positionY",
                        JNum (match js_prop position "positionY" with
                              | Some (JNum n) => n | _ => 50 end));
                       ("zoom",
                        JNum (match js_prop position "zoom" with
                              | Some (JNum n) => n | _ => 100 end))]))) /\
    loop custom (List.filter (fun kv => is_position_object (snd kv)) (entries positionsValue)) []
    = Some migratedPositions.
Proof.
  intros Hpos Hnum Hstep custom.
  destruct (migrate_2_to_3_positions w w' positionsValue Hpos Hnum Hstep)
    as (mp & Hstore & Hloop).
  fold custom in Hloop. exists mp. split; [exact Hstore|]. split.
  - intros target value Hget.
    destruct (loop_sound homeBannerMedia custom _ _ _ target value Hloop Hget)
      as [H|(key & position & Hin & Hturn)]; [discriminate|].
    exists key, position. split; [exact Hin|].
    apply turn_Assign in Hturn as (Hobj & Hcase). split; [exact Hobj|].
    destruct Hcase as [H|[Hidx ->]]; [now left|].
    right. split; [exact Hidx|].
    unfold validPosition. now rewrite !number_or_JNum.
  - now rewrite loop_filter_objects.
Qed.

(** Applying the step from 2 to 3 again changes nothing, provided the
    position map left by the first application has no key made of digits. *)
Lemma migrate_2_to_3_idempotent_without_digit_keys (w w1 : World) :
  step 2 3 w = Returned tt w1 ->
  hasNumericKeys (store w1 !! "homeBannerPositions") = false ->
  exists w2, step 2 3 w1 = Returned tt w2 /\ w2 = w1.
Proof.
  intros Hstep Hnum.
  assert (Hlegacy : isLegacyFormat (elements (store w1 !! "homeBannerCustomMedia")) = false).
  { destruct (migrate_custom_media_run w) as (custom & w0 & E & Hcustom & Hl & _ & _ & _).
    rewrite (migrate_2_to_3_run _ _ _ E) in Hstep.
    assert (Hsame : store w1 !! "homeBannerCustomMedia" = store w0 !! "homeBannerCustomMedia").
    { destruct (store w0 !! "homeBannerPositions") as [v|]; [|now injection Hstep as <-].
      destruct (hasNumericKeys (Some v)); [|now injection Hstep as <-].
      destruct (loop custom (entries v) []); [|discriminate].
      injection Hstep as <-. simpl. now rewrite lookup_insert_ne. }
    now rewrite Hsame, <- Hcustom. }
  destruct (migrate_custom_media_run w1) as (custom & w2 & E & _ & _ & _ & Hsame & _).
  rewrite (Hsame Hlegacy) in E.
  exists w1. split; [|reflexivity].
  rewrite (migrate_2_to_3_run _ _ _ E).
  destruct (store w1 !! "homeBannerPositions") as [v|]; [|reflexivity].
  now rewrite Hnum.
Qed.

End Migration_2_to_3.

(** ** The step from 2 to 3 on concrete stores *)

Section Migration_2_to_3_examples.
Import Js Data Migration Samples.

Local Abbreviation step_A := (migrateUserSettingsStep manifest_A default_file uuid_stream).
Local Abbreviation step := (migrateUserSettingsStep manifest default_file uuid_stream).

(** Scenario A of the specification: index 0 goes to the id of the first
    custom entry and index 2, past the two custom entries, to the first
    builtin entry. *)
Lemma migrate_2_to_3_rewrites_keys_witness :
  exists w' migratedPositions,
    step_A 2 3 world_A = Returned tt w' /\
    store w' !! "homeBannerPositions" = Some (JObj migratedPositions) /\
    obj_get "12345678" migratedPositions = Some (position 10 20 100) /\
    obj_get "builtin1.jpg" migratedPositions = Some (position 50 50 100).
Proof.
  destruct (migrate_2_to_3_rewrites_keys manifest_A default_file uuid_stream world_A
              (JObj [("0", position 10 20 100); ("2", position 50 50 100)])
              eq_refl eq_refl) as (Hreturns & Hrewrite).
  destruct Hreturns as (w' & E).
  { repeat constructor; discriminate. }
  { repeat constructor; intros _; now left. }
  assert (Hcustom : elements (store w' !! "homeBannerCustomMedia")
                    = [JObj [("path", JStr "/a.jpg"); ("id", JStr "12345678")];
                       JObj [("path", JStr "/b.jpg"); ("id", JStr "abcdef01")]]).
  { pose proof E as E'. vm_compute in E'. injection E' as <-. reflexivity. }
  destruct (Hrewrite w' E) as (mp & Hstore & Hkeys).
  exists w', mp. split; [exact E|]. split; [exact Hstore|].
  rewrite Hcustom in Hkeys. split.
  - destruct (Hkeys [] "0" (position 10 20 100) [("2", position 50 50 100)] eq_refl)
      as (_ & Hobject).
    destruct (Hobject eq_refl) as (Hindex & _).
    destruct (Hindex 0 eq_refl eq_refl) as (Hid & _).
    apply (Hid (JObj [("path", JStr "/a.jpg"); ("id", JStr "12345678")]) "12345678");
      try reflexivity; [discriminate|].
    repeat constructor. simpl. intros value. vm_compute. discriminate.
  - destruct (Hkeys [("0", position 10 20 100)] "2" (position 50 50 100) [] eq_refl)
      as (_ & Hobject).
    destruct (Hobject eq_refl) as (Hindex & _).
    destruct (Hindex 2 eq_refl eq_refl) as (_ & Hbuiltin & _).
    destruct Hbuiltin as (media & Hmedia & Hget); [vm_compute; split; [discriminate|reflexivity]|].
    vm_compute in Hmedia. injection Hmedia as <-.
    apply Hget; [discriminate | constructor].
Defined.

(** Scenario A again: both stored values come from the old map, and here
    both are normalized. *)
Lemma migrate_2_to_3_normalizes_values_witness :
  exists w' migratedPositions,
    step_A 2 3 world_A = Returned tt w' /\
    store w' !! "homeBannerPositions" = Some (JObj migratedPositions) /\
    migratedPositions
    = [("12345678", position 10 20 100); ("builtin1.jpg", position 50 50 100)].
Proof.
  destruct (step_A 2 3 world_A) as [[] w'|w'] eqn:E; [|vm_compute in E; discriminate].
  assert (Hcustom : elements (store w' !! "homeBannerCustomMedia")
                    = [JObj [("path", JStr "/a.jpg"); ("id", JStr "12345678")];
                       JObj [("path", JStr "/b.jpg"); ("id", JStr "abcdef01")]]).
  { vm_compute in E. injection E as <-. reflexivity. }
  destruct (migrate_2_to_3_normalizes_values manifest_A default_file uuid_stream world_A w'
              (JObj [("0", position 10 20 100); ("2", position 50 50 100)])
              eq_refl eq_refl E) as (mp & Hstore & _ & Hloop).
  exists w', mp. split; [reflexivity|]. split; [exact Hstore|].
  rewrite Hcustom in Hloop. vm_compute in Hloop. now injection Hloop as <-.
Defined.

(** C2, as stated, fails: a key that is not made of digits does not pass
    through when its value is [null]. *)
Lemma migrate_2_to_3_drops_null_valued_key :
  exists w' migratedPositions,
    step 2 3 world_null_value = Returned tt w' /\
    store w' !! "homeBannerPositions" = Some (JObj migratedPositions) /\
    ~ (forall key value,
          matches_digits key = false ->
          obj_get key [("0", position 10 20 100); ("draft", JNull)] = Some value ->
          obj_get key migratedPositions = Some value).
Proof.
  eexists. eexists. split; [vm_compute; reflexivity|]. split; [vm_compute; reflexivity|].
  intros H. specialize (H "draft" JNull eq_refl eq_refl). vm_compute in H. discriminate.
Qed.

(** C10, as stated, fails: a value kept under a key that is no index is
    stored as it was, here with a [positionX] that is no number and without
    a [zoom]. *)
Lemma migrate_2_to_3_keeps_value_as_it_was :
  exists w' migratedPositions,
    step 2 3 world_verbatim = Returned tt w' /\
    store w' !! "homeBannerPositions" = Some (JObj migratedPositions) /\
    ~ (forall target value,
          obj_get target migratedPositions = Some value ->
          is_number (js_prop value "positionX") = true
          /\ is_number (js_prop value "positionY") = true
          /\ is_number (js_prop value "zoom") = true).
Proof.
  eexists. eexists. split; [vm_compute; reflexivity|]. split; [vm_compute; reflexivity|].
  intros H.
  destruct (H "a1b2c3d4" (JObj [("positionX", JStr "left"); ("positionY", JNum 20)]) eq_refl)
    as (Hx & _).
  discriminate.
Qed.

End Migration_2_to_3_examples.

Section NotIdempotent.
Import Js Data Migration Samples.

Variable homeBannerMedia : list BannerMedia.
Variable DEFAULT_HOME_BANNER_FILE_NAME : string.

Local Abbreviation step :=
  (migrateUserSettingsStep homeBannerMedia DEFAULT_HOME_BANNER_FILE_NAME uuid_stream).

(** C1.  The step from 2 to 3 is not idempotent, whatever the builtin
    manifest (of fewer than 12345677 entries) and the default file name.  A
    store at version 2 holds one custom file in the legacy format with a
    saved position under the index key 0, and the first id that is
    generated is [12345678].  The first application stores the position
    under that id; the second application takes the id for a legacy index,
    finds no entry at that index and drops the position: the store after
    the second application is not the store after the first. *)
Theorem migrate_2_to_3_not_idempotent :
  Z.of_nat (length homeBannerMedia) < 12345677 ->
  step 2 3 world_legacy = Returned tt world_legacy_once /\
  step 2 3 world_legacy_once = Returned tt world_legacy_twice /\
  store world_legacy_once !! "homeBannerPositions"
  = Some (JObj [("12345678", position 10 20 100)]) /\
  store world_legacy_twice !! "homeBannerPositions" = Some (JObj []) /\
  store world_legacy_twice ≠ store world_legacy_once.
Proof.
  intros Hlen. split; [|split; [|split; [|split]]].
  - vm_compute. reflexivity.
  - rewrite (migrate_2_to_3_run homeBannerMedia DEFAULT_HOME_BANNER_FILE_NAME uuid_stream
               world_legacy_once world_legacy_once
               [JObj [("path", JStr "/a.jpg"); ("id", JStr "12345678")]])
      by (vm_compute; reflexivity).
    assert (Hpos : store world_legacy_once !! "homeBannerPositions"
                   = Some (JObj [("12345678", position 10 20 100)]))
      by (vm_compute; reflexivity).
    rewrite Hpos.
    assert (hasNumericKeys (Some (JObj [("12345678", position 10 20 100)])) = true) as ->
      by (vm_compute; reflexivity).
    assert (Hloop : migrate_positions homeBannerMedia
                      [JObj [("path", JStr "/a.jpg"); ("id", JStr "12345678")]]
                      (entries (JObj [("12345678", position 10 20 100)])) [] = Some []).
    { cbn [entries migrate_positions].
      rewrite (turn_out_of_range homeBannerMedia _ "12345678" (position 10 20 100) 12345678);
        [reflexivity | vm_compute; reflexivity | simpl length; lia]. }
    rewrite Hloop. f_equal.
  - vm_compute. reflexivity.
  - vm_compute. reflexivity.
  - intros H. apply (f_equal (fun s => s !! "homeBannerPositions")) in H.
    vm_compute in H. discriminate.
Qed.

End NotIdempotent.

(** The same with a manifest of two entries. *)
Lemma migrate_2_to_3_not_idempotent_witness :
  Migration.migrateUserSettingsStep Samples.manifest Samples.default_file Samples.uuid_stream
    2 3 Samples.world_legacy_once = Migration.Returned tt Samples.world_legacy_twice /\
  Migration.store Samples.world_legacy_twice ≠ Migration.store Samples.world_legacy_once.
Proof.
  destruct (migrate_2_to_3_not_idempotent Samples.manifest Samples.default_file)
    as (_ & Hsecond & _ & _ & Hdiffer).
  - reflexivity.
  - split; [exact Hsecond | exact Hdiffer].
Defined.

(** ** Applying a step twice *)

Section Idempotence.
Import Js Data Migration.

Variable homeBannerMedia : list BannerMedia.
Variable DEFAULT_HOME_BANNER_FILE_NAME : string.
Variable randomUUID : nat -> string.

Local Abbreviation step :=
  (migrateUserSettingsStep homeBannerMedia DEFAULT_HOME_BANNER_FILE_NAME randomUUID).

(** A pair of versions that is none of the five steps does nothing. *)
Lemma no_step (fromVersion toVersion : Z) (w : World) :
  (fromVersion, toVersion) ∉ [(0, 1); (1, 2); (2, 3); (3, 4); (4, 5)] ->
  step fromVersion toVersion w = Returned tt w.
Proof.
  intros H. unfold migrateUserSettingsStep.
  repeat match goal with
         | |- context [(fromVersion =? ?a) && (toVersion =? ?b)] =>
             let E := fresh in
             assert ((fromVersion =? a) && (toVersion =? b) = false) as E;
             [ destruct (Z.eqb_spec fromVersion a) as [->|]; [|reflexivity];
               destruct (Z.eqb_spec toVersion b) as [->|]; [|reflexivity];
               exfalso; apply H; set_solver
             | rewrite E; clear E ]
         end.
  reflexivity.
Qed.

(** Every step other than the one from 2 to 3 changes nothing when it is
    applied again; the step from 2 to 3 changes nothing when it is applied
    again unless the position map it left has a key made of digits. *)
Lemma steps_idempotent (fromVersion : Z) (w w1 : World) :
  step fromVersion (fromVersion + 1) w = Returned tt w1 ->
  fromVersion ≠ 2 \/ hasNumericKeys (store w1 !! "homeBannerPositions") = false ->
  exists w2, step fromVersion (fromVersion + 1) w1 = Returned tt w2 /\ store w2 = store w1.
Proof.
  intros H1 Hcase.
  destruct (decide (fromVersion = 0)) as [->|N0].
  { exists w1. split; reflexivity. }
  destruct (decide (fromVersion = 1)) as [->|N1].
  { now apply (migrate_1_to_2_idempotent _ _ _ w). }
  destruct (decide (fromVersion = 2)) as [->|N2].
  { destruct Hcase as [?|Hnum]; [contradiction|].
    destruct (migrate_2_to_3_idempotent_without_digit_keys _ _ _ w w1 H1 Hnum)
      as (w2 & E & ->).
    now exists w1. }
  destruct (decide (fromVersion = 3)) as [->|N3].
  { now apply (migrate_3_to_4_idempotent _ _ _ w). }
  destruct (decide (fromVersion = 4)) as [->|N4].
  { now apply (migrate_4_to_5_idempotent _ _ _ w). }
  exists w1. split; [|reflexivity]. apply no_step.
  intros Hin. repeat (apply elem_of_cons in Hin as [[= ? ?]|Hin]; [lia|]).
  inversion Hin.
Qed.

End Idempotence.

(** ** [findIndex] *)

Section FindIndex.
Import Js.
Context {A : Type}.
Implicit Types (p q : A -> bool) (l : list A).

Lemma findIndex_range p l : -1 <= findIndex p l < Z.of_nat (length l).
Proof.
  induction l as [|x l IH]; simpl; [lia|].
  destruct (p x); [lia|]. destruct (Z.ltb_spec (findIndex p l) 0); lia.
Qed.

Lemma findIndex_none p l : Forall (fun x => p x = false) l -> findIndex p l = -1.
Proof.
  induction 1 as [|x l Hx _ IH]; simpl; [reflexivity|]. now rewrite Hx, IH.
Qed.

Lemma findIndex_at p l1 x l2 :
  Forall (fun y => p y = false) l1 -> p x = true ->
  findIndex p (l1 ++ x :: l2) = Z.of_nat (length l1).
Proof.
  induction 1 as [|y l1 Hy _ IH]; intros Hx; simpl.
  - now rewrite Hx.
  - rewrite Hy, (IH Hx). destruct (Z.ltb_spec (Z.of_nat (length l1)) 0); lia.
Qed.

(** Either no element satisfies [p], or the list splits at the first one
    that does. *)
Lemma findIndex_cases p l :
  (findIndex p l = -1 /\ Forall (fun x => p x = false) l)
  \/ (exists l1 x l2, l = (l1 ++ x :: l2)%list /\ Forall (fun y => p y = false) l1
                      /\ p x = true /\ findIndex p l = Z.of_nat (length l1)).
Proof.
  induction l as [|x l IH]; simpl; [left; split; [reflexivity | constructor]|].
  destruct (p x) eqn:Hx.
  - right. exists [], x, l. repeat split; [constructor | exact Hx].
  - destruct IH as [[-> Hall]|(l1 & y & l2 & -> & Hl1 & Hy & ->)].
    + left. split; [reflexivity | now constructor].
    + right. exists (x :: l1), y, l2. repeat split; [now constructor | exact Hy|].
      destruct (Z.ltb_spec (Z.of_nat (length l1)) 0); simpl length; lia.
Qed.

Lemma findIndex_app p l1 l2 :
  findIndex p (l1 ++ l2) =
    if 0 <=? findIndex p l1 then findIndex p l1
    else if 0 <=? findIndex p l2 then Z.of_nat (length l1) + findIndex p l2
    else -1.
Proof.
  induction l1 as [|x l1 IH]; simpl.
  - pose proof (findIndex_range p l2). destruct (Z.leb_spec 0 (findIndex p l2)); lia.
  - destruct (p x); [reflexivity|]. rewrite IH.
    pose proof (findIndex_range p l1). pose proof (findIndex_range p l2).
    simpl length.
    repeat match goal with
           | |- context [?a <=? ?b] => destruct (Z.leb_spec a b)
           | |- context [?a <? ?b] => destruct (Z.ltb_spec a b)
           end; lia.
Qed.

Lemma findIndex_imap {B : Type} (q : B -> bool) p (f : nat -> A -> B) l :
  (forall i x, q (f i x) = p x) -> findIndex q (imap f l) = findIndex p l.
Proof.
  revert f. induction l as [|x l IH]; intros f Hf; simpl; [reflexivity|].
  rewrite Hf. rewrite (IH (f ∘ S)); [reflexivity|]. intros i y. apply Hf.
Qed.

(** [find] gives the element at the index [findIndex] gives. *)
Lemma find_findIndex p l :
  List.find p l = arr_at l (findIndex p l).
Proof.
  destruct (findIndex_cases p l) as [[E Hall]|(l1 & x & l2 & -> & Hl1 & Hx & E)]; rewrite E.
  - unfold arr_at. simpl. clear E.
    induction Hall as [|y l Hy _ IH]; simpl; [reflexivity|]. now rewrite Hy.
  - rewrite arr_at_of_nat, list_lookup_middle by reflexivity.
    clear E. induction Hl1 as [|y l1 Hy _ IH]; simpl; [now rewrite Hx | now rewrite Hy].
Qed.

(** Filtering keeps the first element satisfying [p], if it is kept, first;
    in front of it stay the elements in front of it that are kept. *)
Lemma findIndex_filter_kept p (keep : A -> bool) l1 x l2 :
  Forall (fun y => p y = false) l1 -> p x = true -> keep x = true ->
  findIndex p (List.filter keep (l1 ++ x :: l2))
  = Z.of_nat (length (List.filter keep l1)).
Proof.
  intros Hl1 Hx Hk. rewrite List.filter_app. simpl. rewrite Hk.
  apply findIndex_at; [|exact Hx].
  induction Hl1 as [|y l1 Hy _ IH]; simpl; [constructor|].
  destruct (keep y); [now constructor | exact IH].
Qed.

Lemma findIndex_filter_none p (keep : A -> bool) l :
  findIndex p l = -1 -> findIndex p (List.filter keep l) = -1.
Proof.
  intros E. destruct (findIndex_cases p l) as [[_ Hall]|(l1 & ? & ? & _ & _ & _ & E')];
    [|lia].
  apply findIndex_none. clear E.
  induction Hall as [|y l Hy _ IH]; simpl; [constructor|].
  destruct (keep y); [now constructor | exact IH].
Qed.

Lemma findIndex_filter_out p l :
  findIndex p (List.filter (fun x => negb (p x)) l) = -1.
Proof.
  apply findIndex_none. induction l as [|x l IH]; simpl; [constructor|].
  destruct (p x) eqn:Hx; simpl; [exact IH | now constructor].
Qed.

End FindIndex.

(** ** The catalog *)

Section CatalogLayout.
Import Js Data Catalog.

Variable homeBannerMedia : list BannerMedia.
Variable DEFAULT_HOME_BANNER_FILE_NAME : string.
Variable DEFAULT_INFUSION_BACKGROUND_FILE_NAME : string.
Variable url_pathname : string -> option string.
Variable convertFileSrc : string -> string.
Variable builtinBannerImages : list (string * string).
Variable builtinBannerVideos : list (string * string).

Local Abbreviation items := (allMediaItems homeBannerMedia url_pathname).
Local Abbreviation index_of := (normalizedIndex homeBannerMedia DEFAULT_HOME_BANNER_FILE_NAME url_pathname).
Local Abbreviation current := (currentItem homeBannerMedia DEFAULT_HOME_BANNER_FILE_NAME url_pathname).
Local Abbreviation target := (mediaId DEFAULT_HOME_BANNER_FILE_NAME).
Local Abbreviation infusion :=
  (getInfusionMediaFromBackground homeBannerMedia DEFAULT_INFUSION_BACKGROUND_FILE_NAME
     url_pathname convertFileSrc builtinBannerImages builtinBannerVideos).
Local Abbreviation media :=
  (media_of convertFileSrc builtinBannerImages builtinBannerVideos).

Lemma items_length (u : UserSettings) :
  length (items u) = (length (customItems u) + length homeBannerMedia)%nat.
Proof. unfold allMediaItems. now rewrite length_app, !length_imap. Qed.

Lemma items_custom (u : UserSettings) (i : nat) (entry : HomeBannerCustomMediaItem) :
  customItems u !! i = Some entry -> items u !! i = Some (custom_item url_pathname i entry).
Proof.
  intros H. unfold allMediaItems.
  rewrite lookup_app_l by (rewrite length_imap; now apply lookup_lt_Some in H).
  now rewrite list_lookup_imap, H.
Qed.

Lemma items_builtin (u : UserSettings) (i : nat) (data : BannerMedia) :
  homeBannerMedia !! i = Some data ->
  items u !! (length (customItems u) + i)%nat = Some (builtin_item i data).
Proof.
  intros H. unfold allMediaItems.
  rewrite lookup_app_r by (rewrite length_imap; lia).
  rewrite length_imap, list_lookup_imap.
  replace (length (customItems u) + i - length (customItems u))%nat with i by lia.
  now rewrite H.
Qed.

(** C5.  The catalog has one item per custom entry followed by one item per
    builtin entry, each list in its own order; the position key of the item
    at index [i] is the id of the [i]-th custom entry for [i] below the
    number [c] of custom entries, and the file name of the builtin entry at
    [i - c] from there on. *)
Theorem allMediaItems_layout (u : UserSettings) :
  let c := length (customItems u) in
  length (items u) = (c + length homeBannerMedia)%nat /\
  (forall i entry,
      customItems u !! i = Some entry ->
      exists item,
        items u !! i = Some item /\
        (exists fileName type,
            item = custom (Z.of_nat i) (path entry) (id entry) fileName type) /\
        getPositionKey item = id entry) /\
  (forall i data,
      homeBannerMedia !! i = Some data ->
      items u !! (c + i)%nat = Some (builtin (Z.of_nat i) data) /\
      getPositionKey (builtin (Z.of_nat i) data) = fileName data).
Proof.
  split; [apply items_length|]. split.
  - intros i entry H. exists (custom_item url_pathname i entry).
    split; [now apply items_custom|]. split; [|reflexivity].
    unfold custom_item. eexists. eexists. reflexivity.
  - intros i data H. split; [now apply items_builtin | reflexivity].
Qed.

(** *** Resolving the selection *)

Lemma index_of_in_range (u : UserSettings) :
  items u ≠ [] -> 0 <= index_of u < Z.of_nat (length (items u)).
Proof.
  intros Hne. unfold normalizedIndex.
  destruct (items u) as [|x l] eqn:E; [contradiction|].
  set (all := x :: l).
  pose proof (findIndex_range (fun item => String.eqb (getPositionKey item) (target u)) all).
  pose proof (findIndex_range (is_builtin_named DEFAULT_HOME_BANNER_FILE_NAME) all).
  assert (0 < Z.of_nat (length all)) by (simpl; lia).
  repeat match goal with
         | |- context [?a >=? ?b] => destruct (Z.geb_spec a b)
         end; lia.
Qed.

(** C6.  Resolving the selection is total and stays within the catalog.
    The index of the selection is an index of the catalog whenever the
    catalog is not empty, and the current item is [null] exactly when it is
    empty.  An entry whose position key is the stored key is the selection;
    when there is none, the selection is the builtin entry with the default
    file name; when there is none either, the first entry.  The background
    resolver of the infusion follows the same chain with its own default
    file name, and gives the empty url with the type [image] on an empty
    catalog. *)
Theorem resolution_falls_back (u : UserSettings) (background : Background) :
  let by_key (key : string) := fun item => String.eqb (getPositionKey item) key in
  (items u ≠ [] -> 0 <= index_of u < Z.of_nat (length (items u))) /\
  (current u = None <-> items u = []) /\
  current u =
    match List.find (by_key (target u)) (items u) with
    | Some item => Some item
    | None =>
        match List.find (is_builtin_named DEFAULT_HOME_BANNER_FILE_NAME) (items u) with
        | Some item => Some item
        | None => head (items u)
        end
    end /\
  let wanted :=
    match background_mediaId background with
    | Some m => if String.eqb (trim m) "" then DEFAULT_INFUSION_BACKGROUND_FILE_NAME else m
    | None => DEFAULT_INFUSION_BACKGROUND_FILE_NAME
    end in
  infusion u background =
    match List.find (by_key wanted) (items u) with
    | Some item => media item
    | None =>
        match List.find (is_builtin_named DEFAULT_INFUSION_BACKGROUND_FILE_NAME) (items u) with
        | Some item => media item
        | None =>
            match head (items u) with
            | Some item => media item
            | None => ("", image)
            end
        end
    end /\
  (items u = [] -> infusion u background = ("", image)).
Proof.
  cbv zeta.
  set (by_key := fun (key : string) (item : MediaItem) => String.eqb (getPositionKey item) key).
  assert (Hcurrent : current u =
    match List.find (by_key (target u)) (items u) with
    | Some item => Some item
    | None =>
        match List.find (is_builtin_named DEFAULT_HOME_BANNER_FILE_NAME) (items u) with
        | Some item => Some item
        | None => head (items u)
        end
    end).
  { unfold currentItem, normalizedIndex. rewrite !find_findIndex.
    destruct (items u) as [|x l] eqn:E; [reflexivity|].
    set (all := x :: l).
    change (fun item : MediaItem => String.eqb (getPositionKey item) (target u))
      with (by_key (target u)).
    set (found := findIndex (by_key (target u)) all).
    set (fallback := findIndex (is_builtin_named DEFAULT_HOME_BANNER_FILE_NAME) all).
    pose proof (findIndex_range (by_key (target u)) all) as R1.
    pose proof (findIndex_range (is_builtin_named DEFAULT_HOME_BANNER_FILE_NAME) all) as R2.
    fold found in R1. fold fallback in R2.
    destruct (Z.geb_spec found 0) as [G1|G1].
    - destruct (arr_at_in_range all found) as [y Hy]; [lia|]. now rewrite Hy.
    - rewrite (arr_at_out_of_range all found) by lia.
      destruct (Z.geb_spec fallback 0) as [G2|G2].
      + destruct (arr_at_in_range all fallback) as [y Hy]; [lia|]. now rewrite Hy.
      + rewrite (arr_at_out_of_range all fallback) by lia. reflexivity. }
  split; [apply index_of_in_range|]. split; [|split; [exact Hcurrent|]].
  - split.
    + intros Hnone. destruct (items u) as [|x l] eqn:E; [reflexivity|].
      assert (Hne : items u ≠ []) by (rewrite E; discriminate).
      destruct (arr_at_in_range (items u) (index_of u) (index_of_in_range u Hne)) as [y Hy].
      unfold currentItem in Hnone. congruence.
    + intros E. rewrite Hcurrent, E. reflexivity.
  - clear Hcurrent.
    assert (Hinfusion : forall wanted,
      wanted = match background_mediaId background with
               | Some m => if negb (String.eqb (trim m) "") then m
                           else DEFAULT_INFUSION_BACKGROUND_FILE_NAME
               | None => DEFAULT_INFUSION_BACKGROUND_FILE_NAME
               end ->
      infusion u background =
        match List.find (by_key wanted) (items u) with
        | Some item => media item
        | None =>
            match List.find (is_builtin_named DEFAULT_INFUSION_BACKGROUND_FILE_NAME) (items u)
            with
            | Some item => media item
            | None => match head (items u) with
                      | Some item => media item
                      | None => ("", image)
                      end
            end
        end).
    { intros wanted ->. unfold getInfusionMediaFromBackground.
      match goal with
      | |- context [List.find ?f (items u)] => change f with (by_key
          match background_mediaId background with
          | Some m => if negb (String.eqb (trim m) "") then m
                      else DEFAULT_INFUSION_BACKGROUND_FILE_NAME
          | None => DEFAULT_INFUSION_BACKGROUND_FILE_NAME
          end)
      end.
      destruct (List.find (by_key _) (items u)); [reflexivity|].
      destruct (List.find _ (items u)); [reflexivity|].
      unfold arr_at. simpl. destruct (items u); reflexivity. }
    split.
    + apply Hinfusion. destruct (background_mediaId background) as [m|]; [|reflexivity].
      now destruct (String.eqb (trim m) "").
    + intros E. rewrite (Hinfusion _ eq_refl), E. reflexivity.
Qed.

End CatalogLayout.

(** ** Adding custom entries *)

Section AddCustom.
Import Js Data Catalog.

Variable DEFAULT_HOME_BANNER_FILE_NAME : string.
Variable randomUUID : nat -> string.
Variable appStorageHomeBannerMediaPath : option string.
Variable ensure_directory : string -> option unit.
Variable copy_items : list string -> string -> option CopyResult.

Local Abbreviation add_url := (addMediaUrl DEFAULT_HOME_BANNER_FILE_NAME randomUUID).
Local Abbreviation add_files :=
  (addFilesFromPaths DEFAULT_HOME_BANNER_FILE_NAME randomUUID appStorageHomeBannerMediaPath
     ensure_directory copy_items).
Local Abbreviation short_id := (fun n : nat => substring 0 8 (remove_dashes (randomUUID n))).

Lemma existsb_path_false (t : string) (l : list HomeBannerCustomMediaItem) :
  (forall entry, entry ∈ l -> path entry ≠ t) ->
  existsb (fun entry => String.eqb (path entry) t) l = false.
Proof.
  induction l as [|e l IH]; intros H; simpl; [reflexivity|].
  rewrite eqb_string_ne by (apply H; left). apply IH. intros x Hx. apply H. now right.
Qed.

Lemma existsb_path_true (t : string) (l : list HomeBannerCustomMediaItem) (entry : HomeBannerCustomMediaItem) :
  entry ∈ l -> path entry = t ->
  existsb (fun entry => String.eqb (path entry) t) l = true.
Proof.
  intros Hin Hp. apply existsb_exists. exists entry. split.
  - now apply list_elem_of_In.
  - now apply String.eqb_eq.
Qed.

(** The entries made for the copied files: one per source path, in order,
    each with the next id; making them changes no setting. *)
Lemma new_entries_run (destDir : string) (sourcePaths : list string) (st : SettingsStore) :
  snd (new_entries randomUUID destDir sourcePaths st)
  = {| userSettings := userSettings st; saved := saved st;
       uuids := (uuids st + length sourcePaths)%nat |} /\
  length (fst (new_entries randomUUID destDir sourcePaths st)) = length sourcePaths /\
  forall i src, sourcePaths !! i = Some src ->
    fst (new_entries randomUUID destDir sourcePaths st) !! i
    = Some {| path := collapse_slashes
                        (backslashes_to_slashes destDir +:+ "/" +:+ last_path_segment src);
              id := short_id (uuids st + i)%nat |}.
Proof.
  revert st. induction sourcePaths as [|src rest IH]; intros st.
  - simpl. rewrite Nat.add_0_r. destruct st. repeat split. intros ? ? H. inversion H.
  - simpl.
    specialize (IH {| userSettings := userSettings st; saved := saved st;
                      uuids := S (uuids st) |}).
    destruct (new_entries randomUUID destDir rest _) as [more st2] eqn:E.
    simpl in *. destruct IH as (Hst & Hlen & Hnth). split; [|split].
    + rewrite Hst. now rewrite Nat.add_succ_r.
    + now rewrite Hlen.
    + intros [|i] s Hi; simpl in *.
      * injection Hi as ->. now rewrite Nat.add_0_r.
      * rewrite (Hnth i s Hi). now rewrite Nat.add_succ_r.
Qed.

(** C9 (amended).  [addMediaUrl]: when the trimmed URL is not empty, starts
    with [http://] or [https://] and is the path of no custom entry, the
    custom list gets exactly one new entry at its end, with that URL as its
    path and a newly generated id, and that entry becomes the selection;
    when the trimmed URL is the path of some custom entry, or is empty or no
    such URL, nothing happens at all: no setting is written and the store is
    as before.  [addFilesFromPaths]: when a media directory is configured,
    the directory can be ensured and the copy does not report an error, the
    custom list gets one new entry per source path at its end, in the order
    of the source paths, whatever paths the list already holds; the entries
    it held stay as they are. *)
Theorem add_custom_appends (st : SettingsStore) :
  (forall url,
      let trimmedUrl := trim url in
      (trimmedUrl ≠ "" -> isUrl trimmedUrl = true ->
       (forall entry, entry ∈ customItems (userSettings st) -> path entry ≠ trimmedUrl) ->
       let st' := add_url url st in
       let newEntry := {| path := trimmedUrl; id := short_id (uuids st) |} in
       customItems (userSettings st') = (customItems (userSettings st) ++ [newEntry])%list /\
       uuids st' = S (uuids st) /\
       homeBannerMediaId (userSettings st') = Some (id newEntry) /\
       homeBannerIndex (userSettings st')
       = Some (Z.of_nat (length (customItems (userSettings st))))) /\
      ((exists entry, entry ∈ customItems (userSettings st) /\ path entry = trimmedUrl)
       \/ trimmedUrl = "" \/ isUrl trimmedUrl = false ->
       add_url url st = st)) /\
  (forall sourcePaths destDir result,
      appStorageHomeBannerMediaPath = Some destDir -> destDir ≠ "" ->
      ensure_directory destDir = Some tt ->
      copy_items sourcePaths destDir = Some result ->
      success result = true \/ error result = None \/ error result = Some "" ->
      exists st' newEntries,
        add_files sourcePaths st = Returned st' /\
        customItems (userSettings st')
        = (customItems (userSettings st) ++ newEntries)%list /\
        length newEntries = length sourcePaths /\
        forall i src, sourcePaths !! i = Some src ->
          newEntries !! i
          = Some {| path := collapse_slashes
                              (backslashes_to_slashes destDir +:+ "/" +:+ last_path_segment src);
                    id := short_id (uuids st + i)%nat |}) /\
  (forall sourcePaths,
      appStorageHomeBannerMediaPath = None \/ appStorageHomeBannerMediaPath = Some "" ->
      add_files sourcePaths st = Returned st) /\
  (forall sourcePaths destDir result message,
      sourcePaths ≠ [] ->
      appStorageHomeBannerMediaPath = Some destDir -> destDir ≠ "" ->
      ensure_directory destDir = Some tt ->
      copy_items sourcePaths destDir = Some result ->
      success result = false -> error result = Some message -> message ≠ "" ->
      add_files sourcePaths st = Thrown st).
Proof.
  split; [|split; [|split]].
  - intros url trimmedUrl. split.
    + intros Hne Hurl Hfresh st' newEntry. subst st'. unfold addMediaUrl.
      fold trimmedUrl. rewrite eqb_string_ne by exact Hne. rewrite Hurl. simpl.
      rewrite (existsb_path_false _ _ Hfresh). simpl.
      split; [reflexivity|]. split; [reflexivity|]. split; [|reflexivity].
      rewrite arr_at_of_nat, list_lookup_middle by reflexivity. reflexivity.
    + intros Hcase. unfold addMediaUrl. fold trimmedUrl.
      destruct Hcase as [(entry & Hin & Hpath)|[->| ->]].
      * rewrite (existsb_path_true _ _ entry Hin Hpath).
        now destruct (String.eqb trimmedUrl "" || negb (isUrl trimmedUrl))%bool.
      * reflexivity.
      * simpl. now rewrite orb_true_r.
  - intros sourcePaths destDir result Hdir Hne Hensure Hcopy Hok.
    destruct (new_entries_run destDir sourcePaths st) as (Hst & Hlen & Hnth).
    destruct sourcePaths as [|src rest].
    { exists st, []. split; [reflexivity|]. split; [now rewrite app_nil_r|].
      split; [reflexivity|]. intros ? ? H. inversion H. }
    set (sourcePaths := src :: rest) in *.
    unfold addFilesFromPaths. fold sourcePaths.
    change (match sourcePaths with [] => ?a | _ :: _ => ?b end) with b.
    rewrite Hdir, (eqb_string_ne _ _ Hne), Hensure, Hcopy.
    assert (Hfail : (negb (success result)
                     && match error result with
                        | Some e => negb (String.eqb e "")
                        | None => false
                        end)%bool = false).
    { destruct Hok as [-> |[-> | ->]]; [reflexivity | | ]; now rewrite andb_false_r. }
    rewrite Hfail.
    destruct (new_entries randomUUID destDir sourcePaths st) as [newEntries st1] eqn:E.
    simpl in Hst, Hlen, Hnth. subst st1. cbn [userSettings].
    assert (Hnew : exists e more, newEntries = e :: more).
    { destruct newEntries as [|e more]; [discriminate | now exists e, more]. }
    destruct Hnew as (e & more & Hnew).
    assert (Hat : arr_at (customItems (userSettings st) ++ newEntries)%list
                    (Z.of_nat (length (customItems (userSettings st)))) = Some e).
    { rewrite arr_at_of_nat, Hnew. now apply list_lookup_middle. }
    rewrite Hat.
    destruct (customItems (userSettings st) ++ newEntries)%list as [|x l] eqn:Happ.
    { rewrite Hnew in Happ. now destruct (customItems (userSettings st)). }
    eexists. exists newEntries. split; [reflexivity|].
    split; [simpl; now rewrite Happ|]. split; [exact Hlen | exact Hnth].
  - intros sourcePaths Hdir. unfold addFilesFromPaths.
    destruct sourcePaths; [reflexivity|]. now destruct Hdir as [-> | ->].
  - intros sourcePaths destDir result message Hpaths Hdir Hne Hensure Hcopy Hfailed Herror Hmsg.
    unfold addFilesFromPaths. destruct sourcePaths as [|src rest]; [contradiction|].
    rewrite Hdir, (eqb_string_ne _ _ Hne), Hensure, Hcopy, Hfailed, Herror.
    now rewrite (eqb_string_ne _ _ Hmsg).
Qed.

End AddCustom.

(** A URL that is new is appended, and two files are appended in order. *)
Lemma add_custom_appends_witness :
  Catalog.customItems
    (Catalog.userSettings
       (Catalog.addMediaUrl Samples.default_file Samples.uuid_stream
          "  https://example.org/sky.webm " Samples.store_two))
  = [Samples.item_a; Samples.item_b;
     {| Catalog.path := "https://example.org/sky.webm"; Catalog.id := "12345678" |}]
  /\ exists st' newEntries,
      Catalog.addFilesFromPaths Samples.default_file Samples.uuid_stream
        Samples.media_directory Samples.ensure_directory Samples.copy_items
        ["D:\photos\a.jpg"; "D:\photos\a.jpg"] Samples.store_two = Catalog.Returned st' /\
      Catalog.customItems (Catalog.userSettings st')
      = ([Samples.item_a; Samples.item_b] ++ newEntries)%list /\
      length newEntries = 2%nat.
Proof.
  destruct (add_custom_appends Samples.default_file Samples.uuid_stream
              Samples.media_directory Samples.ensure_directory Samples.copy_items
              Samples.store_two) as (Hurl & Hfiles & _).
  split.
  - destruct (Hurl "  https://example.org/sky.webm ") as (Happend & _).
    destruct Happend as (Hlist & _); [discriminate | reflexivity | |exact Hlist].
    intros entry Hin. apply list_elem_of_In in Hin.
    destruct Hin as [<-|[<-|[]]]; discriminate.
  - destruct (Hfiles ["D:\photos\a.jpg"; "D:\photos\a.jpg"] "C:\data\banner"
                {| Catalog.success := true; Catalog.error := None |})
      as (st' & newEntries & E & Hlist & Hlen & _); try reflexivity; [discriminate | now left|].
    exists st', newEntries. split; [exact E|]. split; [exact Hlist | exact Hlen].
Defined.

(** C9, as stated, fails: a string that is the path of no custom entry is
    not appended when it is no [http] or [https] URL. *)
Lemma addMediaUrl_ignores_other_strings :
  let url := "ftp://example.org/sky.webm" in
  let st' := Catalog.addMediaUrl Samples.default_file Samples.uuid_stream url Samples.store_two in
  (forall entry, entry ∈ Catalog.customItems (Catalog.userSettings Samples.store_two) ->
                 Catalog.path entry ≠ Js.trim url) /\
  ~ (exists newEntry,
        Catalog.customItems (Catalog.userSettings st')
        = (Catalog.customItems (Catalog.userSettings Samples.store_two) ++ [newEntry])%list).
Proof.
  split.
  - intros entry Hin. apply list_elem_of_In in Hin.
    destruct Hin as [<-|[<-|[]]]; discriminate.
  - intros (newEntry & H). vm_compute in H. discriminate.
Qed.

(** ** Removing a custom entry *)

Section RemoveCustom.
Import Js Data Catalog.

Variable homeBannerMedia : list BannerMedia.
Variable DEFAULT_HOME_BANNER_FILE_NAME : string.
Variable url_pathname : string -> option string.

Local Abbreviation items := (allMediaItems homeBannerMedia url_pathname).
Local Abbreviation index_of :=
  (normalizedIndex homeBannerMedia DEFAULT_HOME_BANNER_FILE_NAME url_pathname).
Local Abbreviation current :=
  (currentItem homeBannerMedia DEFAULT_HOME_BANNER_FILE_NAME url_pathname).
Local Abbreviation target := (mediaId DEFAULT_HOME_BANNER_FILE_NAME).
Local Abbreviation remove :=
  (removeCustomMedia homeBannerMedia DEFAULT_HOME_BANNER_FILE_NAME url_pathname).
Local Abbreviation has_id t :=
  (fun entry : HomeBannerCustomMediaItem => String.eqb (id entry) t).
Local Abbreviation named t := (fun data : BannerMedia => String.eqb (fileName data) t).
Local Abbreviation at_path p :=
  (fun entry : HomeBannerCustomMediaItem => String.eqb (path entry) p).
Local Abbreviation not_at_path p :=
  (fun entry : HomeBannerCustomMediaItem => negb (String.eqb (path entry) p)).

Lemma findIndex_never {A : Type} (l : list A) : findIndex (fun _ => false) l = -1.
Proof. apply findIndex_none. induction l; constructor; auto. Qed.

Lemma filter_lengths {A : Type} (q : A -> bool) (l : list A) :
  (length (List.filter (fun x => negb (q x)) l) + length (List.filter q l))%nat = length l.
Proof.
  induction l as [|x l IH]; simpl; [reflexivity|]. destruct (q x); simpl; lia.
Qed.

(** The index of the selection in terms of the custom list, the manifest
    and the stored key. *)
Lemma index_of_formula (u : UserSettings) :
  let c := Z.of_nat (length (customItems u)) in
  let in_custom := findIndex (has_id (target u)) (customItems u) in
  let in_builtin := findIndex (named (target u)) homeBannerMedia in
  let default := findIndex (named DEFAULT_HOME_BANNER_FILE_NAME) homeBannerMedia in
  index_of u =
    if 0 <=? in_custom then in_custom
    else if 0 <=? in_builtin then c + in_builtin
    else if 0 <=? default then c + default
    else 0.
Proof.
  intros c in_custom in_builtin default.
  assert (Hkey : findIndex (fun item => String.eqb (getPositionKey item) (target u)) (items u)
                 = if 0 <=? in_custom then in_custom
                   else if 0 <=? in_builtin then c + in_builtin else -1).
  { unfold allMediaItems. rewrite findIndex_app, length_imap.
    rewrite (findIndex_imap _ (has_id (target u))) by reflexivity.
    rewrite (findIndex_imap _ (named (target u))) by reflexivity.
    reflexivity. }
  assert (Hdefault : findIndex (is_builtin_named DEFAULT_HOME_BANNER_FILE_NAME) (items u)
                     = if 0 <=? default then c + default else -1).
  { unfold allMediaItems. rewrite findIndex_app, length_imap.
    rewrite (findIndex_imap _ (fun _ => false)) by reflexivity.
    rewrite (findIndex_imap _ (named DEFAULT_HOME_BANNER_FILE_NAME)) by reflexivity.
    rewrite findIndex_never. reflexivity. }
  pose proof (findIndex_range (has_id (target u)) (customItems u)) as R1.
  pose proof (findIndex_range (named (target u)) homeBannerMedia) as R2.
  pose proof (findIndex_range (named DEFAULT_HOME_BANNER_FILE_NAME) homeBannerMedia) as R3.
  fold in_custom in R1. fold in_builtin in R2. fold default in R3.
  unfold normalizedIndex. rewrite Hkey, Hdefault.
  destruct (items u) as [|x l] eqn:E.
  - pose proof (items_length homeBannerMedia url_pathname u) as Hlen.
    rewrite E in Hlen. simpl in Hlen.
    repeat match goal with
           | |- context [?a <=? ?b] => destruct (Z.leb_spec a b)
           end; lia.
  - repeat match goal with
           | |- context [?a <=? ?b] => destruct (Z.leb_spec a b)
           | |- context [?a >=? ?b] => destruct (Z.geb_spec a b)
           end; lia.
Qed.

(** The position key of the item at an index of the catalog, the way
    [removeCustomMedia] computes it. *)
Lemma key_at_index (u : UserSettings) (i : Z) (item : MediaItem) :
  arr_at (items u) i = Some item ->
  getPositionKey item =
    if i <? Z.of_nat (length (customItems u)) then
      match arr_at (customItems u) i with
      | Some entry => id entry
      | None => DEFAULT_HOME_BANNER_FILE_NAME
      end
    else
      match arr_at homeBannerMedia (i - Z.of_nat (length (customItems u))) with
      | Some data => fileName data
      | None => DEFAULT_HOME_BANNER_FILE_NAME
      end.
Proof.
  intros Hitem. pose proof (arr_at_Some _ _ _ Hitem) as Hrange.
  rewrite items_length in Hrange.
  replace i with (Z.of_nat (Z.to_nat i)) in Hitem |- * by lia.
  rewrite arr_at_of_nat in Hitem. unfold allMediaItems in Hitem.
  destruct (Z.ltb_spec (Z.of_nat (Z.to_nat i)) (Z.of_nat (length (customItems u)))) as [Hlt|Hge].
  - rewrite lookup_app_l in Hitem by (rewrite length_imap; lia).
    rewrite list_lookup_imap in Hitem. rewrite arr_at_of_nat.
    destruct (customItems u !! Z.to_nat i); [|discriminate].
    now injection Hitem as <-.
  - rewrite lookup_app_r in Hitem by (rewrite length_imap; lia).
    rewrite length_imap, list_lookup_imap in Hitem.
    replace (Z.of_nat (Z.to_nat i) - Z.of_nat (length (customItems u)))
      with (Z.of_nat (Z.to_nat i - length (customItems u))) by lia.
    rewrite arr_at_of_nat.
    destruct (homeBannerMedia !! (Z.to_nat i - length (customItems u))%nat); [|discriminate].
    now injection Hitem as <-.
Qed.

(** After the filtered list has been set, no item of the catalog is a
    custom entry with the removed path. *)
Lemma no_item_at_path (u : UserSettings) (p : string) :
  Forall (fun entry => at_path p entry = false) (customItems u) ->
  findIndex (is_custom_at p) (items u) = -1.
Proof.
  intros H. unfold allMediaItems. rewrite findIndex_app.
  rewrite (findIndex_imap _ (at_path p)) by reflexivity.
  rewrite (findIndex_imap _ (fun _ => false)) by reflexivity.
  rewrite findIndex_never, (findIndex_none _ _ H). reflexivity.
Qed.

Lemma filter_not_at_path (p : string) (l : list HomeBannerCustomMediaItem) :
  Forall (fun entry => at_path p entry = false) (List.filter (not_at_path p) l).
Proof.
  induction l as [|e l IH]; simpl; [constructor|].
  destruct (String.eqb (path e) p) eqn:E; simpl; [exact IH | now constructor].
Qed.

(** What [removeCustomMedia] does, in terms of the settings [u2] as they
    are when the selection is read: the filtered list is set, the saved
    position of the first removed entry is gone, the rest is as before. *)
Lemma remove_run (p : string) (st : SettingsStore) :
  let u := userSettings st in
  let kept := List.filter (not_at_path p) (customItems u) in
  exists u2,
    customItems u2 = kept /\
    homeBannerMediaId u2 = homeBannerMediaId u /\
    (forall entry,
        List.find (at_path p) (customItems u) = Some entry ->
        forall key,
          (homeBannerPositions u2 ≫= fun saved => saved !! key)
          = if decide (key = id entry) then None
            else homeBannerPositions u ≫= fun saved => saved !! key) /\
    let newIndex := Z.min (Z.max 0 (index_of u2)) (Z.of_nat (length (items u2)) - 1) in
    let resolved :=
      match arr_at (items u2) newIndex with
      | Some item => getPositionKey item
      | None => DEFAULT_HOME_BANNER_FILE_NAME
      end in
    userSettings (remove p st) =
      {| homeBannerCustomMedia := Some kept;
         homeBannerMediaId := Some resolved;
         homeBannerIndex := Some newIndex;
         homeBannerPositions := homeBannerPositions u2 |}.
Proof.
  intros u kept. unfold removeCustomMedia. fold u. fold kept.
  set (st1 := userSettingsStore_set (SetHomeBannerCustomMedia kept) st).
  set (st2 := match List.find (at_path p) (customItems u),
                    homeBannerPositions (userSettings st1) with
              | Some entry, Some saved_positions =>
                  match saved_positions !! id entry with
                  | Some _ =>
                      userSettingsStore_set
                        (SetHomeBannerPositions (delete (id entry) saved_positions)) st1
                  | None => st1
                  end
              | _, _ => st1
              end).
  exists (userSettings st2).
  assert (Hcustom : customItems (userSettings st2) = kept).
  { unfold st2. destruct (List.find _ _) as [entry|]; [|reflexivity].
    destruct (homeBannerPositions (userSettings st1)) as [ps|]; [|reflexivity].
    destruct (ps !! id entry); reflexivity. }
  assert (Hmedia : homeBannerMediaId (userSettings st2) = homeBannerMediaId u).
  { unfold st2. destruct (List.find _ _) as [entry|]; [|reflexivity].
    destruct (homeBannerPositions (userSettings st1)) as [ps|]; [|reflexivity].
    destruct (ps !! id entry); reflexivity. }
  split; [exact Hcustom|]. split; [exact Hmedia|]. split.
  - intros entry Hfind key. unfold st2. rewrite Hfind.
    change (homeBannerPositions (userSettings st1)) with (homeBannerPositions u).
    destruct (homeBannerPositions u) as [ps|] eqn:Hps; simpl.
    + destruct (ps !! id entry) eqn:Hsaved; simpl.
      * destruct (decide (key = id entry)) as [->|Hne].
        -- apply lookup_delete_eq.
        -- now apply lookup_delete_ne.
      * change (homeBannerPositions u) with (homeBannerPositions (userSettings st)) in Hps.
        rewrite Hps. simpl.
        destruct (decide (key = id entry)) as [->|Hne]; [exact Hsaved | reflexivity].
    + change (homeBannerPositions u) with (homeBannerPositions (userSettings st)) in Hps.
      rewrite Hps. simpl. now destruct (decide (key = id entry)).
  - cbv zeta. fold st1. fold st2.
    rewrite (no_item_at_path (userSettings st2) p)
      by (rewrite Hcustom; apply filter_not_at_path).
    change (-1 >=? 0) with false. cbn [andb].
    assert (Hafter : Z.of_nat (length kept) + builtinCount homeBannerMedia
                     = Z.of_nat (length (items (userSettings st2)))).
    { rewrite items_length, Hcustom. unfold builtinCount. lia. }
    rewrite Hafter.
    set (newIndex := Z.min (Z.max 0 (index_of (userSettings st2)))
                           (Z.of_nat (length (items (userSettings st2))) - 1)).
    assert (Hresolved :
      (if Z.of_nat (length (items (userSettings st2))) >? 0 then
         if newIndex <? Z.of_nat (length kept) then
           match arr_at kept newIndex with
           | Some entry => id entry
           | None => DEFAULT_HOME_BANNER_FILE_NAME
           end
         else
           match arr_at homeBannerMedia (newIndex - Z.of_nat (length kept)) with
           | Some media => fileName media
           | None => DEFAULT_HOME_BANNER_FILE_NAME
           end
       else DEFAULT_HOME_BANNER_FILE_NAME)
      = match arr_at (items (userSettings st2)) newIndex with
        | Some item => getPositionKey item
        | None => DEFAULT_HOME_BANNER_FILE_NAME
        end).
    { destruct (arr_at (items (userSettings st2)) newIndex) as [item|] eqn:Hitem.
      - pose proof (arr_at_Some _ _ _ Hitem) as Hrange.
        rewrite (key_at_index _ _ _ Hitem), Hcustom.
        destruct (Z.gtb_spec (Z.of_nat (length (items (userSettings st2)))) 0); [reflexivity|lia].
      - destruct (Z.gtb_spec (Z.of_nat (length (items (userSettings st2)))) 0) as [Hpos|];
          [|reflexivity].
        destruct (arr_at_in_range (items (userSettings st2)) newIndex) as [x Hx];
          [unfold newIndex; lia | congruence]. }
    rewrite Hresolved. simpl.
    unfold st2. destruct (List.find _ _) as [entry|]; [|reflexivity].
    change (homeBannerPositions (userSettings st1)) with (homeBannerPositions u).
    destruct (homeBannerPositions u) as [ps|]; [|reflexivity].
    destruct (ps !! id entry); reflexivity.
Qed.


Lemma target_same (u u2 : UserSettings) :
  homeBannerMediaId u2 = homeBannerMediaId u -> target u2 = target u.
Proof. intros H. unfold mediaId. now rewrite H. Qed.

Lemma arr_at_items_custom (u : UserSettings) (l1 l2 : list HomeBannerCustomMediaItem)
    (entry : HomeBannerCustomMediaItem) :
  customItems u = (l1 ++ entry :: l2)%list ->
  arr_at (items u) (Z.of_nat (length l1))
  = Some (custom_item url_pathname (length l1) entry).
Proof.
  intros H. rewrite arr_at_of_nat. apply items_custom. rewrite H.
  now apply list_lookup_middle.
Qed.

Lemma arr_at_items_builtin (u : UserSettings) (n : nat) :
  arr_at (items u) (Z.of_nat (length (customItems u)) + Z.of_nat n)
  = builtin_item n <$> homeBannerMedia !! n.
Proof.
  replace (Z.of_nat (length (customItems u)) + Z.of_nat n)
    with (Z.of_nat (length (customItems u) + n)) by lia.
  rewrite arr_at_of_nat. unfold allMediaItems.
  rewrite lookup_app_r by (rewrite length_imap; lia).
  rewrite length_imap, list_lookup_imap.
  replace (length (customItems u) + n - length (customItems u))%nat with n by lia.
  reflexivity.
Qed.

(** The selection stays on its entry when that entry is kept: after the
    filtered list has been set, the selection has the same position key,
    and its index is lower by the number of removed entries in front. *)
Lemma kept_selection (u u2 : UserSettings) (p : string) (item : MediaItem) :
  customItems u2 = List.filter (not_at_path p) (customItems u) ->
  homeBannerMediaId u2 = homeBannerMediaId u ->
  current u = Some item -> is_custom_at p item = false ->
  exists item2,
    arr_at (items u2) (index_of u2) = Some item2 /\
    getPositionKey item2 = getPositionKey item /\
    index_of u2
    = index_of u
      - Z.of_nat (length (List.filter (at_path p)
                            (take (Z.to_nat (index_of u)) (customItems u)))).
Proof.
  intros Hkept Hmedia Hcurrent Hitem. unfold currentItem in Hcurrent.
  pose proof (index_of_formula u) as Hu. pose proof (index_of_formula u2) as Hu2.
  cbv zeta in Hu, Hu2. rewrite (target_same _ _ Hmedia), Hkept in Hu2.
  set (t := target u) in *.
  pose proof (filter_lengths (at_path p) (customItems u)) as Hlens.
  pose proof (findIndex_range (named t) homeBannerMedia) as Rb.
  pose proof (findIndex_range (named DEFAULT_HOME_BANNER_FILE_NAME) homeBannerMedia) as Rd.
  destruct (findIndex_cases (has_id t) (customItems u))
    as [[Enone Hall]|(l1 & entry & l2 & Hsplit & Hl1 & Hentry & Efound)].
  - rewrite (findIndex_filter_none _ (not_at_path p) _ Enone) in Hu2. rewrite Enone in Hu.
    change (0 <=? -1) with false in Hu, Hu2. cbv iota in Hu, Hu2.
    set (in_builtin := findIndex (named t) homeBannerMedia) in *.
    set (default := findIndex (named DEFAULT_HOME_BANNER_FILE_NAME) homeBannerMedia) in *.
    assert (Hoffset : forall n : nat, (n < length homeBannerMedia)%nat ->
              index_of u = Z.of_nat (length (customItems u)) + Z.of_nat n ->
              index_of u2
              = Z.of_nat (length (List.filter (not_at_path p) (customItems u))) + Z.of_nat n ->
              exists item2,
                arr_at (items u2) (index_of u2) = Some item2 /\
                getPositionKey item2 = getPositionKey item /\
                index_of u2
                = index_of u
                  - Z.of_nat (length (List.filter (at_path p)
                                        (take (Z.to_nat (index_of u)) (customItems u))))).
    { intros n Hn E1 E2. rewrite E1 in Hcurrent.
      rewrite arr_at_items_builtin in Hcurrent.
      destruct (homeBannerMedia !! n) as [data|] eqn:Hdata; [|discriminate].
      injection Hcurrent as <-.
      exists (builtin_item n data). split; [|split].
      - rewrite E2, <- Hkept, arr_at_items_builtin. now rewrite Hdata.
      - reflexivity.
      - rewrite E1, E2. rewrite take_ge by lia. lia. }
    destruct (Z.leb_spec 0 in_builtin) as [Hb|Hb]; [apply (Hoffset (Z.to_nat in_builtin)); lia|].
    destruct (Z.leb_spec 0 default) as [Hd|Hd]; [apply (Hoffset (Z.to_nat default)); lia|].
    rewrite Hu in Hcurrent. rewrite Hu, Hu2. change (Z.to_nat 0) with 0%nat.
    rewrite take_0. simpl List.filter. simpl length. rewrite Z.sub_0_r.
    clear Hu Hu2 Hoffset Hlens Enone Hall.
    unfold allMediaItems in *. rewrite Hkept.
    destruct (customItems u) as [|e0 rest] eqn:Hcs.
    + exists item. split; [exact Hcurrent | split; reflexivity].
    + unfold arr_at in Hcurrent. simpl in Hcurrent. injection Hcurrent as <-.
      simpl in Hitem.
      exists (custom_item url_pathname 0 e0). split; [|split; reflexivity].
      simpl. rewrite Hitem. reflexivity.
  - pose proof (findIndex_filter_kept (has_id t) (not_at_path p) l1 entry l2 Hl1 Hentry)
      as Efound2.
    rewrite Efound in Hu. rewrite Hsplit in Hu2.
    assert ((0 <=? Z.of_nat (length l1)) = true) as Hpos by lia.
    rewrite Hpos in Hu. rewrite Hu in Hcurrent.
    rewrite (arr_at_items_custom u l1 l2 entry Hsplit) in Hcurrent.
    injection Hcurrent as <-. simpl in Hitem.
    assert (Hkeep : not_at_path p entry = true) by now rewrite Hitem.
    rewrite (Efound2 Hkeep) in Hu2.
    assert ((0 <=? Z.of_nat (length (List.filter (not_at_path p) l1))) = true) as Hpos2 by lia.
    rewrite Hpos2 in Hu2.
    exists (custom_item url_pathname (length (List.filter (not_at_path p) l1)) entry).
    split; [|split].
    + rewrite Hu2.
      apply (arr_at_items_custom u2 _ (List.filter (not_at_path p) l2)).
      rewrite Hkept, Hsplit, List.filter_app. simpl. now rewrite Hkeep.
    + reflexivity.
    + rewrite Hu2, Hu, Nat2Z.id, Hsplit.
      rewrite take_app_length.
      pose proof (filter_lengths (at_path p) l1). lia.
Qed.

Lemma items_same (u u2 : UserSettings) :
  customItems u2 = customItems u -> items u2 = items u.
Proof. intros H. unfold allMediaItems. now rewrite H. Qed.

(** An item of the catalog that is a custom entry with path [p] sits at the
    index of such an entry of the custom list. *)
Lemma item_at_path (u : UserSettings) (p : string) (i : nat) (item : MediaItem) :
  items u !! i = Some item -> is_custom_at p item = true ->
  exists entry, customItems u !! i = Some entry /\ path entry = p.
Proof.
  intros Hitem Hp. unfold allMediaItems in Hitem.
  apply lookup_app_Some in Hitem as [Hitem|[_ Hitem]];
    rewrite list_lookup_imap in Hitem.
  - destruct (customItems u !! i) as [entry|]; [|discriminate].
    injection Hitem as <-. exists entry. split; [reflexivity|].
    now apply String.eqb_eq.
  - destruct (homeBannerMedia !! _); [|discriminate]. injection Hitem as <-. discriminate.
Qed.

Lemma count_unique {A : Type} (q : A -> bool) (l : list A) (j k : nat) (x : A) :
  l !! j = Some x -> q x = true ->
  (forall i y, l !! i = Some y -> q y = true -> i = j) ->
  (j < k)%nat ->
  length (List.filter q (take k l)) = 1%nat.
Proof.
  revert j k. induction l as [|a l IH]; intros j k Hj Hx Huniq Hjk; [discriminate|].
  destruct k as [|k]; [lia|]. simpl.
  destruct j as [|j]; simpl in Hj.
  - injection Hj as ->. rewrite Hx. simpl. f_equal.
    assert (Hnone : forall n, List.filter q (take n l) = []).
    { intros n. assert (Hall : Forall (fun y => q y = false) (take n l)).
      { apply Forall_forall. intros y Hy.
        apply list_elem_of_lookup in Hy as [i Hi]. apply lookup_take_Some in Hi as [Hi _].
        destruct (q y) eqn:Hq; [|reflexivity].
        specialize (Huniq (S i) y Hi Hq). discriminate. }
      induction Hall as [|y l0 Hy _ IH0]; simpl; [reflexivity|]. now rewrite Hy. }
    now rewrite Hnone.
  - destruct (q a) eqn:Ha; [specialize (Huniq 0%nat a eq_refl Ha); discriminate|].
    apply (IH j k Hj Hx); [|lia].
    intros i y Hi Hq. specialize (Huniq (S i) y Hi Hq). lia.
Qed.

(** C3 (amended).  [removeCustomMedia] with a path removes every custom
    entry with that path and deletes the saved position of the first of
    them, leaving the other saved positions alone.  It writes
    [homeBannerIndex] and [homeBannerMediaId]; when the catalog is not empty
    afterwards, the index written is an index of it and the key written is
    the position key of the entry there; when it is empty, the key written
    is the default file name.  When the selected entry is not among the
    removed ones, the selection stays on it: the key written is its position
    key and the index written is its old index less the number of removed
    entries in front of it.  In particular, when exactly one custom entry
    has the path and it sits at an index [j] below the index [k] of the
    selection, the index written is [k - 1]. *)
Theorem removeCustomMedia_reanchors (p : string) (st : SettingsStore) :
  let u := userSettings st in
  let u' := userSettings (remove p st) in
  customItems u' = List.filter (not_at_path p) (customItems u) /\
  (forall entry,
      List.find (at_path p) (customItems u) = Some entry ->
      forall key,
        (homeBannerPositions u' ≫= fun saved => saved !! key)
        = if decide (key = id entry) then None
          else homeBannerPositions u ≫= fun saved => saved !! key) /\
  (exists newIndex key,
      homeBannerIndex u' = Some newIndex /\ homeBannerMediaId u' = Some key /\
      (items u' ≠ [] ->
       exists item, arr_at (items u') newIndex = Some item /\ getPositionKey item = key) /\
      (items u' = [] -> key = DEFAULT_HOME_BANNER_FILE_NAME)) /\
  (forall item,
      current u = Some item -> is_custom_at p item = false ->
      homeBannerMediaId u' = Some (getPositionKey item) /\
      homeBannerIndex u'
      = Some (index_of u
              - Z.of_nat (length (List.filter (at_path p)
                                    (take (Z.to_nat (index_of u)) (customItems u)))))) /\
  (forall j entry,
      customItems u !! j = Some entry -> path entry = p ->
      (forall i other, customItems u !! i = Some other -> path other = p -> i = j) ->
      Z.of_nat j < index_of u ->
      homeBannerIndex u' = Some (index_of u - 1) /\
      exists item, current u = Some item /\ homeBannerMediaId u' = Some (getPositionKey item)).
Proof.
  intros u u'.
  destruct (remove_run p st) as (u2 & Hkept & Hmedia & Hpositions & Hfinal).
  fold u in Hkept, Hmedia, Hpositions. cbv zeta in Hfinal. fold u' in Hfinal.
  assert (Hcustom' : customItems u' = List.filter (not_at_path p) (customItems u))
    by now rewrite Hfinal.
  assert (Hitems : items u' = items u2)
    by (apply items_same; now rewrite Hcustom', Hkept).
  assert (Hstay : forall item,
      current u = Some item -> is_custom_at p item = false ->
      homeBannerMediaId u' = Some (getPositionKey item) /\
      homeBannerIndex u'
      = Some (index_of u
              - Z.of_nat (length (List.filter (at_path p)
                                    (take (Z.to_nat (index_of u)) (customItems u)))))).
  { intros item Hcurrent Hitem.
    destruct (kept_selection u u2 p item Hkept Hmedia Hcurrent Hitem)
      as (item2 & Hat & Hkey & Hindex).
    pose proof (arr_at_Some _ _ _ Hat) as Hrange.
    assert (Hclamp : Z.min (Z.max 0 (index_of u2)) (Z.of_nat (length (items u2)) - 1)
                     = index_of u2) by lia.
    rewrite Hfinal, Hclamp, Hat. simpl. now rewrite Hkey, Hindex. }
  split; [exact Hcustom'|]. split; [|split; [|split; [exact Hstay|]]].
  - intros entry Hfind key. rewrite <- (Hpositions entry Hfind key). now rewrite Hfinal.
  - exists (Z.min (Z.max 0 (index_of u2)) (Z.of_nat (length (items u2)) - 1)).
    exists (match arr_at (items u2)
                    (Z.min (Z.max 0 (index_of u2)) (Z.of_nat (length (items u2)) - 1)) with
            | Some item => getPositionKey item
            | None => DEFAULT_HOME_BANNER_FILE_NAME
            end).
    split; [now rewrite Hfinal|]. split; [now rewrite Hfinal|].
    rewrite Hitems. split.
    + intros Hne. pose proof (index_of_in_range homeBannerMedia DEFAULT_HOME_BANNER_FILE_NAME
                                url_pathname u2 Hne) as Hrange.
      destruct (arr_at_in_range (items u2)
                  (Z.min (Z.max 0 (index_of u2)) (Z.of_nat (length (items u2)) - 1)))
        as [item Hitem]; [lia|].
      exists item. split; [exact Hitem|]. now rewrite Hitem.
    + intros ->. unfold arr_at. now destruct (_ <? 0).
  - intros j entry Hj Hpath Huniq Hjk.
    assert (Hne : items u ≠ []).
    { intros E. pose proof (items_length homeBannerMedia url_pathname u) as Hlen.
      rewrite E in Hlen. apply lookup_lt_Some in Hj. simpl in Hlen. lia. }
    pose proof (index_of_in_range homeBannerMedia DEFAULT_HOME_BANNER_FILE_NAME
                  url_pathname u Hne) as Hrange.
    destruct (arr_at_in_range (items u) (index_of u) Hrange) as [item Hitem].
    assert (Hnot : is_custom_at p item = false).
    { destruct (is_custom_at p item) eqn:E; [|reflexivity].
      replace (index_of u) with (Z.of_nat (Z.to_nat (index_of u))) in Hitem by lia.
      rewrite arr_at_of_nat in Hitem.
      destruct (item_at_path u p _ item Hitem E) as (other & Hother & Hp).
      specialize (Huniq _ other Hother Hp). lia. }
    destruct (Hstay item Hitem Hnot) as (Hkey & Hindex).
    split; [|exists item; split; [exact Hitem | exact Hkey]].
    rewrite Hindex.
    rewrite (count_unique (at_path p) (customItems u) j (Z.to_nat (index_of u)) entry Hj).
    + reflexivity.
    + now apply String.eqb_eq.
    + intros i y Hi Hq. apply (Huniq i y Hi). now apply String.eqb_eq.
    + lia.
Qed.

End RemoveCustom.

(** ** The catalog on concrete settings *)

Section CatalogExamples.
Import Js Data Catalog Samples.

Local Abbreviation items := (allMediaItems manifest url_pathname).
Local Abbreviation index_of := (normalizedIndex manifest default_file url_pathname).
Local Abbreviation current := (currentItem manifest default_file url_pathname).
Local Abbreviation remove := (removeCustomMedia manifest default_file url_pathname).

(** Two custom entries and two builtin entries: four items, the second
    custom entry at index 1 and the second builtin entry at index 3. *)
Lemma allMediaItems_layout_witness :
  length (items (userSettings store_two)) = 4%nat /\
  (exists item, items (userSettings store_two) !! 1%nat = Some item
                /\ getPositionKey item = "bbbb2222") /\
  items (userSettings store_two) !! 3%nat
  = Some (builtin 1 {| fileName := "default.jpg"; name := "Default"; type := image |}).
Proof.
  destruct (allMediaItems_layout manifest url_pathname (userSettings store_two))
    as (Hlen & Hcustom & Hbuiltin).
  split; [exact Hlen|]. split.
  - destruct (Hcustom 1%nat item_b eq_refl) as (item & Hitem & _ & Hkey).
    exists item. split; [exact Hitem | exact Hkey].
  - destruct (Hbuiltin 1%nat {| fileName := "default.jpg"; name := "Default"; type := image |}
                eq_refl) as (Hitem & _).
    exact Hitem.
Defined.

(** A stored key that belongs to no entry: the selection is the default
    builtin entry, at an index of the catalog. *)
Lemma resolution_falls_back_witness :
  0 <= index_of (userSettings store_stale)
    < Z.of_nat (length (items (userSettings store_stale))) /\
  current (userSettings store_stale)
  = Some (builtin 1 {| fileName := "default.jpg"; name := "Default"; type := image |}).
Proof.
  destruct (resolution_falls_back manifest default_file default_file url_pathname
              convertFileSrc builtinBannerImages builtinBannerVideos
              (userSettings store_stale)
              {| background_index := None; background_mediaId := None |})
    as (Hrange & _ & Hcurrent & _).
  split; [apply Hrange; discriminate|].
  rewrite Hcurrent. reflexivity.
Defined.

(** Of three custom entries the third is selected and the second is
    removed: the selection stays on its entry, now at index 1, and the saved
    position of the removed entry is gone. *)
Lemma removeCustomMedia_reanchors_witness :
  let u' := userSettings (remove "C:/data/banner/b.mp4" store_three) in
  index_of (userSettings store_three) = 2 /\
  homeBannerIndex u' = Some 1 /\
  homeBannerMediaId u' = Some "cccc3333" /\
  (homeBannerPositions u' ≫= fun saved => saved !! "bbbb2222") = None.
Proof.
  destruct (removeCustomMedia_reanchors manifest default_file url_pathname
              "C:/data/banner/b.mp4" store_three)
    as (_ & Hpositions & _ & _ & Hone).
  split; [reflexivity|].
  destruct (Hone 1%nat item_b eq_refl eq_refl) as (Hindex & item & Hitem & Hkey).
  { intros [|[|[|i]]] other Hi Hp; simpl in Hi; try discriminate;
      injection Hi as <-; try reflexivity; discriminate. }
  { reflexivity. }
  split; [exact Hindex|]. split.
  - rewrite Hkey. vm_compute in Hitem. injection Hitem as <-. reflexivity.
  - exact (Hpositions item_b eq_refl "bbbb2222").
Defined.

(** C3, as stated, fails.  One file was added twice and the default builtin
    entry, at index 3 of a catalog of 4, is selected.  Removing by the path
    of the custom entry at index 0 removes both custom entries, and the
    selection goes to index 1 of the catalog of 2 that is left, not to
    index 2. *)
Lemma removeCustomMedia_clamps_to_what_is_left :
  let u := userSettings store_twice in
  let u' := userSettings (remove (path item_a) store_twice) in
  let n := Z.of_nat (length (items u)) in
  let k := index_of u in
  n = 4 /\ k = 3 /\ customItems u !! 0%nat = Some item_a /\
  homeBannerIndex u' = Some 1 /\
  homeBannerIndex u' ≠ Some (Z.max 0 (Z.min (Z.max 0 (k - 1)) (n - 2))).
Proof.
  cbv zeta. split; [reflexivity|]. split; [reflexivity|]. split; [reflexivity|].
  split; [reflexivity|]. vm_compute. discriminate.
Qed.

(** When the selected entry itself is removed, the stored key is looked up
    in the catalog that is left, where it belongs to no entry: the
    selection goes to the default builtin entry, not to the entry in front
    of the removed one. *)
Lemma removeCustomMedia_of_selection_goes_to_default :
  let u := userSettings store_two in
  let u' := userSettings (remove (path item_b) store_two) in
  index_of u = 1 /\
  homeBannerIndex u' = Some 2 /\ homeBannerMediaId u' = Some "default.jpg".
Proof. cbv zeta. repeat split; reflexivity. Qed.

End CatalogExamples.

(** ** Splitting and joining *)

Section SplitJoin.
Import Js.

Lemma split_without (sep : ascii) (s : string) :
  has_char sep s = false -> split sep s = [s].
Proof.
  induction s as [|c rest IH]; simpl; [reflexivity|].
  intros H. apply orb_false_elim in H as [Hc Hrest].
  rewrite Hc, (IH Hrest). reflexivity.
Qed.

Lemma split_app (sep : ascii) (part rest : string) :
  has_char sep part = false ->
  split sep (part +:+ String sep rest) = part :: split sep rest.
Proof.
  induction part as [|c part IH]; simpl; intros H.
  - now rewrite Ascii.eqb_refl.
  - apply orb_false_elim in H as [Hc Hpart].
    rewrite Hc, (IH Hpart). reflexivity.
Qed.

(** Joining parts without the separator and splitting again gives the
    parts. *)
Lemma split_join (sep : ascii) (parts : list string) :
  parts ≠ [] ->
  Forall (fun part => has_char sep part = false) parts ->
  split sep (join (String sep "") parts) = parts.
Proof.
  intros Hne Hall. induction Hall as [|part rest Hpart Hrest IH]; [congruence|].
  destruct rest as [|part' rest'].
  - simpl. now apply split_without.
  - change (join (String sep "") (part :: part' :: rest'))
      with (part +:+ String sep "" +:+ join (String sep "") (part' :: rest')).
    change (String sep "" +:+ ?x) with (String sep x).
    rewrite split_app by exact Hpart.
    rewrite IH by discriminate. reflexivity.
Qed.

(** No part of a split holds the separator. *)
Lemma split_parts_without (sep : ascii) (s : string) :
  Forall (fun part => has_char sep part = false) (split sep s).
Proof.
  induction s as [|c rest IH]; simpl.
  - constructor; [reflexivity | constructor].
  - destruct (Ascii.eqb c sep) eqn:E.
    + constructor; [reflexivity | exact IH].
    + destruct (split sep rest) as [|part parts]; inversion IH; subst.
      * constructor; [simpl; now rewrite E | constructor].
      * constructor; [simpl; rewrite E; assumption | assumption].
Qed.

End SplitJoin.

(** ** Shortcut strings *)

Section ShortcutStrings.
Import Js Shortcuts.

Local Abbreviation no_keys :=
  {| ctrl := false; alt := false; shift := false; meta := false; key := "" |}.

Lemma read_part_key (keys : ShortcutKeys) (part : string) :
  plain_key part ->
  read_part keys part =
  {| ctrl := ctrl keys; alt := alt keys; shift := shift keys; meta := meta keys;
     key := part |}.
Proof.
  intros (_ & H1 & H2 & H3 & H4 & H5 & H6). unfold read_part.
  apply String.eqb_neq in H1, H2, H3, H4, H5, H6.
  now rewrite H1, H2, H3, H4, H5, H6.
Qed.

Lemma single_upper (k : string) :
  String.length k = 1%nat -> k ≠ " " -> plain_key k -> plain_key (toUpperCase k).
Proof.
  destruct k as [|c [|c' rest]]; simpl; try discriminate.
  intros _ Hsp (Hplus & _).
  repeat split; try discriminate.
  destruct c as [[] [] [] [] [] [] [] []]; try reflexivity; discriminate.
Qed.

Lemma modifier_parts_without (keys : ShortcutKeys) :
  Forall (fun part => has_char "+" part = false) (modifier_parts keys).
Proof.
  unfold modifier_parts.
  destruct (ctrl keys), (alt keys), (meta keys), (shift keys); simpl;
    repeat constructor.
Qed.

Lemma read_modifier_parts (keys : ShortcutKeys) :
  fold_left read_part (modifier_parts keys) no_keys =
  {| ctrl := ctrl keys; alt := alt keys; shift := shift keys; meta := meta keys;
     key := "" |}.
Proof.
  unfold modifier_parts.
  destruct (ctrl keys), (alt keys), (meta keys), (shift keys); reflexivity.
Qed.

(** What the key is after formatting and reading back. *)
Lemma read_key_name (keys : ShortcutKeys) (k : string) :
  plain_key k ->
  read_part keys (key_name k) =
  {| ctrl := ctrl keys; alt := alt keys; shift := shift keys; meta := meta keys;
     key := if Nat.eqb (String.length k) 1 then toUpperCase k else k |}.
Proof.
  intros Hk. unfold key_name.
  destruct (String.eqb k " ") eqn:Esp.
  - apply String.eqb_eq in Esp. subst k. reflexivity.
  - apply String.eqb_neq in Esp.
    destruct (Nat.eqb (String.length k) 1) eqn:Elen.
    + apply Nat.eqb_eq in Elen. apply read_part_key. now apply single_upper.
    + now apply read_part_key.
Qed.

Lemma key_name_without (k : string) :
  has_char "+" k = false -> has_char "+" (key_name k) = false.
Proof.
  intros Hk. unfold key_name.
  destruct (String.eqb k " "); [reflexivity|].
  destruct (Nat.eqb (String.length k) 1) eqn:Elen; [|exact Hk].
  apply Nat.eqb_eq in Elen.
  destruct k as [|c [|c' rest]]; simpl in *; try discriminate.
  destruct c as [[] [] [] [] [] [] [] []]; try reflexivity; discriminate.
Qed.

Lemma read_formatted (keys : ShortcutKeys) :
  plain_key (key keys) ->
  tauriFormatToShortcutKeys (shortcutKeysToTauriFormat keys) =
  {| ctrl := ctrl keys; alt := alt keys; shift := shift keys; meta := meta keys;
     key := if Nat.eqb (String.length (key keys)) 1
            then toUpperCase (key keys) else key keys |}.
Proof.
  intros Hk. unfold tauriFormatToShortcutKeys, shortcutKeysToTauriFormat.
  rewrite split_join.
  - rewrite fold_left_app, read_modifier_parts. simpl fold_left.
    now rewrite read_key_name.
  - now destruct (modifier_parts keys).
  - apply Forall_app. split; [apply modifier_parts_without|].
    constructor; [|constructor]. apply key_name_without. apply Hk.
Qed.

(** The key that [tauriFormatToShortcutKeys] reads is the empty string, the
    space, or a plain key. *)
Lemma read_parts_key (parts : list string) (keys : ShortcutKeys) :
  Forall (fun part => has_char "+" part = false) parts ->
  key keys = " " \/ plain_key (key keys) ->
  key (fold_left read_part parts keys) = " " \/
  plain_key (key (fold_left read_part parts keys)).
Proof.
  intros Hall. revert keys.
  induction Hall as [|part rest Hpart Hrest IH]; intros keys Hkeys; [exact Hkeys|].
  simpl. apply IH. unfold read_part.
  destruct (String.eqb part "Control") eqn:E1; [exact Hkeys|].
  destruct (String.eqb part "CommandOrControl") eqn:E2; [exact Hkeys|].
  destruct (String.eqb part "Alt") eqn:E3; [exact Hkeys|].
  destruct (String.eqb part "Shift") eqn:E4; [exact Hkeys|].
  destruct (String.eqb part "Super") eqn:E5; [exact Hkeys|].
  simpl.
  destruct (String.eqb part "Space") eqn:E6; [now left|].
  right. apply String.eqb_neq in E1, E2, E3, E4, E5, E6.
  unfold plain_key. tauto.
Qed.

Lemma read_key_cases (shortcut : string) :
  key (tauriFormatToShortcutKeys shortcut) = " " \/
  plain_key (key (tauriFormatToShortcutKeys shortcut)).
Proof.
  apply read_parts_key; [apply split_parts_without|].
  right. repeat split; discriminate.
Qed.

Lemma key_name_upper (k : string) :
  key_name (if Nat.eqb (String.length k) 1 then toUpperCase k else k) = key_name k.
Proof.
  destruct (Nat.eqb (String.length k) 1) eqn:Elen; [|reflexivity].
  apply Nat.eqb_eq in Elen.
  destruct k as [|c [|c' rest]]; simpl in *; try discriminate.
  unfold key_name. simpl.
  destruct c as [[] [] [] [] [] [] [] []]; reflexivity.
Qed.

Lemma format_space (keys : ShortcutKeys) :
  key keys = " " ->
  tauriFormatToShortcutKeys (shortcutKeysToTauriFormat keys) = keys.
Proof.
  intros Hk. unfold tauriFormatToShortcutKeys, shortcutKeysToTauriFormat.
  rewrite split_join.
  - rewrite fold_left_app, read_modifier_parts, Hk. simpl.
    destruct keys; simpl in *; now subst.
  - now destruct (modifier_parts keys).
  - apply Forall_app. split; [apply modifier_parts_without|].
    rewrite Hk. repeat constructor.
Qed.

Lemma normalize_formatted (keys : ShortcutKeys) :
  plain_key (key keys) ->
  normalizeShortcutString (shortcutKeysToTauriFormat keys) =
  shortcutKeysToTauriFormat keys.
Proof.
  intros Hk. unfold normalizeShortcutString. rewrite read_formatted by exact Hk.
  unfold shortcutKeysToTauriFormat. simpl. now rewrite key_name_upper.
Qed.

(** X1. [normalizeShortcutString] is idempotent: normalizing a shortcut
    string that is already the result of normalizing gives the same string,
    whatever string one starts from. *)
Theorem normalizeShortcutString_idempotent (shortcut : string) :
  normalizeShortcutString (normalizeShortcutString shortcut) =
  normalizeShortcutString shortcut.
Proof.
  unfold normalizeShortcutString.
  set (keys := tauriFormatToShortcutKeys shortcut).
  destruct (read_key_cases shortcut) as [Hsp | Hplain]; fold keys in Hsp || fold keys in Hplain.
  - now rewrite format_space.
  - rewrite read_formatted by exact Hplain.
    unfold shortcutKeysToTauriFormat. simpl.
    now rewrite key_name_upper.
Qed.

(** X2. Round trip of the two conversions: for keys whose key holds no [+]
    and is none of the words [Control], [CommandOrControl], [Alt], [Shift],
    [Super] and [Space], reading back the formatted shortcut gives the same
    four modifiers and the same key, a key of one character in upper case.
    The space bar, written [Space] in the string, comes back as the space. *)
Theorem tauriFormat_round_trip (keys : ShortcutKeys) :
  has_char "+" (key keys) = false ->
  key keys ≠ "Control" -> key keys ≠ "CommandOrControl" -> key keys ≠ "Alt" ->
  key keys ≠ "Shift" -> key keys ≠ "Super" -> key keys ≠ "Space" ->
  let back := tauriFormatToShortcutKeys (shortcutKeysToTauriFormat keys) in
  ctrl back = ctrl keys /\ alt back = alt keys /\
  shift back = shift keys /\ meta back = meta keys /\
  key back = (if Nat.eqb (String.length (key keys)) 1
              then toUpperCase (key keys) else key keys) /\
  (key keys = " " -> back = keys).
Proof.
  intros H0 H1 H2 H3 H4 H5 H6 back. subst back.
  rewrite read_formatted by (unfold plain_key; tauto). simpl.
  repeat split. intros Hsp. rewrite Hsp. simpl.
  destruct keys; simpl in *; now subst.
Qed.

End ShortcutStrings.

(** ** Labels *)

Section ShortcutLabels.
Import Js Shortcuts.

Lemma replace_absent (pattern replacement s : string) :
  includes pattern s = false -> replace pattern replacement s = s.
Proof.
  induction s as [|c rest IH]; simpl; intros H.
  - apply orb_false_elim in H as [H _]. now rewrite H.
  - apply orb_false_elim in H as [H Hrest]. rewrite H. now rewrite IH.
Qed.

Lemma includes_key_name (pattern k : string) :
  (2 <= String.length pattern)%nat ->
  includes pattern "Space" = false ->
  includes pattern k = false -> includes pattern (key_name k) = false.
Proof.
  intros Hlen Hspace Hk. unfold key_name.
  destruct (String.eqb k " "); [exact Hspace|].
  destruct (Nat.eqb (String.length k) 1) eqn:Elen; [|exact Hk].
  apply Nat.eqb_eq in Elen.
  destruct k as [|c [|c' rest]]; simpl in Elen; try discriminate.
  destruct pattern as [|p1 [|p2 pattern]]; simpl in Hlen; try lia.
  simpl. destruct (ascii_dec p1 (to_upper c)); reflexivity.
Qed.

Lemma includes_unfold (pattern s : string) :
  includes pattern s =
  (String.prefix pattern s ||
   match s with EmptyString => false | String _ rest => includes pattern rest end)%bool.
Proof. destruct s; reflexivity. Qed.

Lemma prefix_app_elim (before pattern s : string) :
  String.prefix (before +:+ pattern) s = true ->
  exists tail, s = before +:+ tail /\ String.prefix pattern tail = true.
Proof.
  revert s. induction before as [|c before IH]; intros s H.
  - exists s. split; [reflexivity | exact H].
  - destruct s as [|c' s]; [discriminate|].
    simpl in H. destruct (ascii_dec c c') as [->|]; [|discriminate].
    destruct (IH s H) as (tail & -> & Htail).
    exists tail. split; [reflexivity | exact Htail].
Qed.

Lemma includes_skip (before tail pattern : string) :
  includes pattern tail = true -> includes pattern (before +:+ tail) = true.
Proof.
  intros H. induction before as [|c before IH]; [exact H|].
  change (String c before +:+ tail) with (String c (before +:+ tail)).
  rewrite includes_unfold, IH. apply orb_true_r.
Qed.

(** A string that holds a pattern holds every end of the pattern. *)
Lemma includes_longer (before pattern s : string) :
  includes (before +:+ pattern) s = true -> includes pattern s = true.
Proof.
  induction s as [|c rest IH]; rewrite includes_unfold; intros H.
  - rewrite orb_false_r in H. apply prefix_app_elim in H as (tail & -> & Htail).
    apply includes_skip. rewrite includes_unfold, Htail. reflexivity.
  - apply orb_true_iff in H as [H | H].
    + apply prefix_app_elim in H as (tail & -> & Htail).
      apply includes_skip. rewrite includes_unfold, Htail. reflexivity.
    + rewrite includes_unfold, (IH H). apply orb_true_r.
Qed.

(** X3. The label of a formatted shortcut: [formatTauriShortcut] turns the
    modifier [Control] into [Ctrl] and [Super] into [Win], keeps [Alt] and
    [Shift] and the order of the modifiers, and leaves the key name as it
    is, when the key holds none of the words [Super], [Windows] and
    [Control]. *)
Theorem formatTauriShortcut_label (keys : ShortcutKeys) :
  includes "Super" (key keys) = false ->
  includes "Windows" (key keys) = false ->
  includes "Control" (key keys) = false ->
  formatTauriShortcut (shortcutKeysToTauriFormat keys) =
  join "+" ((if ctrl keys then ["Ctrl"] else []) ++
            (if alt keys then ["Alt"] else []) ++
            (if meta keys then ["Win"] else []) ++
            (if shift keys then ["Shift"] else []) ++
            [key_name (key keys)])%list.
Proof.
  intros Hsuper Hwindows Hcontrol.
  apply (includes_key_name "Super") in Hsuper; [|simpl; lia|reflexivity].
  apply (includes_key_name "Windows") in Hwindows; [|simpl; lia|reflexivity].
  apply (includes_key_name "Control") in Hcontrol; [|simpl; lia|reflexivity].
  assert (Hcommand : includes "CommandOrControl" (key_name (key keys)) = false).
  { apply not_true_is_false. intros H.
    apply (includes_longer "CommandOr" "Control") in H. congruence. }
  unfold formatTauriShortcut, shortcutKeysToTauriFormat, modifier_parts.
  generalize dependent (key_name (key keys)). intros k Hsuper Hwindows Hcontrol Hcommand.
  destruct (ctrl keys), (alt keys), (meta keys), (shift keys); simpl;
    rewrite ?(replace_absent "Super") by exact Hsuper; simpl;
    rewrite ?(replace_absent "Windows") by exact Hwindows; simpl;
    rewrite ?(replace_absent "CommandOrControl") by exact Hcommand; simpl;
    rewrite ?(replace_absent "Control") by exact Hcontrol; reflexivity.
Qed.

End ShortcutLabels.

(** ** The store *)

Section ShortcutStore.
Import Js Shortcuts.

Variable P : Type.
Variable unregister : string -> P -> bool * P.
Variable register : string -> Handler -> P -> bool * P.
Variable unregisterAll : P -> bool * P.
Variable update_tray_shortcut : string -> P -> bool * P.

Local Abbreviation registerShortcut := (registerShortcut P unregister register).
Local Abbreviation unregisterShortcut := (unregisterShortcut P unregister).
Local Abbreviation syncTrayShortcutHint := (syncTrayShortcutHint P update_tray_shortcut).
Local Abbreviation setShortcut :=
  (setShortcut P unregister register update_tray_shortcut).
Local Abbreviation resetShortcut :=
  (resetShortcut P unregister register update_tray_shortcut).
Local Abbreviation registerAllShortcuts := (registerAllShortcuts P unregister register).
Local Abbreviation init := (init P unregister register update_tray_shortcut).
Local Abbreviation cleanup := (cleanup P unregisterAll).

(** The commands of the platform leave the settings and the flag alone. *)
Lemma registerShortcut_frame (gid : GlobalShortcutId) (s : Store P) :
  globalShortcuts P (registerShortcut gid s) = globalShortcuts P s /\
  stored P (registerShortcut gid s) = stored P s /\
  definitions P (registerShortcut gid s) = definitions P s /\
  isInitialized P (registerShortcut gid s) = isInitialized P s.
Proof.
  unfold Shortcuts.registerShortcut.
  destruct (String.eqb _ ""); [tauto|].
  destruct (getHandler gid); [|tauto].
  destruct (unregister _ _) as [u p1]. destruct (register _ _ _) as [[] p2]; simpl; tauto.
Qed.

Lemma unregisterShortcut_frame (gid : GlobalShortcutId) (s : Store P) :
  globalShortcuts P (unregisterShortcut gid s) = globalShortcuts P s /\
  stored P (unregisterShortcut gid s) = stored P s /\
  definitions P (unregisterShortcut gid s) = definitions P s /\
  isInitialized P (unregisterShortcut gid s) = isInitialized P s.
Proof.
  unfold Shortcuts.unregisterShortcut.
  destruct (registeredShortcuts P s !! gid); [|tauto].
  destruct (String.eqb _ ""); [tauto|].
  destruct (unregister _ _) as [[] p1]; simpl; tauto.
Qed.

Lemma syncTrayShortcutHint_frame (s : Store P) :
  globalShortcuts P (syncTrayShortcutHint s) = globalShortcuts P s /\
  stored P (syncTrayShortcutHint s) = stored P s /\
  definitions P (syncTrayShortcutHint s) = definitions P s /\
  isInitialized P (syncTrayShortcutHint s) = isInitialized P s /\
  registeredShortcuts P (syncTrayShortcutHint s) = registeredShortcuts P s.
Proof.
  unfold Shortcuts.syncTrayShortcutHint.
  destruct (update_tray_shortcut _ _) as [u p1]; simpl; tauto.
Qed.

Lemma getShortcutString_customized (gid : GlobalShortcutId) (s : Store P) (raw : string) :
  userGlobalShortcuts P s !! gid = Some raw ->
  getShortcutString P gid s = normalizeShortcutString raw.
Proof.
  intros H. unfold getShortcutString. rewrite H.
  destruct (String.eqb raw "") eqn:E; [|reflexivity].
  apply String.eqb_eq in E. now subst raw.
Qed.

Lemma setShortcut_settings (gid : GlobalShortcutId) (keys : ShortcutKeys) (s : Store P) :
  globalShortcuts P (setShortcut gid keys s) =
    Some (<[gid := shortcutKeysToTauriFormat keys]> (userGlobalShortcuts P s)) /\
  stored P (setShortcut gid keys s) =
    (stored P s ++ [<[gid := shortcutKeysToTauriFormat keys]> (userGlobalShortcuts P s)])%list /\
  definitions P (setShortcut gid keys s) = definitions P s /\
  isInitialized P (setShortcut gid keys s) = isInitialized P s.
Proof.
  unfold Shortcuts.setShortcut. cbv zeta.
  destruct (syncTrayShortcutHint_frame
              (registerShortcut gid
                 (set_userGlobalShortcuts P
                    (<[gid := shortcutKeysToTauriFormat keys]>
                       (userGlobalShortcuts P (unregisterShortcut gid s)))
                    (unregisterShortcut gid s))))
    as (-> & -> & -> & -> & _).
  destruct (registerShortcut_frame gid
              (set_userGlobalShortcuts P
                 (<[gid := shortcutKeysToTauriFormat keys]>
                    (userGlobalShortcuts P (unregisterShortcut gid s)))
                 (unregisterShortcut gid s)))
    as (-> & -> & -> & ->).
  simpl. unfold userGlobalShortcuts.
  destruct (unregisterShortcut_frame gid s) as (-> & -> & -> & ->).
  tauto.
Qed.

Lemma resetShortcut_settings (gid : GlobalShortcutId) (s : Store P) :
  globalShortcuts P (resetShortcut gid s) = Some (delete gid (userGlobalShortcuts P s)) /\
  stored P (resetShortcut gid s) =
    (stored P s ++ [delete gid (userGlobalShortcuts P s)])%list /\
  definitions P (resetShortcut gid s) = definitions P s /\
  isInitialized P (resetShortcut gid s) = isInitialized P s.
Proof.
  unfold Shortcuts.resetShortcut. cbv zeta.
  destruct (syncTrayShortcutHint_frame
              (registerShortcut gid
                 (set_userGlobalShortcuts P
                    (delete gid (userGlobalShortcuts P (unregisterShortcut gid s)))
                    (unregisterShortcut gid s))))
    as (-> & -> & -> & -> & _).
  destruct (registerShortcut_frame gid
              (set_userGlobalShortcuts P
                 (delete gid (userGlobalShortcuts P (unregisterShortcut gid s)))
                 (unregisterShortcut gid s)))
    as (-> & -> & -> & ->).
  simpl. unfold userGlobalShortcuts.
  destruct (unregisterShortcut_frame gid s) as (-> & -> & -> & ->).
  tauto.
Qed.

(** X4. After [setShortcut], whatever the platform answers to the commands
    sent to it: the shortcut counts as customized with source [user], the
    settings hold the formatted keys under the id, that map is the one value
    passed on to be persisted, and the shortcut string of the id is the
    normalized form of the formatted keys. *)
Theorem setShortcut_customizes (gid : GlobalShortcutId) (keys : ShortcutKeys)
    (s : Store P) :
  let s' := setShortcut gid keys s in
  userGlobalShortcuts P s' = <[gid := shortcutKeysToTauriFormat keys]> (userGlobalShortcuts P s) /\
  stored P s' = (stored P s ++ [userGlobalShortcuts P s'])%list /\
  isCustomized P gid s' = true /\
  getSource P gid s' = user /\
  getShortcutString P gid s' = normalizeShortcutString (shortcutKeysToTauriFormat keys).
Proof.
  intros s'. subst s'.
  destruct (setShortcut_settings gid keys s) as (Hg & Hs & _ & _).
  assert (Hu : userGlobalShortcuts P (setShortcut gid keys s) =
               <[gid := shortcutKeysToTauriFormat keys]> (userGlobalShortcuts P s)).
  { unfold userGlobalShortcuts at 1. now rewrite Hg. }
  assert (Hl : userGlobalShortcuts P (setShortcut gid keys s) !! gid =
               Some (shortcutKeysToTauriFormat keys)).
  { rewrite Hu. apply lookup_insert_eq. }
  repeat split.
  - exact Hu.
  - now rewrite Hs, Hu.
  - unfold isCustomized. now rewrite Hl.
  - unfold getSource, isCustomized. now rewrite Hl.
  - now apply getShortcutString_customized.
Qed.

(** X5. Round trip through the store: for keys whose key holds no [+] and is
    none of the words [Control], [CommandOrControl], [Alt], [Shift], [Super]
    and [Space], the shortcut string read after [setShortcut] is the
    formatted keys themselves, and [getShortcutKeys] gives back the four
    modifiers and the key, a key of one character in upper case. *)
Theorem setShortcut_round_trip (gid : GlobalShortcutId) (keys : ShortcutKeys)
    (s : Store P) :
  has_char "+" (key keys) = false ->
  key keys ≠ "Control" -> key keys ≠ "CommandOrControl" -> key keys ≠ "Alt" ->
  key keys ≠ "Shift" -> key keys ≠ "Super" -> key keys ≠ "Space" ->
  let s' := setShortcut gid keys s in
  getShortcutString P gid s' = shortcutKeysToTauriFormat keys /\
  getShortcutKeys P gid s' =
    {| ctrl := ctrl keys; alt := alt keys; shift := shift keys; meta := meta keys;
       key := if Nat.eqb (String.length (key keys)) 1
              then toUpperCase (key keys) else key keys |}.
Proof.
  intros H0 H1 H2 H3 H4 H5 H6 s'. subst s'.
  assert (Hk : plain_key (key keys)) by (unfold plain_key; tauto).
  destruct (setShortcut_settings gid keys s) as (Hg & _).
  assert (Hstring : getShortcutString P gid (setShortcut gid keys s) =
                    shortcutKeysToTauriFormat keys).
  { rewrite (getShortcutString_customized gid _ (shortcutKeysToTauriFormat keys)).
    - now apply normalize_formatted.
    - unfold userGlobalShortcuts. rewrite Hg. apply lookup_insert_eq. }
  split; [exact Hstring|].
  unfold getShortcutKeys. rewrite Hstring. now apply read_formatted.
Qed.

(** X6. [resetShortcut] undoes the customization of a shortcut, whatever the
    platform answers: the entry of the id is deleted from the settings, and
    that map is passed on to be persisted; the shortcut counts as not
    customized with source [system]; and with the definitions the store is
    created with, its shortcut string is again [Super+Shift+E], shown as
    [Win+Shift+E]. *)
Theorem resetShortcut_restores_default (gid : GlobalShortcutId) (s : Store P) :
  definitions P s = DEFAULT_GLOBAL_SHORTCUTS ->
  let s' := resetShortcut gid s in
  userGlobalShortcuts P s' = delete gid (userGlobalShortcuts P s) /\
  stored P s' = (stored P s ++ [userGlobalShortcuts P s'])%list /\
  isCustomized P gid s' = false /\
  getSource P gid s' = system /\
  getShortcutString P gid s' = "Super+Shift+E" /\
  getShortcutLabel P gid s' = "Win+Shift+E".
Proof.
  intros Hdefs s'. subst s'.
  destruct (resetShortcut_settings gid s) as (Hg & Hs & Hd & _).
  assert (Hu : userGlobalShortcuts P (resetShortcut gid s) =
               delete gid (userGlobalShortcuts P s)).
  { unfold userGlobalShortcuts at 1. now rewrite Hg. }
  assert (Hl : userGlobalShortcuts P (resetShortcut gid s) !! gid = None).
  { rewrite Hu. apply lookup_delete_eq. }
  assert (Hstring : getShortcutString P gid (resetShortcut gid s) = "Super+Shift+E").
  { unfold getShortcutString. rewrite Hl, Hd, Hdefs. now destruct gid. }
  repeat split.
  - exact Hu.
  - now rewrite Hs, Hu.
  - unfold isCustomized. now rewrite Hl.
  - unfold getSource, isCustomized. now rewrite Hl.
  - exact Hstring.
  - unfold getShortcutLabel. now rewrite Hstring.
Qed.

(** X7. When the platform accepts the registration, [setShortcut] records
    the shortcut string it has registered for the id, which is the
    normalized form of the formatted keys, provided that form is not the
    empty string (for which nothing is registered). *)
Theorem setShortcut_registers (gid : GlobalShortcutId) (keys : ShortcutKeys)
    (s : Store P) :
  (forall shortcut handler p, fst (register shortcut handler p) = true) ->
  normalizeShortcutString (shortcutKeysToTauriFormat keys) ≠ "" ->
  registeredShortcuts P (setShortcut gid keys s) !! gid =
  Some (normalizeShortcutString (shortcutKeysToTauriFormat keys)).
Proof.
  intros Hregister Hne. unfold Shortcuts.setShortcut. cbv zeta.
  set (s1 := unregisterShortcut gid s).
  set (s2 := set_userGlobalShortcuts P _ s1).
  destruct (syncTrayShortcutHint_frame (registerShortcut gid s2)) as (_ & _ & _ & _ & ->).
  assert (Hstring : getShortcutString P gid s2 =
                    normalizeShortcutString (shortcutKeysToTauriFormat keys)).
  { apply getShortcutString_customized. subst s2. simpl. apply lookup_insert_eq. }
  unfold Shortcuts.registerShortcut. rewrite Hstring.
  apply String.eqb_neq in Hne. rewrite Hne.
  destruct gid. simpl getHandler. cbv iota.
  destruct (unregister _ _) as [u p1].
  specialize (Hregister (normalizeShortcutString (shortcutKeysToTauriFormat keys))
                focusAppWindow p1).
  destruct (register _ _ _) as [r p2]. simpl in Hregister. subst r.
  simpl. apply lookup_insert_eq.
Qed.

Lemma registerAllShortcuts_frame (l : list GlobalShortcutDefinition) (s : Store P) :
  isInitialized P
    (fold_left (fun acc definition => registerShortcut (id definition) acc) l s) =
  isInitialized P s.
Proof.
  revert s. induction l as [|d l IH]; intros s; [reflexivity|].
  simpl. rewrite IH. apply registerShortcut_frame.
Qed.

(** X8. [init] is guarded by [isInitialized]: a store that has been
    initialized is marked as such, and initializing it again changes
    nothing and sends no command to the platform. *)
Theorem init_once (s : Store P) :
  isInitialized P (init s) = true /\ init (init s) = init s.
Proof.
  assert (H : isInitialized P (init s) = true).
  { unfold Shortcuts.init. destruct (isInitialized P s) eqn:E; [exact E|].
    destruct (syncTrayShortcutHint_frame (registerAllShortcuts (with_initialized P true s)))
      as (_ & _ & _ & -> & _).
    unfold Shortcuts.registerAllShortcuts. now rewrite registerAllShortcuts_frame. }
  split; [exact H|].
  unfold Shortcuts.init at 1. now rewrite H.
Qed.

End ShortcutStore.

(** ** What the steps write *)

Section WritesWithin.
Import Js Data Migration Persisted.

Variable K : list string.

Lemma writes_within_ret {A : Type} (a : A) : writes_within K (mret a : Async A).
Proof.
  intros w. simpl. repeat split; try tauto; try lia.
  exists []. split; [now rewrite app_nil_r | intros ? H; inversion H].
Qed.

Lemma writes_within_throw {A : Type} : writes_within K (throwTypeError : Async A).
Proof.
  intros w. simpl. repeat split; try tauto; try lia.
  exists []. split; [now rewrite app_nil_r | intros ? H; inversion H].
Qed.

Lemma writes_within_get (path : string) : writes_within K (storage_get path).
Proof.
  intros w. simpl. repeat split; try tauto; try lia.
  exists []. split; [now rewrite app_nil_r | intros ? H; inversion H].
Qed.

Lemma writes_within_set (path : string) (value : JsValue) :
  path ∈ K -> writes_within K (storage_set path value).
Proof.
  intros Hin w. simpl. repeat split; try lia.
  - intros k Hk. apply lookup_insert_ne. intros ->. contradiction.
  - intros k Hk. destruct (decide (path = k)) as [->|Hne].
    + rewrite lookup_insert_eq. eauto.
    + now rewrite lookup_insert_ne.
  - exists [(path, value)]. split; [reflexivity|].
    intros kv Hkv. apply list_elem_of_singleton in Hkv as ->. exact Hin.
Qed.

Lemma writes_within_generateShortId (randomUUID : nat -> string) :
  writes_within K (generateShortId randomUUID).
Proof.
  intros w. simpl. repeat split; try tauto; try lia.
  exists []. split; [now rewrite app_nil_r | intros ? H; inversion H].
Qed.

Lemma writes_within_bind {A B : Type} (m : Async A) (f : A -> Async B) :
  writes_within K m -> (forall a, writes_within K (f a)) -> writes_within K (m ≫= f).
Proof.
  intros Hm Hf w. unfold mbind, Async_bind.
  specialize (Hm w). destruct (m w) as [a w1|w1]; simpl in Hm; [|exact Hm].
  specialize (Hf a w1). simpl in Hf.
  destruct Hm as (Hm1 & Hm2 & (ws1 & Hm3 & Hm4) & Hm5).
  destruct Hf as (Hf1 & Hf2 & (ws2 & Hf3 & Hf4) & Hf5).
  simpl. repeat split.
  - intros k Hk. now rewrite Hf1, Hm1.
  - intros k Hk. apply Hf2, Hm2, Hk.
  - exists (ws1 ++ ws2)%list. split.
    + now rewrite Hf3, Hm3, app_assoc.
    + intros kv Hkv. apply elem_of_app in Hkv as [?|?]; auto.
  - lia.
Qed.

Lemma writes_within_mapM {A B : Type} (f : A -> Async B) (l : list A) :
  (forall x, writes_within K (f x)) -> writes_within K (mapM f l).
Proof.
  intros Hf. induction l as [|x l IH]; simpl.
  - apply writes_within_ret.
  - apply writes_within_bind; [apply Hf|]. intros y.
    apply writes_within_bind; [apply IH|]. intros ys. apply writes_within_ret.
Qed.

Lemma writes_within_forM {A : Type} (f : A -> Async unit) (l : list A) :
  (forall x, x ∈ l -> writes_within K (f x)) -> writes_within K (forM_ l f).
Proof.
  induction l as [|x l IH]; simpl; intros Hf.
  - apply writes_within_ret.
  - apply writes_within_bind; [apply Hf; left|]. intros _.
    apply IH. intros y Hy. apply Hf. now right.
Qed.

End WritesWithin.

Ltac writes_within_step :=
  first
    [ apply writes_within_ret
    | apply writes_within_throw
    | apply writes_within_get
    | apply writes_within_generateShortId
    | apply writes_within_set; apply (bool_decide_unpack _); vm_compute; reflexivity
    | apply writes_within_bind; [|intros ?]
    | apply writes_within_mapM; intros ?
    | match goal with
      | |- Persisted.writes_within _ (match ?x with _ => _ end) => destruct x
      end ].

Section StepsWriteWithin.
Import Js Data Migration Persisted.

Variable homeBannerMedia : list BannerMedia.
Variable DEFAULT_HOME_BANNER_FILE_NAME : string.
Variable randomUUID : nat -> string.

Local Abbreviation step :=
  (migrateUserSettingsStep homeBannerMedia DEFAULT_HOME_BANNER_FILE_NAME randomUUID).

Lemma migrate_1_to_2_writes : writes_within written_keys migrate_1_to_2.
Proof. unfold migrate_1_to_2. repeat writes_within_step. Qed.

Lemma migrate_2_to_3_writes :
  writes_within written_keys (migrate_2_to_3 homeBannerMedia randomUUID).
Proof. unfold migrate_2_to_3, migrate_custom_media. repeat writes_within_step. Qed.

Lemma migrate_3_to_4_writes :
  writes_within written_keys (migrate_3_to_4 homeBannerMedia DEFAULT_HOME_BANNER_FILE_NAME).
Proof. unfold migrate_3_to_4. repeat writes_within_step. Qed.

Lemma migrate_4_to_5_writes : writes_within written_keys (migrate_4_to_5 homeBannerMedia).
Proof.
  unfold migrate_4_to_5. apply writes_within_forM. intros pageKey Hpage.
  unfold migrate_background. apply writes_within_bind; [apply writes_within_get|].
  intros background. destruct (background_with_mediaId _ _); [|apply writes_within_ret].
  apply writes_within_set. unfold written_keys. apply elem_of_app. right.
  now apply list_elem_of_fmap_2.
Qed.

(** X9. A migration step writes under its own keys only, whether it returns
    or throws and whatever the pair of versions: every key other than the
    two icon keys, [homeBannerCustomMedia], [homeBannerPositions],
    [homeBannerMediaId] and the six page backgrounds holds afterwards what it
    held before (the legacy key [navigator.useSystemIcons] and the schema
    version among them), no key loses its binding, and every call of
    [storage.set] the step makes is for one of these keys. *)
Theorem migrateUserSettingsStep_writes_its_keys_only (fromVersion toVersion : Z)
    (w : World) :
  let w' := world_after (step fromVersion toVersion w) in
  (forall k, k ∉ written_keys -> store w' !! k = store w !! k) /\
  (forall k, is_Some (store w !! k) -> is_Some (store w' !! k)) /\
  (exists ws, written w' = (written w ++ ws)%list /\
              forall kv, kv ∈ ws -> kv.1 ∈ written_keys) /\
  (uuids w <= uuids w')%nat.
Proof.
  revert w. change (writes_within written_keys (step fromVersion toVersion)).
  unfold migrateUserSettingsStep.
  destruct ((fromVersion =? 0) && (toVersion =? 1)); [apply writes_within_ret|].
  destruct ((fromVersion =? 1) && (toVersion =? 2)); [apply migrate_1_to_2_writes|].
  apply writes_within_bind; [|intros _; apply writes_within_bind; [|intros _]].
  - destruct (_ && _); [apply migrate_2_to_3_writes | apply writes_within_ret].
  - destruct (_ && _); [apply migrate_3_to_4_writes | apply writes_within_ret].
  - destruct (_ && _); [apply migrate_4_to_5_writes | apply writes_within_ret].
Qed.

End StepsWriteWithin.

(** ** The custom list in the step from 2 to 3 *)

Section LegacyList.
Import Js Data Migration Persisted.

Variable homeBannerMedia : list BannerMedia.
Variable DEFAULT_HOME_BANNER_FILE_NAME : string.
Variable randomUUID : nat -> string.

Local Abbreviation step :=
  (migrateUserSettingsStep homeBannerMedia DEFAULT_HOME_BANNER_FILE_NAME randomUUID).
Local Abbreviation turn := (migrate_position_entry homeBannerMedia).
Local Abbreviation loop := (migrate_positions homeBannerMedia).

(** The second half of the step leaves the custom list and the UUIDs as the
    first half left them, whether it returns or throws. *)
Lemma step_2_3_after (w w1 : World) (migratedCustom : list JsValue) :
  migrate_custom_media randomUUID w = Returned migratedCustom w1 ->
  let w' := world_after (step 2 3 w) in
  store w' !! "homeBannerCustomMedia" = store w1 !! "homeBannerCustomMedia" /\
  uuids w' = uuids w1 /\
  exists ws, written w' = (written w1 ++ ws)%list.
Proof.
  intros E.
  rewrite (migrate_2_to_3_run homeBannerMedia DEFAULT_HOME_BANNER_FILE_NAME
             randomUUID w w1 migratedCustom E).
  assert (Hsame : store w1 !! "homeBannerCustomMedia" = store w1 !! "homeBannerCustomMedia"
                  /\ uuids w1 = uuids w1 /\ exists ws, written w1 = (written w1 ++ ws)%list).
  { repeat split. exists []. now rewrite app_nil_r. }
  destruct (store w1 !! "homeBannerPositions") as [v|]; [|exact Hsame].
  destruct (hasNumericKeys (Some v)); [|exact Hsame].
  destruct (loop migratedCustom (entries v) []); [|exact Hsame].
  simpl. rewrite lookup_insert_ne by discriminate. repeat split. eauto.
Qed.

(** X10. The conversion of the custom list in the step from 2 to 3, whether
    the step then returns or throws.  A stored list whose first element is a
    string is replaced by a list of the same length that holds, for the
    element at each index, the object with that element as [path] and a
    short id as [id], the ids being cut from consecutive UUIDs in the order
    of the list; this is the first write of the step.  Anything else under
    the key (no value, something that is no list, an empty list, a list
    whose first element is no string) is left as it is, and no UUID is
    drawn. *)
Theorem migrate_2_to_3_converts_legacy_list (w : World) :
  let w' := world_after (step 2 3 w) in
  match store w !! "homeBannerCustomMedia" with
  | Some (JArr (JStr first :: rest)) =>
      let items := JStr first :: rest in
      exists migrated ws,
        store w' !! "homeBannerCustomMedia" = Some (JArr migrated) /\
        length migrated = length items /\
        (forall i path, items !! i = Some path ->
           migrated !! i =
             Some (JObj [("path", path);
                         ("id", JStr (substring 0 8
                                        (remove_dashes (randomUUID (uuids w + i)%nat))))])) /\
        uuids w' = (uuids w + length items)%nat /\
        written w' = (written w ++ ("homeBannerCustomMedia", JArr migrated) :: ws)%list
  | _ =>
      store w' !! "homeBannerCustomMedia" = store w !! "homeBannerCustomMedia" /\
      uuids w' = uuids w
  end.
Proof.
  intros w'. subst w'.
  assert (Hkeep : isLegacyFormat (elements (store w !! "homeBannerCustomMedia")) = false ->
                  store (world_after (step 2 3 w)) !! "homeBannerCustomMedia"
                  = store w !! "homeBannerCustomMedia" /\
                  uuids (world_after (step 2 3 w)) = uuids w).
  { intros Hlegacy.
    destruct (migrate_custom_media_run randomUUID w)
      as (migratedCustom & w1 & E & _ & _ & _ & Hsame & _).
    destruct (step_2_3_after w w1 migratedCustom E) as (Hc & Hu & _).
    rewrite (Hsame Hlegacy) in Hc, Hu. now split. }
  destruct (store w !! "homeBannerCustomMedia") as [[| | | | [|[| | | first | |] rest] |]|]
    eqn:Hstored; try (apply Hkeep; reflexivity).
  destruct (mapM_with_id randomUUID (JStr first :: rest) w) as (migrated & E & Hlen & Hnth).
  assert (Erun : migrate_custom_media randomUUID w =
                 Returned migrated
                   {| store := <["homeBannerCustomMedia" := JArr migrated]> (store w);
                      written := (written w ++ [("homeBannerCustomMedia", JArr migrated)])%list;
                      uuids := (uuids w + length (JStr first :: rest))%nat |}).
  { unfold migrate_custom_media.
    rewrite (bind_Returned (storage_get "homeBannerCustomMedia") _ w w
               (store w !! "homeBannerCustomMedia") eq_refl).
    rewrite Hstored. cbv [isLegacyFormat].
    rewrite (bind_Returned _ _ _ _ _ E). reflexivity. }
  destruct (step_2_3_after w _ migrated Erun) as (Hc & Hu & ws & Hw).
  simpl in Hc, Hu, Hw. rewrite lookup_insert_eq in Hc.
  exists migrated, ws. repeat split; try assumption.
  now rewrite Hw, <- app_assoc.
Qed.

(** ** Index keys that the loop cannot resolve *)

Lemma loop_throws (migratedCustom : list JsValue) (todo : list (string * JsValue))
    (acc : list (string * JsValue)) (key : string) (position : JsValue) :
  (key, position) ∈ todo ->
  turn migratedCustom key position = TypeError ->
  loop migratedCustom todo acc = None.
Proof.
  intros Hin Hturn. revert acc.
  induction todo as [|[k v] todo IH]; intros acc; [inversion Hin|].
  simpl. apply elem_of_cons in Hin as [[= <- <-]|Hin].
  - now rewrite Hturn.
  - destruct (turn migratedCustom k v); auto.
Qed.

(** X11. The step from 2 to 3 throws on a key that reads as a negative
    number.  When the position map is an object with a key of digits, and
    some key of it that [parseInt] reads as a number below 0 (such as [-1])
    holds an object, the step throws a [TypeError] at the access to the [id]
    of the custom entry at that index, and [homeBannerPositions] is left as
    it was. *)
Theorem migrate_2_to_3_throws_on_negative_index (w : World)
    (fields : list (string * JsValue)) (key : string) (position : JsValue) (index : Z) :
  store w !! "homeBannerPositions" = Some (JObj fields) ->
  hasNumericKeys (Some (JObj fields)) = true ->
  (key, position) ∈ fields ->
  is_position_object position = true ->
  parseInt key = Some index ->
  index < 0 ->
  exists w', step 2 3 w = Thrown w' /\
             store w' !! "homeBannerPositions" = Some (JObj fields) /\
             forall kv, kv ∈ written w' -> kv ∈ written w \/ kv.1 = "homeBannerCustomMedia".
Proof.
  intros Hstored Hnumeric Hin Hobject Hparse Hneg.
  destruct (migrate_custom_media_run randomUUID w)
    as (migratedCustom & w1 & E & _ & _ & Hother & _).
  assert (Hturn : turn migratedCustom key position = TypeError).
  { unfold migrate_position_entry. rewrite Hobject, Hparse. simpl.
    destruct (Z.ltb_spec index (Z.of_nat (length migratedCustom))); [|lia].
    unfold arr_at. destruct (Z.ltb_spec index 0); [reflexivity | lia]. }
  assert (Hpositions : store w1 !! "homeBannerPositions" = Some (JObj fields)).
  { rewrite Hother by discriminate. exact Hstored. }
  exists w1. split; [|split].
  - rewrite (migrate_2_to_3_run homeBannerMedia DEFAULT_HOME_BANNER_FILE_NAME
               randomUUID w w1 migratedCustom E).
    rewrite Hpositions, Hnumeric. simpl entries.
    now rewrite (loop_throws migratedCustom fields [] key position Hin Hturn).
  - exact Hpositions.
  - revert E. unfold migrate_custom_media.
    rewrite (bind_Returned (storage_get "homeBannerCustomMedia") _ w w
               (store w !! "homeBannerCustomMedia") eq_refl).
    destruct (store w !! "homeBannerCustomMedia") as [[| | | | items |]|];
      try (intros [= _ <-]; now left).
    destruct (isLegacyFormat items); [|intros [= _ <-]; now left].
    destruct (mapM_with_id randomUUID items w) as (migrated & Emap & _).
    rewrite (bind_Returned _ _ _ _ _ Emap).
    intros [= _ <-]. simpl. intros kv Hkv.
    apply elem_of_app in Hkv as [?|Hkv]; [now left|].
    apply list_elem_of_singleton in Hkv as ->. now right.
Qed.

(** ** Steps that can be applied any number of times *)

Lemma migrate_1_to_2_returns (w : World) : exists w1, step 1 2 w = Returned tt w1.
Proof.
  run_async. unfold migrate_1_to_2. run_async.
  destruct (store w !! "navigator.useSystemIcons") as [[| b | | | |]|];
    try (eexists; reflexivity).
  destruct (is_boolean (store w !! "navigator.useSystemIconsForDirectories")),
    (is_boolean (store w !! "navigator.useSystemIconsForFiles")); simpl;
    eexists; reflexivity.
Qed.

Lemma migrate_3_to_4_returns (w : World) : exists w1, step 3 4 w = Returned tt w1.
Proof.
  run_async. unfold migrate_3_to_4. run_async.
  destruct (mediaId_missing (store w !! "homeBannerMediaId")); eexists; reflexivity.
Qed.

Lemma migrate_4_to_5_returns (w : World) : exists w1, step 4 5 w = Returned tt w1.
Proof.
  rewrite step_4_5_loop.
  destruct (backgrounds_loop homeBannerMedia infusionPageKeys infusionPageKeys_NoDup w)
    as (w1 & E & _).
  now exists w1.
Qed.

(** X12. Every pair of versions other than the step from 2 to 3 can be
    applied again: the step returns on every store, it returns again on the
    store it has left, and the second application leaves every key as the
    first one left it. *)
Theorem steps_other_than_2_to_3_idempotent (fromVersion toVersion : Z) (w : World) :
  (fromVersion, toVersion) ≠ (2, 3) ->
  exists w1 w2,
    step fromVersion toVersion w = Returned tt w1 /\
    step fromVersion toVersion w1 = Returned tt w2 /\
    store w2 = store w1.
Proof.
  intros Hne.
  destruct (decide ((fromVersion, toVersion) ∈ [(0, 1); (1, 2); (2, 3); (3, 4); (4, 5)]))
    as [Hin | Hout].
  - repeat (apply elem_of_cons in Hin as [[= -> ->] | Hin]); try (now inversion Hin).
    + exists w, w. repeat split.
    + destruct (migrate_1_to_2_returns w) as (w1 & E1).
      destruct (migrate_1_to_2_idempotent homeBannerMedia DEFAULT_HOME_BANNER_FILE_NAME
                  randomUUID w w1 E1) as (w2 & E2 & Hs).
      now exists w1, w2.
    + contradiction.
    + destruct (migrate_3_to_4_returns w) as (w1 & E1).
      destruct (migrate_3_to_4_idempotent homeBannerMedia DEFAULT_HOME_BANNER_FILE_NAME
                  randomUUID w w1 E1) as (w2 & E2 & Hs).
      now exists w1, w2.
    + destruct (migrate_4_to_5_returns w) as (w1 & E1).
      destruct (migrate_4_to_5_idempotent homeBannerMedia DEFAULT_HOME_BANNER_FILE_NAME
                  randomUUID w w1 E1) as (w2 & E2 & Hs).
      now exists w1, w2.
  - exists w, w. repeat split;
      apply (no_step homeBannerMedia DEFAULT_HOME_BANNER_FILE_NAME randomUUID _ _ w Hout).
Qed.

End LegacyList.

(** ** The migration and the catalog *)

Section MigrationAndCatalog.
Import Js Data Catalog Persisted.

Variable homeBannerMedia : list BannerMedia.
Variable DEFAULT_HOME_BANNER_FILE_NAME : string.
Variable randomUUID : nat -> string.
Variable url_pathname : string -> option string.

Local Abbreviation step :=
  (Migration.migrateUserSettingsStep homeBannerMedia DEFAULT_HOME_BANNER_FILE_NAME randomUUID).
Local Abbreviation resolve :=
  (Migration.resolve_legacy_index homeBannerMedia DEFAULT_HOME_BANNER_FILE_NAME).
Local Abbreviation items := (allMediaItems homeBannerMedia url_pathname).
Local Abbreviation entry_json :=
  (fun entry : HomeBannerCustomMediaItem =>
     JObj [("path", JStr (path entry)); ("id", JStr (id entry))]).

Lemma arr_at_fmap {A B : Type} (f : A -> B) (l : list A) (i : Z) :
  arr_at (f <$> l) i = f <$> arr_at l i.
Proof.
  unfold arr_at. destruct (i <? 0); [reflexivity|]. apply list_lookup_fmap.
Qed.

(** The key the step from 3 to 4 derives from a legacy index is the position
    key of the catalog entry at that index. *)
Lemma resolve_is_position_key (u : UserSettings) (i : Z) (item : MediaItem) :
  Forall (fun entry => id entry ≠ "") (customItems u) ->
  arr_at (items u) i = Some item ->
  resolve (Some (custom_media_json (customItems u))) (Some (JNum i))
  = JStr (getPositionKey item).
Proof.
  intros Hids Hitem.
  pose proof (arr_at_Some _ _ _ Hitem) as Hrange.
  rewrite (items_length homeBannerMedia url_pathname) in Hrange.
  rewrite (key_at_index homeBannerMedia DEFAULT_HOME_BANNER_FILE_NAME url_pathname u i item Hitem).
  unfold Migration.resolve_legacy_index, custom_media_json.
  rewrite length_fmap.
  assert (Hin : ((0 <? Z.of_nat (length (customItems u)) + Z.of_nat (length homeBannerMedia))
                 && (0 <=? i)
                 && (i <? Z.of_nat (length (customItems u)) + Z.of_nat (length homeBannerMedia)))
                = true).
  { rewrite !andb_true_iff. repeat split; lia. }
  rewrite Hin. clear Hin.
  destruct (Z.ltb_spec i (Z.of_nat (length (customItems u)))) as [Hc | Hb].
  - rewrite arr_at_fmap.
    destruct (arr_at_in_range (customItems u) i) as [entry Hentry]; [lia|].
    rewrite Hentry. simpl.
    assert (Hid : id entry ≠ "").
    { unfold arr_at in Hentry. destruct (i <? 0); [discriminate|].
      apply list_elem_of_lookup_2 in Hentry.
      rewrite Forall_forall in Hids. now apply Hids. }
    apply String.eqb_neq in Hid. rewrite Hid. reflexivity.
  - destruct (arr_at homeBannerMedia (i - Z.of_nat (length (customItems u)))) eqn:Hm;
      [reflexivity|].
    destruct (arr_at_in_range homeBannerMedia (i - Z.of_nat (length (customItems u))))
      as [media Hmedia]; [lia|]. congruence.
Qed.

(** X13. The step from 3 to 4 and the catalog agree on what a legacy index
    points at.  When the stored custom list is the JSON form of a list of
    entries with non-empty ids, the stored [homeBannerIndex] is the index of
    an entry of the catalog built from that list and the manifest, and no
    usable [homeBannerMediaId] is stored, the step returns and stores as
    [homeBannerMediaId] the position key of that very entry. *)
Theorem migrate_3_to_4_agrees_with_catalog (w : Migration.World) (u : UserSettings)
    (i : Z) (item : MediaItem) :
  Migration.store w !! "homeBannerCustomMedia" = Some (custom_media_json (customItems u)) ->
  Migration.store w !! "homeBannerIndex" = Some (JNum i) ->
  Migration.mediaId_missing (Migration.store w !! "homeBannerMediaId") = true ->
  Forall (fun entry => id entry ≠ "") (customItems u) ->
  arr_at (items u) i = Some item ->
  exists w',
    step 3 4 w = Migration.Returned tt w' /\
    Migration.store w' !! "homeBannerMediaId" = Some (JStr (getPositionKey item)) /\
    forall k, k ≠ "homeBannerMediaId" -> Migration.store w' !! k = Migration.store w !! k.
Proof.
  intros Hcustom Hindex Hmissing Hids Hitem.
  run_async. unfold Migration.migrate_3_to_4. run_async.
  rewrite Hmissing, Hcustom, Hindex.
  rewrite (resolve_is_position_key u i item Hids Hitem).
  eexists. split; [reflexivity|]. simpl. split.
  - apply lookup_insert_eq.
  - intros k Hk. now apply lookup_insert_ne.
Qed.

Lemma custom_media_json_elements (l : list HomeBannerCustomMediaItem) :
  elements (Some (custom_media_json l)) = entry_json <$> l /\
  Migration.isLegacyFormat (entry_json <$> l) = false /\
  Forall (fun entry => entry ≠ JNull) (entry_json <$> l).
Proof.
  split; [reflexivity|]. split; [now destruct l|].
  apply Forall_fmap, Forall_forall. intros entry _. discriminate.
Qed.

(** The key a legacy position is moved to is the position key of the catalog
    entry at the index the old key reads as. *)
Lemma turn_is_position_key (u : UserSettings) (key : string) (position : JsValue)
    (i : Z) (item : MediaItem) :
  Migration.is_position_object position = true ->
  parseInt key = Some i ->
  arr_at (items u) i = Some item ->
  Migration.migrate_position_entry homeBannerMedia (entry_json <$> customItems u)
    key position
  = Migration.Assign (getPositionKey item) (Migration.validPosition position).
Proof.
  intros Hobject Hparse Hitem.
  pose proof (arr_at_Some _ _ _ Hitem) as Hrange.
  rewrite (items_length homeBannerMedia url_pathname) in Hrange.
  rewrite (key_at_index homeBannerMedia DEFAULT_HOME_BANNER_FILE_NAME url_pathname u i item Hitem).
  destruct (Z.ltb_spec i (Z.of_nat (length (customItems u)))) as [Hc | Hb].
  - destruct (arr_at_in_range (customItems u) i) as [entry Hentry]; [lia|].
    rewrite Hentry.
    apply (turn_custom homeBannerMedia _ key position i (entry_json entry) (id entry));
      try assumption; [|reflexivity].
    now rewrite arr_at_fmap, Hentry.
  - destruct (turn_builtin homeBannerMedia (entry_json <$> customItems u) key position i)
      as (media & Hmedia & Hturn); try assumption.
    { rewrite length_fmap. lia. }
    rewrite length_fmap in Hmedia. now rewrite Hmedia.
Qed.

(** X24. A legacy selection keeps its saved position through the steps from
    2 to 3 and from 3 to 4.  Take a store at version 2 whose custom list is
    the JSON form of a list of entries with non-empty ids, whose
    [homeBannerIndex] is an index of the catalog, with no usable
    [homeBannerMediaId], and whose position map ends with an entry that
    holds an object under a key of digits that reads as that index (the
    other keys that hold an object being keys of digits or keys that
    [parseInt] does not read).  Then both steps return, the
    [homeBannerMediaId] stored in the end is the position key of the catalog
    entry at the index, and the position map stored in the end holds under
    that very key the normalized position of the entry. *)
Theorem legacy_selection_keeps_its_position (w : Migration.World) (u : UserSettings)
    (before : list (string * JsValue)) (key : string) (position : JsValue)
    (i : Z) (item : MediaItem) :
  Migration.store w !! "homeBannerCustomMedia" = Some (custom_media_json (customItems u)) ->
  Migration.store w !! "homeBannerIndex" = Some (JNum i) ->
  Migration.mediaId_missing (Migration.store w !! "homeBannerMediaId") = true ->
  Migration.store w !! "homeBannerPositions" = Some (JObj (before ++ [(key, position)])) ->
  Forall (fun entry => id entry ≠ "") (customItems u) ->
  arr_at (items u) i = Some item ->
  matches_digits key = true -> parseInt key = Some i ->
  Migration.is_position_object position = true ->
  Forall (fun kv => Migration.is_position_object (snd kv) = true ->
                    matches_digits (fst kv) = true \/ parseInt (fst kv) = None) before ->
  getPositionKey item ≠ "__proto__" ->
  exists w1 w2 migratedPositions,
    step 2 3 w = Migration.Returned tt w1 /\
    step 3 4 w1 = Migration.Returned tt w2 /\
    Migration.store w2 !! "homeBannerMediaId" = Some (JStr (getPositionKey item)) /\
    Migration.store w2 !! "homeBannerPositions" = Some (JObj migratedPositions) /\
    obj_get (getPositionKey item) migratedPositions
    = Some (Migration.validPosition position).
Proof.
  intros Hcustom Hindex Hmissing Hpositions Hids Hitem Hdigits Hparse Hobject Hbefore Hproto.
  destruct (custom_media_json_elements (customItems u)) as (Helements & Hlegacy & Hnull).
  assert (Hkeep : Migration.migrate_custom_media randomUUID w
                  = Migration.Returned (entry_json <$> customItems u) w).
  { unfold Migration.migrate_custom_media.
    rewrite (bind_Returned (Migration.storage_get "homeBannerCustomMedia") _ w w
               (Migration.store w !! "homeBannerCustomMedia") eq_refl).
    rewrite Hcustom. unfold custom_media_json. now rewrite Hlegacy. }
  assert (Hnumeric : Migration.hasNumericKeys (Some (JObj (before ++ [(key, position)]))) = true).
  { unfold Migration.hasNumericKeys. simpl. rewrite existsb_app. simpl.
    rewrite Hdigits. now rewrite orb_true_r. }
  assert (Hall : Forall (fun kv => Migration.is_position_object (snd kv) = true ->
                                   matches_digits (fst kv) = true \/ parseInt (fst kv) = None)
                   (before ++ [(key, position)])).
  { apply Forall_app. split; [exact Hbefore|]. constructor; [|constructor]. now left. }
  destruct (loop_returns homeBannerMedia (entry_json <$> customItems u)
              (before ++ [(key, position)]) [] Hnull Hall) as [migratedPositions Hloop].
  pose proof (migrate_2_to_3_run homeBannerMedia DEFAULT_HOME_BANNER_FILE_NAME randomUUID
                w w _ Hkeep) as Hrun.
  rewrite Hpositions, Hnumeric in Hrun. simpl entries in Hrun. rewrite Hloop in Hrun.
  eexists. eexists. exists migratedPositions.
  split; [exact Hrun|].
  run_async. unfold Migration.migrate_3_to_4. run_async.
  rewrite !lookup_insert_ne by discriminate.
  rewrite Hmissing. cbn beta iota delta [Migration.store Migration.written Migration.uuids].
  rewrite !lookup_insert_ne by discriminate.
  rewrite Hcustom, Hindex.
  rewrite (resolve_is_position_key u i item Hids Hitem).
  split; [reflexivity|]. simpl. split; [apply lookup_insert_eq|].
  rewrite lookup_insert_ne by discriminate. rewrite lookup_insert_eq.
  split; [reflexivity|].
  apply (loop_last homeBannerMedia (entry_json <$> customItems u) before [] []
           migratedPositions key position (getPositionKey item)
           (Migration.validPosition position) Hloop).
  - exact (turn_is_position_key u key position i item Hobject Hparse Hitem).
  - exact Hproto.
  - constructor.
Qed.

End MigrationAndCatalog.

(** ** Selecting, adding and removing *)

Section CatalogOperations.
Import Js Data Catalog.

Variable homeBannerMedia : list BannerMedia.
Variable DEFAULT_HOME_BANNER_FILE_NAME : string.
Variable DEFAULT_INFUSION_BACKGROUND_FILE_NAME : string.
Variable randomUUID : nat -> string.
Variable url_pathname : string -> option string.
Variable convertFileSrc : string -> string.
Variable builtinBannerImages : list (string * string).
Variable builtinBannerVideos : list (string * string).

Local Abbreviation items := (allMediaItems homeBannerMedia url_pathname).
Local Abbreviation index_of :=
  (normalizedIndex homeBannerMedia DEFAULT_HOME_BANNER_FILE_NAME url_pathname).
Local Abbreviation current :=
  (currentItem homeBannerMedia DEFAULT_HOME_BANNER_FILE_NAME url_pathname).
Local Abbreviation target := (mediaId DEFAULT_HOME_BANNER_FILE_NAME).
Local Abbreviation select := (selectMedia homeBannerMedia url_pathname).
Local Abbreviation add_url := (addMediaUrl DEFAULT_HOME_BANNER_FILE_NAME randomUUID).
Local Abbreviation remove :=
  (removeCustomMedia homeBannerMedia DEFAULT_HOME_BANNER_FILE_NAME url_pathname).
Local Abbreviation short_id := (fun n : nat => substring 0 8 (remove_dashes (randomUUID n))).
Local Abbreviation by_key k := (fun item : MediaItem => String.eqb (getPositionKey item) k).
Local Abbreviation infusion :=
  (getInfusionMediaFromBackground homeBannerMedia DEFAULT_INFUSION_BACKGROUND_FILE_NAME
     url_pathname convertFileSrc builtinBannerImages builtinBannerVideos).
Local Abbreviation media := (media_of convertFileSrc builtinBannerImages builtinBannerVideos).

Lemma target_stored (u : UserSettings) (k : string) :
  homeBannerMediaId u = Some k -> trim k ≠ "" -> target u = k.
Proof.
  intros Hk Ht. unfold mediaId. rewrite Hk.
  apply String.eqb_neq in Ht. now rewrite Ht.
Qed.

(** With a stored key that some entry of the catalog has, the selection is
    the first entry with that key. *)
Lemma index_of_present (u : UserSettings) (k : string) (i : Z) (item : MediaItem) :
  target u = k ->
  arr_at (items u) i = Some item -> getPositionKey item = k ->
  index_of u = findIndex (by_key k) (items u) /\
  0 <= index_of u <= i /\
  exists first, arr_at (items u) (index_of u) = Some first /\ getPositionKey first = k.
Proof.
  intros Ht Hitem Hkey.
  assert (Hfound : exists l1 x l2,
             items u = (l1 ++ x :: l2)%list /\ Forall (fun y => by_key k y = false) l1 /\
             by_key k x = true /\ findIndex (by_key k) (items u) = Z.of_nat (length l1)).
  { destruct (findIndex_cases (by_key k) (items u)) as [[_ Hall] | H]; [|exact H].
    exfalso. unfold arr_at in Hitem. destruct (i <? 0); [discriminate|].
    apply list_elem_of_lookup_2 in Hitem. rewrite Forall_forall in Hall.
    specialize (Hall item Hitem). simpl in Hall. rewrite Hkey, String.eqb_refl in Hall.
    discriminate. }
  destruct Hfound as (l1 & x & l2 & Hsplit & Hbefore & Hx & Hindex).
  assert (E : index_of u = Z.of_nat (length l1)).
  { unfold normalizedIndex. rewrite Ht. fold (items u).
    destruct (items u) as [|first rest] eqn:Hitems; [now destruct l1|].
    rewrite Hindex. destruct (Z.geb_spec (Z.of_nat (length l1)) 0); [reflexivity | lia]. }
  split; [now rewrite E, Hindex|]. split.
  - rewrite E. split; [lia|].
    destruct (Z.le_gt_cases (Z.of_nat (length l1)) i) as [?|Hlt]; [assumption|].
    exfalso. pose proof (arr_at_Some _ _ _ Hitem) as Hrange.
    unfold arr_at in Hitem. destruct (Z.ltb_spec i 0); [lia|].
    rewrite Hsplit, lookup_app_l in Hitem by lia.
    apply list_elem_of_lookup_2 in Hitem. rewrite Forall_forall in Hbefore.
    specialize (Hbefore item Hitem). simpl in Hbefore.
    rewrite Hkey, String.eqb_refl in Hbefore. discriminate.
  - exists x. rewrite E, arr_at_of_nat, Hsplit, list_lookup_middle by reflexivity.
    split; [reflexivity|]. now apply String.eqb_eq in Hx.
Qed.

(** X14. [selectMedia] on an index of the catalog stores the position key of
    the entry at that index and then the index, and nothing else; the
    catalog is the same afterwards, and when the key is not blank the
    selection resolves to an entry with that key, at the first index that
    has it, which is the index given when no earlier entry shares the key.
    On an index outside the catalog, [selectMedia] does nothing. *)
Theorem selectMedia_selects (index : Z) (st : SettingsStore) :
  let st' := select index st in
  match arr_at (items (userSettings st)) index with
  | Some item =>
      saved st' = (saved st ++ [SetHomeBannerMediaId (getPositionKey item);
                                SetHomeBannerIndex index])%list /\
      homeBannerMediaId (userSettings st') = Some (getPositionKey item) /\
      homeBannerIndex (userSettings st') = Some index /\
      items (userSettings st') = items (userSettings st) /\
      (trim (getPositionKey item) ≠ "" ->
       0 <= index_of (userSettings st') <= index /\
       (exists selected, current (userSettings st') = Some selected /\
                         getPositionKey selected = getPositionKey item) /\
       ((forall j other, arr_at (items (userSettings st)) j = Some other ->
                         getPositionKey other = getPositionKey item -> index <= j) ->
        index_of (userSettings st') = index /\ current (userSettings st') = Some item))
  | None => st' = st /\ (index < 0 \/ Z.of_nat (length (items (userSettings st))) <= index)
  end.
Proof.
  intros st'. subst st'. unfold selectMedia.
  destruct (arr_at (items (userSettings st)) index) as [item|] eqn:Hitem.
  - set (st' := userSettingsStore_set _ (userSettingsStore_set _ st)).
    assert (Hitems : items (userSettings st') = items (userSettings st)) by reflexivity.
    split; [simpl; now rewrite <- app_assoc|].
    split; [reflexivity|]. split; [reflexivity|]. split; [exact Hitems|].
    intros Hblank.
    assert (Ht : target (userSettings st') = getPositionKey item)
      by now apply target_stored.
    rewrite <- Hitems in Hitem.
    destruct (index_of_present (userSettings st') _ index item Ht Hitem eq_refl)
      as (_ & Hle & first & Hfirst & Hkey).
    split; [exact Hle|]. split; [now exists first|].
    intros Hunique.
    assert (E : index_of (userSettings st') = index).
    { rewrite Hitems in Hfirst. specialize (Hunique _ _ Hfirst Hkey). lia. }
    split; [exact E|]. unfold currentItem. now rewrite E.
  - split; [reflexivity|].
    destruct (Z.lt_ge_cases index 0) as [?|?]; [now left|].
    destruct (Z.le_gt_cases (Z.of_nat (length (items (userSettings st)))) index) as [?|?];
      [now right|].
    destruct (arr_at_in_range (items (userSettings st)) index) as [x Hx]; [lia|]. congruence.
Qed.

(** What [addMediaUrl] leaves when it adds. *)
Lemma addMediaUrl_added (url : string) (st : SettingsStore) :
  trim url ≠ "" -> isUrl (trim url) = true ->
  existsb (fun entry => String.eqb (path entry) (trim url)) (customItems (userSettings st))
  = false ->
  let newEntry := {| path := trim url; id := short_id (uuids st) |} in
  userSettings (add_url url st) =
    {| homeBannerCustomMedia := Some (customItems (userSettings st) ++ [newEntry])%list;
       homeBannerMediaId := Some (id newEntry);
       homeBannerIndex := Some (Z.of_nat (length (customItems (userSettings st))));
       homeBannerPositions := homeBannerPositions (userSettings st) |} /\
  uuids (add_url url st) = S (uuids st).
Proof.
  intros Hne Hurl Hnew newEntry. unfold addMediaUrl.
  apply String.eqb_neq in Hne. rewrite Hne, Hurl, Hnew. simpl.
  rewrite arr_at_of_nat, list_lookup_middle by reflexivity. split; reflexivity.
Qed.

(** X15. [addMediaUrl] is idempotent: adding the same URL a second time
    changes nothing, whatever the URL and the settings; no setting is
    written by the second call and no id is drawn. *)
Theorem addMediaUrl_twice (url : string) (st : SettingsStore) :
  add_url url (add_url url st) = add_url url st.
Proof.
  assert (Hnoop : forall st0,
             (String.eqb (trim url) "" || negb (isUrl (trim url))
              || existsb (fun entry => String.eqb (path entry) (trim url))
                   (customItems (userSettings st0)))%bool = true ->
             add_url url st0 = st0).
  { intros st0 H. unfold addMediaUrl. cbv zeta.
    destruct (String.eqb (trim url) "" || negb (isUrl (trim url)))%bool; [reflexivity|].
    simpl in H. now rewrite H. }
  destruct (String.eqb (trim url) "") eqn:Hempty.
  { assert (E : add_url url st = st) by (now apply Hnoop).
    now rewrite !E. }
  destruct (isUrl (trim url)) eqn:Hurl.
  2: { assert (E : add_url url st = st) by (now apply Hnoop).
       now rewrite !E. }
  destruct (existsb (fun entry => String.eqb (path entry) (trim url))
              (customItems (userSettings st))) eqn:Hexists.
  { assert (E : add_url url st = st) by (now apply Hnoop).
    now rewrite !E. }
  apply String.eqb_neq in Hempty.
  destruct (addMediaUrl_added url st Hempty Hurl Hexists) as (Hsettings & _).
  apply Hnoop. rewrite Hsettings. unfold customItems. simpl.
  rewrite existsb_app. simpl. rewrite String.eqb_refl. now rewrite !orb_true_r.
Qed.

Lemma filter_all {A : Type} (q : A -> bool) (l : list A) :
  Forall (fun x => q x = true) l -> List.filter q l = l.
Proof.
  induction 1 as [|x l Hx _ IH]; simpl; [reflexivity|]. now rewrite Hx, IH.
Qed.

Lemma customItems_removed (p : string) (st : SettingsStore) :
  customItems (userSettings (remove p st))
  = List.filter (fun entry => negb (String.eqb (path entry) p)) (customItems (userSettings st)).
Proof.
  destruct (remove_run homeBannerMedia DEFAULT_HOME_BANNER_FILE_NAME url_pathname p st)
    as (u2 & _ & _ & _ & ->).
  reflexivity.
Qed.

(** X16. Adding a URL and removing it again gives back the custom list:
    when the trimmed URL is an http(s) URL that no custom entry has as its
    path, the custom list after [addMediaUrl] followed by [removeCustomMedia]
    of the trimmed URL is the list from before, entry for entry. *)
Theorem add_then_remove (url : string) (st : SettingsStore) :
  trim url ≠ "" -> isUrl (trim url) = true ->
  (forall entry, entry ∈ customItems (userSettings st) -> path entry ≠ trim url) ->
  customItems (userSettings (remove (trim url) (add_url url st)))
  = customItems (userSettings st).
Proof.
  intros Hne Hurl Hnew.
  rewrite customItems_removed.
  destruct (addMediaUrl_added url st Hne Hurl) as (-> & _).
  { now apply existsb_path_false. }
  unfold customItems at 1. simpl.
  rewrite List.filter_app. simpl. rewrite String.eqb_refl. simpl.
  rewrite app_nil_r. apply filter_all.
  apply Forall_forall. intros entry Hentry.
  apply negb_true_iff, String.eqb_neq. now apply Hnew.
Qed.

(** X17. After [addMediaUrl] has added an entry, the index it stores is the
    index the selection resolves to, and the selection is the new entry:
    this holds when the id drawn is not blank and is not the position key of
    an entry the catalog already had. *)
Theorem addMediaUrl_selects_new_entry (url : string) (st : SettingsStore) :
  trim url ≠ "" -> isUrl (trim url) = true ->
  (forall entry, entry ∈ customItems (userSettings st) -> path entry ≠ trim url) ->
  trim (short_id (uuids st)) ≠ "" ->
  (forall item, item ∈ items (userSettings st) -> getPositionKey item ≠ short_id (uuids st)) ->
  let u' := userSettings (add_url url st) in
  let c := length (customItems (userSettings st)) in
  index_of u' = Z.of_nat c /\
  homeBannerIndex u' = Some (index_of u') /\
  current u' =
    Some (custom_item url_pathname c {| path := trim url; id := short_id (uuids st) |}).
Proof.
  intros Hne Hurl Hnew Hblank Hfresh u' c. subst u' c.
  destruct (addMediaUrl_added url st Hne Hurl) as (Hsettings & _).
  { now apply existsb_path_false. }
  set (u' := userSettings (add_url url st)) in *.
  set (newEntry := {| path := trim url; id := short_id (uuids st) |}) in *.
  assert (Hcustom : customItems u' = (customItems (userSettings st) ++ [newEntry])%list).
  { unfold customItems at 1. now rewrite Hsettings. }
  assert (Hat : arr_at (items u') (Z.of_nat (length (customItems (userSettings st))))
                = Some (custom_item url_pathname (length (customItems (userSettings st)))
                          newEntry)).
  { apply (arr_at_items_custom homeBannerMedia url_pathname u' _ [] newEntry Hcustom). }
  assert (Ht : target u' = short_id (uuids st)).
  { apply target_stored; [now rewrite Hsettings | exact Hblank]. }
  destruct (index_of_present u' _ _ _ Ht Hat eq_refl) as (_ & [Hlo Hhi] & first & Hfirst & Hkey).
  assert (E : index_of u' = Z.of_nat (length (customItems (userSettings st)))).
  { destruct (Z.eq_dec (index_of u') (Z.of_nat (length (customItems (userSettings st)))))
      as [?|Hlt]; [assumption|].
    exfalso.
    assert (Hold : arr_at (items (userSettings st)) (index_of u') = Some first
                   \/ exists entry, customItems (userSettings st) !! Z.to_nat (index_of u')
                                    = Some entry /\ id entry = getPositionKey first).
    { right. unfold arr_at in Hfirst. destruct (Z.ltb_spec (index_of u') 0); [lia|].
      destruct (lookup_lt_is_Some_2 (customItems (userSettings st)) (Z.to_nat (index_of u')))
        as [entry Hentry]; [lia|].
      exists entry. split; [exact Hentry|].
      rewrite (items_custom homeBannerMedia url_pathname u' (Z.to_nat (index_of u')) entry)
        in Hfirst.
      - injection Hfirst as <-. reflexivity.
      - rewrite Hcustom. now apply lookup_app_l_Some. }
    destruct Hold as [Hold | (entry & Hentry & Hid)].
    - unfold arr_at in Hold. destruct (index_of u' <? 0); [discriminate|].
      apply list_elem_of_lookup_2 in Hold. now apply (Hfresh first).
    - apply (Hfresh (custom_item url_pathname (Z.to_nat (index_of u')) entry)).
      + apply list_elem_of_lookup_2 with (Z.to_nat (index_of u')).
        now apply (items_custom homeBannerMedia url_pathname).
      + simpl. congruence. }
  split; [exact E|]. split; [rewrite E; now rewrite Hsettings|].
  unfold currentItem. rewrite E. exact Hat.
Qed.

(** X18. The two resolvers pick the same entry for a key that is present.
    When the stored [homeBannerMediaId] and the [mediaId] of a background
    descriptor are the same string, not blank, and some entry of the catalog
    has it as its position key, then [currentItem] is the first entry of
    the catalog with that key, and [getInfusionMediaFromBackground] returns
    the url and the type of that same entry. *)
Theorem resolvers_agree_on_present_key (u : UserSettings) (background : Background)
    (k : string) (i : Z) (item : MediaItem) :
  homeBannerMediaId u = Some k ->
  background_mediaId background = Some k ->
  trim k ≠ "" ->
  arr_at (items u) i = Some item -> getPositionKey item = k ->
  exists first,
    List.find (by_key k) (items u) = Some first /\
    getPositionKey first = k /\
    current u = Some first /\
    infusion u background = media first.
Proof.
  intros Hstored Hbackground Hblank Hitem Hkey.
  pose proof (target_stored u k Hstored Hblank) as Ht.
  destruct (index_of_present u k i item Ht Hitem Hkey) as (Hindex & _ & first & Hfirst & Hk).
  exists first.
  assert (Hfind : List.find (by_key k) (items u) = Some first).
  { rewrite find_findIndex, <- Hindex. exact Hfirst. }
  split; [exact Hfind|]. split; [exact Hk|]. split; [exact Hfirst|].
  unfold getInfusionMediaFromBackground. rewrite Hbackground.
  apply String.eqb_neq in Hblank. rewrite Hblank. simpl.
  fold (items u). now rewrite Hfind.
Qed.

End CatalogOperations.

(** ** File names and paths *)

Section Paths.
Import Js.

Lemma has_char_app (c : ascii) (s t : string) :
  has_char c (s +:+ t) = (has_char c s || has_char c t)%bool.
Proof.
  induction s as [|a s IH]; [reflexivity|].
  change (String a s +:+ t) with (String a (s +:+ t)). simpl.
  now rewrite IH, orb_assoc.
Qed.

Lemma has_char_rev (c : ascii) (acc s : string) :
  has_char c (rev_string acc s) = (has_char c acc || has_char c s)%bool.
Proof.
  revert acc. induction s as [|a s IH]; intros acc; simpl.
  - now rewrite orb_false_r.
  - rewrite IH. simpl. destruct (Ascii.eqb a c), (has_char c acc), (has_char c s); reflexivity.
Qed.

Lemma string_app_assoc (s t v : string) : (s +:+ t) +:+ v = s +:+ (t +:+ v).
Proof.
  induction s as [|a s IH]; [reflexivity|].
  change (String a ((s +:+ t) +:+ v) = String a (s +:+ (t +:+ v))). now rewrite IH.
Qed.

Lemma string_app_nil_r (s : string) : s +:+ "" = s.
Proof.
  induction s as [|a s IH]; [reflexivity|].
  change (String a (s +:+ "") = String a s). now rewrite IH.
Qed.

Lemma rev_string_app (acc s : string) :
  rev_string acc s = rev_string "" s +:+ acc.
Proof.
  revert acc. induction s as [|a s IH]; intros acc; [reflexivity|].
  simpl. rewrite (IH (String a acc)), (IH (String a "")).
  now rewrite string_app_assoc.
Qed.

(** No separator is left in a last segment. *)
Lemma last_segment_free (sep : ascii -> bool) (c : ascii) (cur s : string) :
  sep c = true -> has_char c cur = false -> has_char c (last_segment sep cur s) = false.
Proof.
  intros Hc. revert cur. induction s as [|a s IH]; intros cur Hcur; simpl.
  - now rewrite has_char_rev, Hcur.
  - destruct (sep a) eqn:Ha.
    + now apply IH.
    + apply IH. simpl. rewrite Hcur, orb_false_r.
      destruct (Ascii.eqb_spec a c) as [->|]; [congruence | reflexivity].
Qed.

(** A string without separators is its own last segment, and it is what
    follows the last separator. *)
Lemma last_segment_plain (sep : ascii -> bool) (cur s : string) :
  (forall c, sep c = true -> has_char c s = false) ->
  last_segment sep cur s = rev_string "" cur +:+ s.
Proof.
  revert cur. induction s as [|a s IH]; intros cur Hs; simpl.
  - now rewrite string_app_nil_r.
  - destruct (sep a) eqn:Ha.
    + specialize (Hs a Ha). simpl in Hs. now rewrite Ascii.eqb_refl in Hs.
    + rewrite IH.
      * simpl. rewrite (rev_string_app (String a "") cur).
        now rewrite string_app_assoc.
      * intros c Hc. specialize (Hs c Hc). simpl in Hs.
        now apply orb_false_elim in Hs as [_ Hs].
Qed.

Lemma last_segment_after (sep : ascii -> bool) (cur before : string) (c : ascii)
    (s : string) :
  sep c = true ->
  (forall d, sep d = true -> has_char d s = false) ->
  last_segment sep cur (before +:+ String c s) = s.
Proof.
  intros Hc Hs. revert cur. induction before as [|a before IH]; intros cur.
  - simpl. rewrite Hc. now rewrite last_segment_plain.
  - change (String a before +:+ ?x) with (String a (before +:+ x)). simpl.
    destruct (sep a); apply IH.
Qed.

Lemma backslashes_to_slashes_free (s : string) :
  has_char "\" (backslashes_to_slashes s) = false.
Proof.
  induction s as [|a s IH]; [reflexivity|]. simpl.
  destruct (Ascii.eqb_spec a "\") as [->|Hne]; simpl; [exact IH|].
  rewrite IH, orb_false_r. now apply Ascii.eqb_neq.
Qed.

Lemma collapse_slashes_cons (c : ascii) (rest : string) :
  collapse_slashes (String c rest) =
  if (Ascii.eqb c "/" && starts_with_slash rest)%bool
  then collapse_slashes rest
  else String c (collapse_slashes rest).
Proof.
  cbn [collapse_slashes]. destruct (Ascii.eqb c "/"); [|reflexivity].
  destruct rest as [|b rest]; [reflexivity|].
  destruct b as [[] [] [] [] [] [] [] []]; reflexivity.
Qed.

Lemma collapse_slashes_keeps_out (c : ascii) (s : string) :
  has_char c s = false -> has_char c (collapse_slashes s) = false.
Proof.
  induction s as [|a s IH]; [reflexivity|]. intros H.
  simpl in H. apply orb_false_elim in H as [Ha Hs].
  rewrite collapse_slashes_cons.
  destruct (Ascii.eqb a "/" && starts_with_slash s)%bool; [now apply IH|].
  simpl. rewrite Ha. now apply IH.
Qed.

Lemma collapse_slashes_starts (s : string) :
  starts_with_slash (collapse_slashes s) = starts_with_slash s.
Proof.
  induction s as [|a s IH]; [reflexivity|].
  rewrite collapse_slashes_cons. simpl.
  destruct (Ascii.eqb a "/") eqn:Ea; destruct (starts_with_slash s) eqn:Es; simpl;
    rewrite ?Ea; try reflexivity.
  exact IH.
Qed.

Lemma prefix_cons (a b : ascii) (p s : string) :
  String.prefix (String a p) (String b s)
  = if ascii_dec a b then String.prefix p s else false.
Proof. reflexivity. Qed.

Lemma prefix_two_slashes (s : string) :
  String.prefix "//" s =
  match s with
  | String a rest => (Ascii.eqb a "/" && starts_with_slash rest)%bool
  | EmptyString => false
  end.
Proof.
  destruct s as [|a [|b rest]]; [reflexivity| |].
  - rewrite prefix_cons. destruct (ascii_dec "/" a) as [<-|Hne]; [reflexivity|].
    simpl. now rewrite andb_false_r.
  - rewrite !prefix_cons. simpl starts_with_slash.
    destruct (ascii_dec "/" a) as [<-|Ha].
    + destruct (ascii_dec "/" b) as [<-|Hb]; [now destruct rest|].
      symmetry. apply Ascii.eqb_neq. congruence.
    + assert (E : Ascii.eqb a "/" = false) by (apply Ascii.eqb_neq; congruence).
      now rewrite E.
Qed.

(** No two slashes in a row are left. *)
Lemma collapse_slashes_single (s : string) : includes "//" (collapse_slashes s) = false.
Proof.
  induction s as [|a s IH]; [reflexivity|].
  rewrite collapse_slashes_cons.
  destruct (Ascii.eqb a "/" && starts_with_slash s)%bool eqn:E; [exact IH|].
  rewrite includes_unfold, IH, orb_false_r, prefix_two_slashes.
  now rewrite collapse_slashes_starts.
Qed.

Lemma collapse_slashes_plain (s : string) :
  has_char "/" s = false -> collapse_slashes s = s.
Proof.
  induction s as [|a s IH]; [reflexivity|]. intros H.
  simpl in H. apply orb_false_elim in H as [Ha Hs].
  rewrite collapse_slashes_cons, Ha. simpl. now rewrite IH.
Qed.

(** Collapsing keeps what follows the last slash. *)
Lemma collapse_slashes_tail (before s : string) :
  has_char "/" s = false ->
  exists kept, collapse_slashes (before +:+ String "/" s) = kept +:+ String "/" s.
Proof.
  intros Hs. induction before as [|a before IH].
  - exists EmptyString. change (EmptyString +:+ ?x) with x. rewrite collapse_slashes_cons.
    assert (E : starts_with_slash s = false).
    { destruct s as [|b s']; [reflexivity|]. simpl in Hs.
      now apply orb_false_elim in Hs as [Hb _]. }
    rewrite E, andb_false_r. now rewrite collapse_slashes_plain.
  - destruct IH as [kept IH].
    change (String a before +:+ ?x) with (String a (before +:+ x)).
    rewrite collapse_slashes_cons, IH.
    destruct (_ && _)%bool; [now exists kept | now exists (String a kept)].
Qed.

End Paths.

(** ** File names in the catalog *)

Section FileNames.
Import Js Data Catalog.

Variable homeBannerMedia : list BannerMedia.
Variable DEFAULT_HOME_BANNER_FILE_NAME : string.
Variable randomUUID : nat -> string.
Variable url_pathname : string -> option string.
Variable appStorageHomeBannerMediaPath : option string.
Variable ensure_directory : string -> option unit.
Variable copy_items : list string -> string -> option CopyResult.

Local Abbreviation items := (allMediaItems homeBannerMedia url_pathname).
Local Abbreviation add_files :=
  (addFilesFromPaths DEFAULT_HOME_BANNER_FILE_NAME randomUUID appStorageHomeBannerMediaPath
     ensure_directory copy_items).

Lemma is_slash_free (c : ascii) (s : string) :
  is_slash c = true -> has_char c (last_path_segment s) = false.
Proof. intros Hc. now apply last_segment_free. Qed.

Lemma isUrl_has_slash (s : string) : isUrl s = true -> has_char "/" s = true.
Proof.
  assert (Htail : forall tail, String.prefix "//" tail = true -> has_char "/" tail = true).
  { intros tail H. rewrite prefix_two_slashes in H.
    destruct tail as [|a rest]; [discriminate|].
    apply andb_true_iff in H as [Ha _]. simpl. now rewrite Ha. }
  unfold isUrl, startsWith. intros H. apply orb_true_iff in H as [H | H].
  - apply (prefix_app_elim "http:" "//") in H as (tail & -> & H).
    rewrite has_char_app, (Htail tail H). apply orb_true_r.
  - apply (prefix_app_elim "https:" "//") in H as (tail & -> & H).
    rewrite has_char_app, (Htail tail H). apply orb_true_r.
Qed.

Lemma file_name_is_no_url (p : string) : isUrl (last_path_segment p) = false.
Proof.
  destruct (isUrl (last_path_segment p)) eqn:E; [|reflexivity].
  apply isUrl_has_slash in E. now rewrite is_slash_free in E.
Qed.

(** X19. The catalog never parses a URL.  The type of a custom entry is
    decided by the text after the last dot of the last segment of its path
    (the part after the last slash or backslash), lower-cased: [video] when
    that is one of the six video extensions, [image] otherwise, also when
    there is no dot; [getExtension] is given that segment, which is never
    read as a URL.  So the catalog is the same whatever the URL parser
    answers. *)
Theorem catalog_never_parses_urls (other_pathname : string -> option string)
    (u : UserSettings) :
  allMediaItems homeBannerMedia url_pathname u
  = allMediaItems homeBannerMedia other_pathname u /\
  forall (i : nat) (entry : HomeBannerCustomMediaItem),
    customItems u !! i = Some entry ->
    allMediaItems homeBannerMedia url_pathname u !! i =
    Some (custom (Z.of_nat i) (path entry) (id entry) (last_path_segment (path entry))
            (if isVideoExtension
                  match after_last (Ascii.eqb ".") (last_path_segment (path entry)) with
                  | Some ext => toLowerCase ext
                  | None => ""
                  end
             then video else image)).
Proof.
  assert (Hitem : forall parse i entry,
             custom_item parse i entry =
             custom (Z.of_nat i) (path entry) (id entry) (last_path_segment (path entry))
               (if isVideoExtension
                     match after_last (Ascii.eqb ".") (last_path_segment (path entry)) with
                     | Some ext => toLowerCase ext
                     | None => ""
                     end
                then video else image)).
  { intros parse i entry. unfold custom_item, getExtension.
    now rewrite file_name_is_no_url. }
  split.
  - unfold allMediaItems. f_equal. apply imap_ext. intros i entry _.
    now rewrite !Hitem.
  - intros i entry Hentry.
    rewrite (items_custom homeBannerMedia url_pathname u i entry Hentry).
    now rewrite Hitem.
Qed.

(** What [addFilesFromPaths] leaves when it returns. *)
Lemma addFilesFromPaths_returned (sourcePaths : list string) (st st' : SettingsStore) :
  add_files sourcePaths st = Returned st' ->
  st' = st \/
  exists destDir,
    appStorageHomeBannerMediaPath = Some destDir /\
    customItems (userSettings st')
    = (customItems (userSettings st) ++ fst (new_entries randomUUID destDir sourcePaths st))%list.
Proof.
  unfold addFilesFromPaths.
  destruct sourcePaths as [|src rest]; [intros [= <-]; now left|].
  destruct appStorageHomeBannerMediaPath as [destDir|]; [|intros [= <-]; now left].
  destruct (String.eqb destDir ""); [intros [= <-]; now left|].
  destruct (ensure_directory destDir); [|discriminate].
  destruct (copy_items (src :: rest) destDir) as [result|]; [|discriminate].
  destruct (_ && _)%bool; [discriminate|].
  destruct (new_entries_run randomUUID destDir (src :: rest) st) as (Hst & _ & _).
  destruct (new_entries randomUUID destDir (src :: rest) st) as [newEntries st1] eqn:Enew.
  simpl in Hst. subst st1. cbn [userSettings].
  destruct (customItems (userSettings st) ++ newEntries)%list as [|x l] eqn:Happ.
  - intros [= <-]. right. exists destDir. split; [reflexivity|].
    rewrite Enew. simpl. now rewrite Happ.
  - destruct (arr_at (x :: l) _); [|discriminate].
    intros [= <-]. right. exists destDir. split; [reflexivity|].
    rewrite Enew. simpl. now rewrite Happ.
Qed.

(** X20. The entries [addFilesFromPaths] appends keep the file names of the
    sources and have normalized paths.  When the call returns, every entry
    of the custom list behind the entries there were before belongs to the
    source path at the same offset; its path holds no backslash and no two
    slashes in a row, the last segment of its path is the last segment of
    the source path, and that segment is the display name of the entry in
    the catalog. *)
Theorem added_files_keep_their_names (sourcePaths : list string) (st st' : SettingsStore)
    (i : nat) (entry : HomeBannerCustomMediaItem) :
  add_files sourcePaths st = Returned st' ->
  customItems (userSettings st') !! (length (customItems (userSettings st)) + i)%nat
  = Some entry ->
  exists src,
    sourcePaths !! i = Some src /\
    has_char "\" (path entry) = false /\
    includes "//" (path entry) = false /\
    last_path_segment (path entry) = last_path_segment src /\
    exists item,
      items (userSettings st') !! (length (customItems (userSettings st)) + i)%nat
      = Some item /\
      getItemDisplayName item = last_path_segment src.
Proof.
  intros Hreturned Hentry.
  destruct (addFilesFromPaths_returned sourcePaths st st' Hreturned)
    as [-> | (destDir & _ & Hcustom)].
  { apply lookup_lt_Some in Hentry. lia. }
  destruct (new_entries_run randomUUID destDir sourcePaths st) as (_ & Hlen & Hnth).
  pose proof Hentry as Hlookup.
  rewrite Hcustom, lookup_app_r in Hlookup by lia.
  replace (length (customItems (userSettings st)) + i - length (customItems (userSettings st)))%nat
    with i in Hlookup by lia.
  destruct (lookup_lt_is_Some_2 sourcePaths i) as [src Hsrc].
  { rewrite <- Hlen. now apply lookup_lt_Some in Hlookup. }
  rewrite (Hnth i src Hsrc) in Hlookup. injection Hlookup as <-.
  exists src. cbn [path].
  assert (Hname : forall c, is_slash c = true -> has_char c (last_path_segment src) = false).
  { intros c Hc. now apply is_slash_free. }
  assert (Hlast : last_path_segment
                    (collapse_slashes
                       (backslashes_to_slashes destDir +:+ "/" +:+ last_path_segment src))
                  = last_path_segment src).
  { destruct (collapse_slashes_tail (backslashes_to_slashes destDir) (last_path_segment src))
      as [kept Hkept]; [now apply Hname|].
    change ("/" +:+ last_path_segment src) with (String "/" (last_path_segment src)).
    rewrite Hkept. unfold last_path_segment at 1.
    now apply last_segment_after. }
  split; [exact Hsrc|]. split; [|split; [|split]].
  - apply collapse_slashes_keeps_out.
    rewrite !has_char_app, backslashes_to_slashes_free. simpl.
    now apply Hname.
  - apply collapse_slashes_single.
  - exact Hlast.
  - eexists. split.
    + apply (items_custom homeBannerMedia url_pathname). exact Hentry.
    + simpl. exact Hlast.
Qed.

End FileNames.

(** ** Choosing the background of the visual effects *)

Section BackgroundChoice.
Import Js Data Catalog VisualEffects.

Variable homeBannerMedia : list BannerMedia.
Variable DEFAULT_INFUSION_BACKGROUND_FILE_NAME : string.
Variable url_pathname : string -> option string.
Variable convertFileSrc : string -> string.
Variable builtinBannerImages : list (string * string).
Variable builtinBannerVideos : list (string * string).

Local Abbreviation items := (allMediaItems homeBannerMedia url_pathname).
Local Abbreviation options := (backgroundMediaOptions homeBannerMedia url_pathname).
Local Abbreviation shown :=
  (getInfusionBackgroundMediaId homeBannerMedia DEFAULT_INFUSION_BACKGROUND_FILE_NAME).
Local Abbreviation selected :=
  (selectedBackground homeBannerMedia DEFAULT_INFUSION_BACKGROUND_FILE_NAME url_pathname).
Local Abbreviation choose := (set_selectedBackground homeBannerMedia url_pathname).
Local Abbreviation next :=
  (selectNextBackground homeBannerMedia DEFAULT_INFUSION_BACKGROUND_FILE_NAME url_pathname).
Local Abbreviation infusion_media :=
  (getInfusionMediaFromBackground homeBannerMedia DEFAULT_INFUSION_BACKGROUND_FILE_NAME
     url_pathname convertFileSrc builtinBannerImages builtinBannerVideos).
Local Abbreviation media := (media_of convertFileSrc builtinBannerImages builtinBannerVideos).
Local Abbreviation option_of :=
  (fun i : MediaItem =>
     {| name := getItemDisplayName i; value := getPositionKey i; item := i |}).
Local Abbreviation with_value k := (fun opt : MediaOption => String.eqb (value opt) k).
Local Abbreviation by_key k := (fun i : MediaItem => String.eqb (getPositionKey i) k).

Lemma same_page_refl (page : InfusionPage) : same_page page page = true.
Proof. apply String.eqb_refl. Qed.

Lemma find_options (k : string) (l : list MediaItem) :
  List.find (with_value k) (option_of <$> l) = option_of <$> List.find (by_key k) l.
Proof.
  induction l as [|i l IH]; [reflexivity|]. simpl.
  destruct (String.eqb (getPositionKey i) k); [reflexivity | exact IH].
Qed.

Lemma page_kept (option : MediaOption) (s : Settings) :
  effectivePageToCustomize (choose option s) = effectivePageToCustomize s.
Proof. reflexivity. Qed.

(** X21. What is chosen in the settings is what is rendered.  After the
    setter of [selectedBackground] has run with an option of
    [backgroundMediaOptions] whose value is not blank: the background of the
    page being customized holds that value as [mediaId] and, as [index], the
    first index of the options with that value; the descriptor is passed on
    to be persisted under the key of that page; the backgrounds of the other
    pages are as before; the getter gives the first option with that value;
    and [getInfusionMediaFromBackground] resolves the stored descriptor to
    the url and type of the entry of that option. *)
Theorem chosen_background_is_rendered (option : MediaOption) (s : Settings) :
  option ∈ options s ->
  trim (value option) ≠ "" ->
  let page := effectivePageToCustomize s in
  let s' := choose option s in
  let background := currentBackground s' in
  backgrounds (infusion s') page = background /\
  mediaId background = Some (value option) /\
  index background = Some (findIndex (with_value (value option)) (options s)) /\
  stored s' = (stored s ++ [(getStorageKeyForPage page "background", background)])%list /\
  (forall other, same_page other page = false ->
                 backgrounds (infusion s') other = backgrounds (infusion s) other) /\
  shown s' = value option /\
  exists first,
    arr_at (options s) (findIndex (with_value (value option)) (options s)) = Some first /\
    value first = value option /\
    selected s' = Some first /\
    infusion_media (banner s') (rendered background) = media (item first).
Proof.
  intros Hin Hblank page s' background.
  assert (Hpage : effectivePageToCustomize s' = page) by reflexivity.
  assert (Hfound : exists first,
             List.find (with_value (value option)) (options s) = Some first /\
             value first = value option).
  { destruct (List.find (with_value (value option)) (options s)) as [first|] eqn:E.
    - exists first. split; [reflexivity|].
      apply find_some in E as [_ E]. now apply String.eqb_eq in E.
    - exfalso. apply list_elem_of_In in Hin.
      pose proof (find_none _ _ E option Hin) as H. simpl in H.
      now rewrite String.eqb_refl in H. }
  destruct Hfound as (first & Hfirst & Hvalue).
  assert (Hindex : 0 <= findIndex (with_value (value option)) (options s)).
  { rewrite find_findIndex in Hfirst. apply arr_at_Some in Hfirst. lia. }
  assert (Hbackground :
            background =
            {| type := Some match item option with
                            | builtin _ data => Data.type data
                            | custom _ _ _ _ item_type => item_type
                            end;
               path := Some match item option with
                            | builtin _ data => fileName data
                            | custom _ item_path _ _ _ => item_path
                            end;
               index := Some (findIndex (with_value (value option)) (options s));
               mediaId := Some (value option) |}).
  { subst background. unfold currentBackground. rewrite Hpage.
    unfold s', set_selectedBackground. cbn [infusion backgrounds].
    fold page. rewrite same_page_refl.
    destruct (Z.geb_spec (findIndex (with_value (value option)) (options s)) 0);
      [reflexivity | lia]. }
  assert (Hempty : String.eqb (value option) "" = false).
  { apply String.eqb_neq. intros H. apply Hblank. now rewrite H. }
  assert (Hshown : shown s' = value option).
  { unfold getInfusionBackgroundMediaId. fold background. rewrite Hbackground.
    cbn [mediaId]. apply String.eqb_neq in Hblank. now rewrite Hblank, Hempty. }
  split; [now rewrite <- Hpage|].
  split; [now rewrite Hbackground|].
  split; [now rewrite Hbackground|].
  split.
  { rewrite Hbackground. unfold s', set_selectedBackground. cbn [stored]. fold page.
    destruct (Z.geb_spec (findIndex (with_value (value option)) (options s)) 0);
      [reflexivity | lia]. }
  split.
  { intros other Hother. unfold s', set_selectedBackground. cbn [infusion backgrounds].
    fold page. now rewrite Hother. }
  split; [exact Hshown|].
  exists first.
  split; [now rewrite <- find_findIndex|].
  split; [exact Hvalue|].
  split.
  { unfold selectedBackground. fold (shown s'). rewrite Hshown.
    change (options s') with (options s). now rewrite Hfirst. }
  unfold getInfusionMediaFromBackground. rewrite Hbackground. cbn [rendered background_mediaId mediaId].
  apply String.eqb_neq in Hblank. rewrite Hblank. cbn [negb].
  change (banner s') with (banner s).
  unfold backgroundMediaOptions in Hfirst. rewrite find_options in Hfirst.
  destruct (List.find (by_key (value option)) (items (banner s))) as [i|];
    [|discriminate].
  injection Hfirst as <-. reflexivity.
Qed.

(** X22. [selectNextBackground] goes round the options.  With no option it
    does nothing.  Otherwise it chooses, through the setter of
    [selectedBackground], the option at an index of the options: the index
    after that of the first option whose value is the id shown, the first
    index again after the last one, and the first index when no option has
    the id shown. *)
Theorem selectNextBackground_goes_round (s : Settings) :
  (options s = [] -> next s = s) /\
  (options s ≠ [] ->
   let n := Z.of_nat (length (options s)) in
   let cur := findIndex (with_value (shown s)) (options s) in
   exists nextIdx option,
     0 <= nextIdx < n /\
     (0 <= cur < n - 1 -> nextIdx = cur + 1) /\
     (cur = n - 1 \/ cur = -1 -> nextIdx = 0) /\
     arr_at (options s) nextIdx = Some option /\
     next s = choose option s /\
     mediaId (currentBackground (next s)) = Some (value option)).
Proof.
  split.
  - intros Hempty. unfold selectNextBackground. now rewrite Hempty.
  - intros Hne n cur.
    pose proof (findIndex_range (with_value (shown s)) (options s)) as Hrange.
    fold cur in Hrange. fold n in Hrange.
    assert (Hn : 0 < n).
    { subst n. destruct (options s); [congruence | simpl; lia]. }
    set (nextIdx := Z.rem (if cur >=? 0 then cur + 1 else 0) n).
    assert (Hnext : 0 <= nextIdx < n /\
                    (0 <= cur < n - 1 -> nextIdx = cur + 1) /\
                    (cur = n - 1 \/ cur = -1 -> nextIdx = 0)).
    { subst nextIdx. destruct (Z.geb_spec cur 0) as [Hcur | Hcur].
      - destruct (Z.eq_dec cur (n - 1)) as [Hlast | Hmid].
        + replace (cur + 1) with n by lia. rewrite Z.rem_same by lia.
          repeat split; lia.
        + rewrite Z.rem_small by lia. repeat split; lia.
      - rewrite Z.rem_0_l by lia. repeat split; lia. }
    destruct Hnext as (Hin & Hmid & Hwrap).
    destruct (arr_at_in_range (options s) nextIdx Hin) as [option Hoption].
    exists nextIdx, option.
    assert (Hrun : next s = choose option s).
    { unfold selectNextBackground. fold (shown s). fold cur. fold n. fold nextIdx.
      rewrite Hoption. now destruct (options s). }
    repeat split; try assumption; try lia.
    rewrite Hrun. unfold currentBackground. rewrite page_kept.
    unfold set_selectedBackground. cbn [infusion backgrounds].
    now rewrite same_page_refl.
Qed.

End BackgroundChoice.

(** ** Legacy backgrounds *)

Section LegacyBackground.
Import Js Data Catalog VisualEffects Persisted.

Variable homeBannerMedia : list BannerMedia.
Variable DEFAULT_HOME_BANNER_FILE_NAME : string.
Variable DEFAULT_INFUSION_BACKGROUND_FILE_NAME : string.
Variable randomUUID : nat -> string.

Local Abbreviation step :=
  (Migration.migrateUserSettingsStep homeBannerMedia DEFAULT_HOME_BANNER_FILE_NAME randomUUID).
Local Abbreviation shown :=
  (getInfusionBackgroundMediaId homeBannerMedia DEFAULT_INFUSION_BACKGROUND_FILE_NAME).
Local Abbreviation with_mediaId := (Migration.background_with_mediaId homeBannerMedia).
Local Abbreviation with_background b s :=
  {| infusion :=
       {| sameSettingsForAllPages := sameSettingsForAllPages (infusion s);
          selectedPageToCustomize := selectedPageToCustomize (infusion s);
          backgrounds := fun _ => b |};
     banner := banner s;
     stored := stored s |}.

(** The descriptor the step from 4 to 5 stores in place of a descriptor. *)
Lemma with_mediaId_json (b : PageBackground) (updated : JsValue) :
  with_mediaId (Some (background_json b)) = Some updated ->
  exists i media,
    index b = Some i /\ arr_at homeBannerMedia i = Some media /\
    (mediaId b = None \/ mediaId b = Some "") /\
    updated = background_json {| type := type b; path := path b; index := index b;
                                 mediaId := Some (fileName media) |}.
Proof.
  destruct b as [t p i m]. unfold Migration.background_with_mediaId, background_json.
  cbn [type path index mediaId].
  destruct i as [i|].
  2: { destruct t as [[]|], p as [p|], m as [m|]; simpl;
         try discriminate; destruct (String.eqb m ""); discriminate. }
  assert (Hm : m = None \/ m = Some "" \/ exists x, m = Some x /\ String.eqb x "" = false).
  { destruct m as [x|]; [|now left]. right.
    destruct (String.eqb x "") eqn:E; [left | right; now exists x].
    apply String.eqb_eq in E. now subst. }
  destruct Hm as [-> | [-> | (x & -> & Hx)]].
  - destruct t as [[]|], p as [p|]; simpl;
      (destruct (arr_at homeBannerMedia i) as [media|] eqn:Hmedia; [|discriminate]);
      intros [= <-]; exists i, media; repeat split; auto.
  - destruct t as [[]|], p as [p|]; simpl;
      (destruct (arr_at homeBannerMedia i) as [media|] eqn:Hmedia; [|discriminate]);
      intros [= <-]; exists i, media; repeat split; auto.
  - destruct t as [[]|], p as [p|]; simpl; rewrite Hx; discriminate.
Qed.

Lemma storage_key_of_page (page : InfusionPage) :
  exists pageKey, pageKey ∈ Migration.infusionPageKeys /\
                  getStorageKeyForPage page "background" = Migration.background_key pageKey.
Proof.
  destruct page; eexists; (split; [|reflexivity]); set_solver.
Qed.

(** X23. The step from 4 to 5 keeps what the settings page shows as the
    chosen background.  When the background of the page being customized is
    stored under the key of that page, the step returns and leaves under
    that key a descriptor that is either the one from before or the one from
    before with a [mediaId] added, and for which
    [getInfusionBackgroundMediaId] gives the id it gave before: the
    [mediaId] the step writes for a legacy descriptor is the file name that
    the component resolves from the index of the descriptor. *)
Theorem migrate_4_to_5_keeps_what_is_shown (w : Migration.World) (s : Settings) :
  let page := effectivePageToCustomize s in
  let key := getStorageKeyForPage page "background" in
  let b := currentBackground s in
  Migration.store w !! key = Some (background_json b) ->
  exists w' b',
    step 4 5 w = Migration.Returned tt w' /\
    Migration.store w' !! key = Some (background_json b') /\
    (b' = b \/
     b' = {| type := type b; path := path b; index := index b;
             mediaId := Some (shown s) |}) /\
    shown (with_background b' s) = shown s.
Proof.
  intros page key b Hstored.
  destruct (storage_key_of_page page) as (pageKey & Hpage & Hkey). fold key in Hkey.
  rewrite step_4_5_loop.
  destruct (backgrounds_loop homeBannerMedia Migration.infusionPageKeys
              infusionPageKeys_NoDup w) as (w' & E & Hpages & _).
  specialize (Hpages pageKey Hpage). rewrite <- Hkey, Hstored in Hpages.
  exists w'.
  destruct (with_mediaId (Some (background_json b))) as [updated|] eqn:Hupdated.
  - destruct (with_mediaId_json b updated Hupdated) as (i & media & Hi & Hmedia & Hm & ->).
    assert (Hshown : shown s = fileName media).
    { unfold getInfusionBackgroundMediaId. fold b. rewrite Hi, Hmedia.
      destruct Hm as [-> | ->]; reflexivity. }
    eexists. split; [exact E|]. split; [exact Hpages|]. split.
    + right. now rewrite Hshown.
    + rewrite Hshown. unfold getInfusionBackgroundMediaId, currentBackground.
      cbn [infusion backgrounds index mediaId]. rewrite Hi, Hmedia.
      now destruct (negb (String.eqb (fileName media) "")
                    && negb (String.eqb (trim (fileName media)) ""))%bool.
  - exists b. split; [exact E|]. split; [exact Hpages|]. split; [now left|].
    reflexivity.
Qed.

End LegacyBackground.

(** ** Short ids *)

Section ShortIds.
Import Js.

Variable randomUUID : nat -> string.

Lemma remove_dashes_free (s : string) : has_char "-" (remove_dashes s) = false.
Proof.
  induction s as [|c s IH]; [reflexivity|]. simpl.
  destruct (Ascii.eqb c "-") eqn:E; [exact IH|]. simpl. now rewrite E.
Qed.

Lemma has_char_substring (c : ascii) (n : nat) (s : string) :
  has_char c s = false -> has_char c (substring 0 n s) = false.
Proof.
  revert s. induction n as [|n IH]; intros s H.
  - now destruct s.
  - destruct s as [|a s]; [reflexivity|]. simpl in *.
    apply orb_false_elim in H as [Ha Hs]. now rewrite Ha, IH.
Qed.

Lemma length_substring (n : nat) (s : string) :
  String.length (substring 0 n s) = Nat.min n (String.length s).
Proof.
  revert s. induction n as [|n IH]; intros s.
  - now destruct s.
  - destruct s as [|a s]; [reflexivity|]. simpl. now rewrite IH.
Qed.

(** X25. The shape of a short id.  [generateShortId] draws one UUID and
    changes nothing else; the id holds no dash and has at most eight
    characters, exactly eight when the UUID has at least eight characters
    other than dashes; and the migration and the composable make the same
    id of the same UUID. *)
Theorem generateShortId_shape (w : Migration.World) (st : Catalog.SettingsStore) :
  (exists shortId,
     Migration.generateShortId randomUUID w
     = Migration.Returned shortId
         {| Migration.store := Migration.store w;
            Migration.written := Migration.written w;
            Migration.uuids := S (Migration.uuids w) |} /\
     has_char "-" shortId = false /\
     (String.length shortId <= 8)%nat /\
     ((8 <= String.length (remove_dashes (randomUUID (Migration.uuids w))))%nat ->
      String.length shortId = 8%nat)) /\
  (Catalog.uuids st = Migration.uuids w ->
   Migration.generateShortId randomUUID w
   = Migration.Returned (fst (Catalog.generateShortId randomUUID st))
       {| Migration.store := Migration.store w;
          Migration.written := Migration.written w;
          Migration.uuids := S (Migration.uuids w) |}) /\
  Catalog.userSettings (snd (Catalog.generateShortId randomUUID st)) = Catalog.userSettings st /\
  Catalog.saved (snd (Catalog.generateShortId randomUUID st)) = Catalog.saved st /\
  Catalog.uuids (snd (Catalog.generateShortId randomUUID st)) = S (Catalog.uuids st).
Proof.
  split; [|split; [|repeat split]].
  - eexists. split; [reflexivity|]. split; [|split].
    + apply has_char_substring, remove_dashes_free.
    + rewrite length_substring. lia.
    + intros Hlong. rewrite length_substring. lia.
  - intros Huuids. unfold Migration.generateShortId, Catalog.generateShortId. simpl.
    now rewrite Huuids.
Qed.

End ShortIds.

(** ** Examples *)

Section ShortcutExamples.
Import Js Shortcuts ShortcutSamples.

Local Abbreviation set_shortcut :=
  (setShortcut Desktop unregister register update_tray_shortcut).
Local Abbreviation reset_shortcut :=
  (resetShortcut Desktop unregister register update_tray_shortcut).

(** Control, Alt and the key k. *)
Lemma tauriFormat_round_trip_witness :
  shortcutKeysToTauriFormat ctrl_alt_k = "Control+Alt+K" /\
  key (tauriFormatToShortcutKeys (shortcutKeysToTauriFormat ctrl_alt_k)) = "K" /\
  ctrl (tauriFormatToShortcutKeys (shortcutKeysToTauriFormat ctrl_alt_k)) = true.
Proof.
  split; [reflexivity|].
  destruct (tauriFormat_round_trip ctrl_alt_k) as (Hctrl & _ & _ & _ & Hkey & _);
    try discriminate; [reflexivity|].
  split; [exact Hkey | exact Hctrl].
Defined.

Lemma formatTauriShortcut_label_witness :
  formatTauriShortcut (shortcutKeysToTauriFormat ctrl_alt_k) = "Ctrl+Alt+K".
Proof. apply (formatTauriShortcut_label ctrl_alt_k); reflexivity. Defined.

(** Shift and the space bar, set on the store as it is created. *)
Lemma setShortcut_round_trip_witness :
  getShortcutString Desktop launchApp (set_shortcut launchApp shift_space fresh_store)
  = "Shift+Space" /\
  getShortcutKeys Desktop launchApp (set_shortcut launchApp shift_space fresh_store)
  = shift_space.
Proof.
  apply (setShortcut_round_trip Desktop unregister register unregisterAll
           update_tray_shortcut launchApp shift_space fresh_store);
    try discriminate; reflexivity.
Defined.

Lemma resetShortcut_restores_default_witness :
  let s := set_shortcut launchApp ctrl_alt_k fresh_store in
  isCustomized Desktop launchApp s = true /\
  isCustomized Desktop launchApp (reset_shortcut launchApp s) = false /\
  getShortcutLabel Desktop launchApp (reset_shortcut launchApp s) = "Win+Shift+E".
Proof.
  intros s. split; [reflexivity|].
  destruct (resetShortcut_restores_default Desktop unregister register unregisterAll
              update_tray_shortcut launchApp s) as (_ & _ & Hcustom & _ & _ & Hlabel);
    [reflexivity|].
  split; [exact Hcustom | exact Hlabel].
Defined.

Lemma setShortcut_registers_witness :
  registeredShortcuts Desktop (set_shortcut launchApp ctrl_alt_k fresh_store) !! launchApp
  = Some "Control+Alt+K".
Proof.
  apply (setShortcut_registers Desktop unregister register unregisterAll
           update_tray_shortcut launchApp ctrl_alt_k fresh_store);
    [reflexivity | discriminate].
Defined.

End ShortcutExamples.

Section MigrationExamples.
Import Js Data Migration Persisted Samples EffectSamples.

Local Abbreviation step := (migrateUserSettingsStep manifest default_file uuid_stream).

(** The key [-1] makes the step throw; the map is left as it was. *)
Lemma migrate_2_to_3_throws_on_negative_index_witness :
  exists w', step 2 3 world_negative = Thrown w' /\
             store w' !! "homeBannerPositions"
             = Some (JObj [("0", position 10 20 100); ("-1", position 50 50 100)]).
Proof.
  destruct (migrate_2_to_3_throws_on_negative_index manifest default_file uuid_stream
              world_negative
              [("0", position 10 20 100); ("-1", position 50 50 100)]
              "-1" (position 50 50 100) (-1))
    as (w' & E & Hpositions & _).
  - reflexivity.
  - reflexivity.
  - right. left.
  - reflexivity.
  - reflexivity.
  - reflexivity.
  - exists w'. split; [exact E | exact Hpositions].
Defined.

(** The step from 3 to 4 on scenario B of the specification, twice. *)
Lemma steps_other_than_2_to_3_idempotent_witness :
  exists w1 w2,
    step 3 4 world_B = Returned tt w1 /\ step 3 4 w1 = Returned tt w2 /\ store w2 = store w1.
Proof.
  apply (steps_other_than_2_to_3_idempotent manifest default_file uuid_stream 3 4 world_B).
  discriminate.
Defined.

End MigrationExamples.

Section CatalogExamples.
Import Js Data Catalog Samples EffectSamples.

Local Abbreviation items := (allMediaItems manifest url_pathname).
Local Abbreviation index_of := (normalizedIndex manifest default_file url_pathname).
Local Abbreviation current := (currentItem manifest default_file url_pathname).
Local Abbreviation add_url := (addMediaUrl default_file uuid_stream).
Local Abbreviation remove := (removeCustomMedia manifest default_file url_pathname).
Local Abbreviation add_files :=
  (addFilesFromPaths default_file uuid_stream media_directory ensure_directory copy_items).
Local Abbreviation infusion :=
  (getInfusionMediaFromBackground manifest default_file url_pathname convertFileSrc
     builtinBannerImages builtinBannerVideos).

(** The legacy index 1 of [world_two] is the second custom entry. *)
Lemma migrate_3_to_4_agrees_with_catalog_witness :
  exists w',
    Migration.migrateUserSettingsStep manifest default_file uuid_stream 3 4 world_two
    = Migration.Returned tt w' /\
    Migration.store w' !! "homeBannerMediaId" = Some (JStr "bbbb2222").
Proof.
  destruct (migrate_3_to_4_agrees_with_catalog manifest default_file uuid_stream
              url_pathname world_two (userSettings store_two) 1
              (custom 1 "C:/data/banner/b.mp4" "bbbb2222" "b.mp4" video))
    as (w' & E & Hid & _).
  - reflexivity.
  - reflexivity.
  - reflexivity.
  - repeat constructor; discriminate.
  - reflexivity.
  - exists w'. split; [exact E | exact Hid].
Defined.

(** The position saved under the index 1 ends under the id of the second
    custom entry, which is the id stored as the selection. *)
Lemma legacy_selection_keeps_its_position_witness :
  exists w1 w2 migratedPositions,
    Migration.migrateUserSettingsStep manifest default_file uuid_stream 2 3 world_saved
    = Migration.Returned tt w1 /\
    Migration.migrateUserSettingsStep manifest default_file uuid_stream 3 4 w1
    = Migration.Returned tt w2 /\
    Migration.store w2 !! "homeBannerMediaId" = Some (JStr "bbbb2222") /\
    Migration.store w2 !! "homeBannerPositions" = Some (JObj migratedPositions) /\
    obj_get "bbbb2222" migratedPositions = Some (position 30 40 120).
Proof.
  apply (legacy_selection_keeps_its_position manifest default_file uuid_stream
           url_pathname world_saved (userSettings store_two)
           [("0", position 10 20 100)] "1" (position 30 40 120) 1
           (custom 1 "C:/data/banner/b.mp4" "bbbb2222" "b.mp4" video));
    try reflexivity.
  - repeat constructor; discriminate.
  - constructor; [intros _; now left | constructor].
  - discriminate.
Defined.

Lemma add_then_remove_witness :
  customItems (userSettings (remove "https://example.org/sky.webm"
                               (add_url "  https://example.org/sky.webm " store_two)))
  = [item_a; item_b].
Proof.
  apply (add_then_remove manifest default_file uuid_stream url_pathname
           "  https://example.org/sky.webm " store_two).
  - discriminate.
  - reflexivity.
  - intros entry Hin. apply list_elem_of_In in Hin.
    destruct Hin as [<-|[<-|[]]]; discriminate.
Defined.

Lemma addMediaUrl_selects_new_entry_witness :
  let u' := userSettings (add_url "https://example.org/sky.webm" store_two) in
  index_of u' = 2 /\ homeBannerIndex u' = Some (index_of u') /\
  current u' = Some (custom 2 "https://example.org/sky.webm" "12345678" "sky.webm" video).
Proof.
  apply (addMediaUrl_selects_new_entry manifest default_file uuid_stream url_pathname
           "https://example.org/sky.webm" store_two).
  - discriminate.
  - reflexivity.
  - intros entry Hin. apply list_elem_of_In in Hin.
    destruct Hin as [<-|[<-|[]]]; discriminate.
  - discriminate.
  - intros item Hin. apply list_elem_of_In in Hin.
    destruct Hin as [<-|[<-|[<-|[<-|[]]]]]; discriminate.
Defined.

Lemma resolvers_agree_on_present_key_witness :
  current (userSettings store_two)
  = Some (custom 1 "C:/data/banner/b.mp4" "bbbb2222" "b.mp4" video) /\
  infusion (userSettings store_two)
    {| background_index := None; background_mediaId := Some "bbbb2222" |}
  = ("asset://localhost/C:/data/banner/b.mp4", video).
Proof.
  destruct (resolvers_agree_on_present_key manifest default_file default_file
              url_pathname convertFileSrc builtinBannerImages builtinBannerVideos
              (userSettings store_two)
              {| background_index := None; background_mediaId := Some "bbbb2222" |}
              "bbbb2222" 1 (custom 1 "C:/data/banner/b.mp4" "bbbb2222" "b.mp4" video))
    as (first & Hfind & _ & Hcurrent & Hinfusion);
    try reflexivity; [discriminate|].
  injection Hfind as <-. split; [exact Hcurrent | exact Hinfusion].
Defined.

(** A file copied from a Windows path into the media directory. *)
Lemma added_files_keep_their_names_witness :
  exists st' entry,
    add_files ["D:\photos\sky.jpg"] store_two = Returned st' /\
    customItems (userSettings st') !! 2%nat = Some entry /\
    path entry = "C:/data/banner/sky.jpg" /\
    has_char "\" (path entry) = false /\
    last_path_segment (path entry) = "sky.jpg".
Proof.
  eexists. eexists. split; [reflexivity|]. split; [reflexivity|]. split; [reflexivity|].
  destruct (added_files_keep_their_names manifest default_file uuid_stream url_pathname
              media_directory ensure_directory copy_items
              ["D:\photos\sky.jpg"] store_two _ 0%nat _ eq_refl eq_refl)
    as (src & Hsrc & Hfree & _ & Hlast & _).
  injection Hsrc as <-. split; [exact Hfree | exact Hlast].
Defined.

End CatalogExamples.

Section EffectExamples.
Import Js Data Catalog VisualEffects Persisted Samples EffectSamples.

Local Abbreviation choose := (set_selectedBackground manifest url_pathname).
Local Abbreviation shown := (getInfusionBackgroundMediaId manifest default_file).
Local Abbreviation infusion_media :=
  (getInfusionMediaFromBackground manifest default_file url_pathname convertFileSrc
     builtinBannerImages builtinBannerVideos).

(** The second custom entry chosen for the home page. *)
Lemma chosen_background_is_rendered_witness :
  let s' := choose option_b home_settings in
  mediaId (currentBackground s') = Some "bbbb2222" /\
  index (currentBackground s') = Some 1 /\
  shown s' = "bbbb2222" /\
  infusion_media (banner s') (rendered (currentBackground s'))
  = ("asset://localhost/C:/data/banner/b.mp4", video).
Proof.
  destruct (chosen_background_is_rendered manifest default_file url_pathname
              convertFileSrc builtinBannerImages builtinBannerVideos
              option_b home_settings)
    as (_ & Hid & Hindex & _ & _ & Hshown & first & Hfirst & _ & _ & Hmedia).
  - apply list_elem_of_In. right. left. reflexivity.
  - discriminate.
  - injection Hfirst as <-.
    split; [exact Hid|]. split; [exact Hindex|]. split; [exact Hshown | exact Hmedia].
Defined.

(** The legacy descriptor of the home page: the settings page shows the
    second builtin entry for it, before the step and after. *)
Lemma migrate_4_to_5_keeps_what_is_shown_witness :
  exists w' b',
    Migration.migrateUserSettingsStep manifest default_file uuid_stream 4 5 world_home
    = Migration.Returned tt w' /\
    Migration.store w' !! "infusion.pages.home.background" = Some (background_json b') /\
    shown {| infusion := {| sameSettingsForAllPages := false;
                            selectedPageToCustomize := home;
                            backgrounds := fun _ => b' |};
             banner := banner home_settings;
             stored := [] |}
    = "default.jpg".
Proof.
  destruct (migrate_4_to_5_keeps_what_is_shown manifest default_file default_file
              uuid_stream world_home home_settings eq_refl)
    as (w' & b' & E & Hstored & _ & Hshown).
  exists w', b'. split; [exact E|]. split; [exact Hstored | exact Hshown].
Defined.

End EffectExamples.
